(** * excel-to-streamlit: schema detection and the SQLite adapter

    A shallow embedding of [src/schema_detector.py] and [src/db_manager.py].

    - Python scalars, labels and exceptions live in [Python].
    - The part of pandas the two modules call (Series, DataFrame, dtype
      predicates, [isna], [nunique], [dropna], [iterrows]) lives in [Pandas].
    - [SchemaDetector] embeds [clean_column_name], [infer_column_types],
      [is_date_column], [detect_primary_key] and [detect_schema].
    - [Sqlite3] is a reference model of the engine for the six statement
      shapes the adapter emits; statements are kept as syntax trees.
    - [DbManager] embeds [DatabaseManager]: [get_connection], [create_table],
      [insert_data], [create_record], [read_all], [update_record] and
      [delete_record].
    - [App] embeds [validate_file] and [process_excel_file] of [app.py].

    Definitions come first, the verified properties follow. *)

From Stdlib Require Import ZArith QArith Ascii String List Bool Lia DecimalString DecimalNat.
From stdpp Require Import base gmap strings list.

Local Open Scope string_scope.
Local Open Scope list_scope.

(* ===================================================================== *)
(** ** Python values, exceptions and the error monad                      *)
(* ===================================================================== *)

Module Python.

(** The exceptions that the two modules can see.  Every exception carries
  the text that [str(e)] yields. *)
Inductive exn : Type :=
| SchemaDetectionError (msg : string)   (* schema_detector.SchemaDetectionError *)
| DatabaseError (msg : string)          (* db_manager.DatabaseError *)
| Sqlite3Error (msg : string)           (* sqlite3.Error and its subclasses *)
| PandasDatabaseError (msg : string)    (* pandas.errors.DatabaseError, an OSError *)
| EmptyDataError (msg : string)         (* pandas.errors.EmptyDataError *)
| ParserError (msg : string)            (* pandas.errors.ParserError *)
| ValueError (msg : string)
| KeyError (msg : string)
| IndexError (msg : string)
| AttributeError (msg : string)
| TypeError (msg : string)
| OverflowError (msg : string)
| OtherError (msg : string).            (* any other Exception, e.g. FileNotFoundError *)

Definition exn_str (e : exn) : string :=
match e with
| SchemaDetectionError m | DatabaseError m | Sqlite3Error m
| PandasDatabaseError m | EmptyDataError m | ParserError m
| ValueError m | KeyError m | IndexError m | AttributeError m
| TypeError m | OverflowError m | OtherError m => m
end.

(** A call either returns a value or raises. *)
Inductive result (A : Type) : Type :=
| Ok (a : A)
| Raise (e : exn).
Arguments Ok {A} a.
Arguments Raise {A} e.

#[export] Instance result_ret : MRet result := fun A a => Ok a.
#[export] Instance result_bind : MBind result := fun A B f m =>
match m with
| Ok a => f a
| Raise e => Raise e
end.

(** [for x in xs: acc = body(acc, x)] where the body may raise. *)
Fixpoint for_each {A S : Type} (body : S → A → result S) (xs : list A) (acc : S)
: result S :=
match xs with
| [] => Ok acc
| x :: xs' => acc' ← body acc x; for_each body xs' acc'
end.

(** [[f(x) for x in xs]] where [f] may raise. *)
Fixpoint map_result {A B : Type} (f : A → result B) (xs : list A) : result (list B) :=
match xs with
| [] => Ok []
| x :: xs' => y ← f x; ys ← map_result f xs'; Ok (y :: ys)
end.

(** A scalar as it sits in a DataFrame cell or in a record dictionary.
  A float is held by its exact rational value, a [pd.Timestamp] by its
  canonical ISO-8601 rendering (what [isoformat()] returns); [PNA] is the
  missing marker ([None], [nan] or [NaT]). *)
Inductive cell : Type :=
| PInt (z : Z)
| PFloat (q : Q)
| PStr (s : string)
| PTimestamp (iso : string)
| PNA.

(** The range of a 64-bit signed integer: an [int64] dtype, an SQLite
  INTEGER. *)
Definition min_int64 : Z := (- 2 ^ 63)%Z.
Definition max_int64 : Z := (2 ^ 63 - 1)%Z.
Definition in_int64 (z : Z) : bool := (min_int64 <=? z)%Z && (z <=? max_int64)%Z.

(** A column label: a [str], or any other object (an [int] header cell, a
  date, ...) given by what [str()] makes of it. *)
Inductive label : Type :=
| LStr (s : string)
| LOther (rendering : string).

(** [str(name)] *)
Definition py_str (name : label) : string :=
match name with LStr s => s | LOther r => r end.

(** [name.startswith(prefix)]: only [str] has the method. *)
Definition startswith (name : label) (prefix : string) : result bool :=
match name with
| LStr s => Ok (String.prefix prefix s)
| LOther _ => Raise (AttributeError "object has no attribute 'startswith'")
end.

(** [str(n)] for a natural number. *)
Definition str_of_nat (n : nat) : string :=
NilEmpty.string_of_uint (Nat.to_uint n).

(** [str(z)] for an integer. *)
Definition str_of_Z (z : Z) : string :=
match z with
| Z0 => "0"
| Zpos p => str_of_nat (Pos.to_nat p)
| Zneg p => "-" +:+ str_of_nat (Pos.to_nat p)
end.

(** *** Characters

  A character is a code point below 256; the three predicates follow the
  Unicode database on that range, as [str.isspace], [str.isdigit] and
  [str.isalnum] do. *)

Definition code (c : ascii) : N := N_of_ascii c.

Definition between (lo hi : N) (n : N) : bool := (lo <=? n)%N && (n <=? hi)%N.

Definition isspace (c : ascii) : bool :=
let n := code c in
between 9 13 n || between 28 32 n || (n =? 133)%N || (n =? 160)%N.

Definition isdigit (c : ascii) : bool :=
let n := code c in
between 48 57 n || (n =? 178)%N || (n =? 179)%N || (n =? 185)%N.

Definition isalpha (c : ascii) : bool :=
let n := code c in
between 65 90 n || between 97 122 n
|| (n =? 170)%N || (n =? 181)%N || (n =? 186)%N
|| between 192 214 n || between 216 246 n || between 248 255 n.

(** vulgar fractions are numeric, hence alphanumeric, but not digits *)
Definition isnumeric (c : ascii) : bool :=
isdigit c || between 188 190 (code c).

Definition isalnum (c : ascii) : bool := isalpha c || isnumeric c.

(** *** The [str] methods that [clean_column_name] uses *)

Fixpoint lstrip (s : string) : string :=
match s with
| String c s' => if isspace c then lstrip s' else s
| EmptyString => EmptyString
end.

Fixpoint rstrip (s : string) : string :=
match s with
| EmptyString => EmptyString
| String c s' =>
    match rstrip s' with
    | EmptyString => if isspace c then EmptyString else String c EmptyString
    | kept => String c kept
    end
end.

(** [s.strip()] *)
Definition strip (s : string) : string := rstrip (lstrip s).

(** [''.join(f(c) for c in s)] for a character-to-character [f] *)
Fixpoint map_chars (f : ascii → ascii) (s : string) : string :=
match s with
| String c s' => String (f c) (map_chars f s')
| EmptyString => EmptyString
end.

(** [s.replace(" ", "_")] *)
Definition replace_space (s : string) : string :=
map_chars (fun c => if Ascii.eqb c " " then "_"%char else c) s.

End Python.

Export Python.

(* ===================================================================== *)
(** ** The pandas objects the code handles                                *)
(* ===================================================================== *)

Module Pandas.

Inductive Dtype : Type := Int64 | Float64 | Datetime64 | Object.

Record Series : Type := { dtype : Dtype; values : list cell }.

(** Columns are kept in order and a label may occur more than once; every
  column holds [df_len] cells. *)
Record DataFrame (L : Type) : Type :=
{ df_columns : list L; df_data : list Series; df_len : nat }.
Arguments df_columns {L} _.
Arguments df_data {L} _.
Arguments df_len {L} _.

(** What a column of a given dtype can hold. *)
Definition cell_fits (d : Dtype) (c : cell) : bool :=
match d, c with
| Int64, PInt z => in_int64 z
| Float64, (PFloat _ | PNA) => true
| Datetime64, (PTimestamp _ | PNA) => true
| Object, _ => true
| _, _ => false
end.

Definition series_wf (s : Series) : bool := forallb (cell_fits (dtype s)) (values s).

Definition frame_wf {L} (df : DataFrame L) : Prop :=
length (df_columns df) = length (df_data df)
∧ Forall (fun s => length (values s) = df_len df ∧ series_wf s = true) (df_data df).

(** [pd.api.types.is_integer_dtype], [is_float_dtype], [is_datetime64_any_dtype] *)
Definition is_integer_dtype (s : Series) : bool :=
match dtype s with Int64 => true | _ => false end.
Definition is_float_dtype (s : Series) : bool :=
match dtype s with Float64 => true | _ => false end.
Definition is_datetime64_any_dtype (s : Series) : bool :=
match dtype s with Datetime64 => true | _ => false end.

(** [pd.isna(val)] *)
Definition isna (c : cell) : bool :=
match c with PNA => true | _ => false end.
Definition notna (c : cell) : bool := negb (isna c).

(** [s.dropna()] keeps the dtype *)
Definition dropna (s : Series) : Series :=
{| dtype := dtype s; values := filter (fun c => notna c = true) (values s) |}.

(** [len(s)] *)
Definition len (s : Series) : nat := length (values s).

(** Equality of two present scalars as Python's [==] and hashing see it:
  numbers compare by value across [int] and [float]. *)
Definition cell_eqb (a b : cell) : bool :=
match a, b with
| PInt x, PInt y => (x =? y)%Z
| PInt x, PFloat q | PFloat q, PInt x => Qeq_bool (inject_Z x) q
| PFloat p, PFloat q => Qeq_bool p q
| PStr s, PStr t => String.eqb s t
| PTimestamp s, PTimestamp t => String.eqb s t
| _, _ => false
end.

(** One representative of every class of equal values. *)
Fixpoint unique (l : list cell) : list cell :=
match l with
| [] => []
| c :: l' => if existsb (cell_eqb c) l' then unique l' else c :: unique l'
end.

(** [s.nunique()]: the number of distinct values, missing ones left out *)
Definition nunique (s : Series) : nat := length (unique (values (dropna s))).

(** [df[col]]: the column of that label; a frame of all of them when the
  label is repeated; [KeyError] when it is absent. *)
Inductive selection : Type :=
| SelSeries (s : Series)
| SelFrame (cols : list Series).

Definition select_columns {L} `{EqDecision L} (df : DataFrame L) (col : L) : list Series :=
(filter (fun p => p.1 = col) (zip (df_columns df) (df_data df))).*2.

Definition getitem {L} `{EqDecision L} (df : DataFrame L) (col : L) : result selection :=
match select_columns df col with
| [] => Raise (KeyError "column label not found")
| [s] => Ok (SelSeries s)
| cols => Ok (SelFrame cols)
end.

Definition ambiguous : exn :=
ValueError "The truth value of a Series is ambiguous. Use a.empty, a.bool(), a.item(), a.any() or a.all().".

(** [if df[col].isna().all():] a column reduces to one bool; a frame reduces
  to a Series of bools, whose truth value raises. *)
Definition truth_isna_all (sel : selection) : result bool :=
match sel with
| SelSeries s => Ok (forallb isna (values s))
| SelFrame _ => Raise ambiguous
end.

(** [if df[col].notna().any():] *)
Definition truth_notna_any (sel : selection) : result bool :=
match sel with
| SelSeries s => Ok (existsb notna (values s))
| SelFrame _ => Raise ambiguous
end.

(** [df.empty]: some axis has length zero *)
Definition empty {L} (df : DataFrame L) : bool :=
(df_len df =? 0)%nat || (length (df_columns df) =? 0)%nat.

(** [df.columns = new_labels]: the number of labels must fit *)
Definition set_columns {L L'} (new_labels : list L') (df : DataFrame L)
: result (DataFrame L') :=
if (length new_labels =? length (df_columns df))%nat
then Ok {| df_columns := new_labels; df_data := df_data df; df_len := df_len df |}
else Raise (ValueError "Length mismatch").

(** [df.columns[0]] *)
Definition first_label {L} (df : DataFrame L) : result L :=
match df_columns df with
| [] => Raise (IndexError "index 0 is out of bounds for axis 0 with size 0")
| first :: _ => Ok first
end.

(** The cells of row [i], in column order. *)
Definition row_cells {L} (df : DataFrame L) (i : nat) : list cell :=
map (fun s => nth i (values s) PNA) (df_data df).

(** [df.iterrows()]: every row as a Series indexed by the column labels,
  here the labels zipped with the scalars of the row. *)
Definition iterrows {L} (df : DataFrame L) : list (list (L * cell)) :=
map (fun i => zip (df_columns df) (row_cells df i)) (seq 0 (df_len df)).

(** [row[col]] on such a row, followed by the scalar tests of the caller:
  a repeated label yields a Series, on which [if pd.isna(val)] raises. *)
Definition row_getitem {L} `{EqDecision L} (row : list (L * cell)) (col : L) : result cell :=
match (filter (fun p => p.1 = col) row).*2 with
| [] => Raise (KeyError "column label not found")
| [c] => Ok c
| _ => Raise ambiguous
end.

End Pandas.

Export Pandas.

(* ===================================================================== *)
(** ** src/schema_detector.py                                             *)
(* ===================================================================== *)

Module SchemaDetector.

(** The schema dictionary with its three keys. *)
Record Schema : Type :=
{ columns : list string; types : gmap string string; primary_key : string }.

Definition clean_column_name (name : label) : string :=
let cleaned := replace_space (strip (py_str name)) in
let cleaned :=
  map_chars (fun c => if isalnum c || Ascii.eqb c "_" then c else "_"%char) cleaned in
let cleaned :=
  match cleaned with
  | String c _ => if isdigit c then "col_" +:+ cleaned else cleaned
  | EmptyString => cleaned
  end in
match cleaned with
| EmptyString => "Column_A"
| _ => cleaned
end.

Section Inference.

(** [pd.to_datetime(series, errors="raise")], of which only the outcome
matters: it returns or it raises. *)
Variable to_datetime : Series → result unit.

(** [pd.read_excel(file_path, sheet_name=0, engine=None)] *)
Variable read_excel : string → result (DataFrame label).

Definition is_date_column (series : Series) : result bool :=
  match to_datetime series with
  | Ok _ => Ok true
  | Raise (ValueError _) | Raise (TypeError _) => Ok false
  | Raise e => Raise e
  end.

(** The body of the loop of [infer_column_types] for one column: the type
that is stored under [types[col]]. *)
Definition infer_column_type (df : DataFrame string) (col : string) : result string :=
  sel ← getitem df col;
  all_null ← truth_isna_all sel;
  if (all_null : bool) then Ok "str"
  else match sel with
   | SelFrame _ => Raise ambiguous
   | SelSeries s =>
       if is_datetime64_any_dtype s then Ok "date"
       else
         let non_null := dropna s in
         if (len non_null =? 0)%nat then Ok "str"
         else if is_integer_dtype non_null then Ok "int"
         else if is_float_dtype non_null then Ok "float"
         else
           is_date ← is_date_column non_null;
           if (is_date : bool) then Ok "date" else Ok "str"
   end.

Definition infer_column_types (df : DataFrame string) : result (gmap string string) :=
  for_each (fun types col => ty ← infer_column_type df col; Ok (<[col := ty]> types))
       (df_columns df) ∅.

(** The test both loops of [detect_primary_key] apply to a column. *)
Definition is_unique_column (df : DataFrame string) (col : string) : result bool :=
  sel ← getitem df col;
  present ← truth_notna_any sel;
  if (present : bool) then
match sel with
| SelFrame _ => Raise ambiguous
| SelSeries s =>
    let unique_count := nunique s in
    let total_count := len (dropna s) in
    Ok ((unique_count =? total_count)%nat && (0 <? total_count)%nat)
end
  else Ok false.

(** [for col in columns: if col == first_col: continue ...] *)
Fixpoint check_other_columns (df : DataFrame string) (first_col : string)
     (columns : list string) : result string :=
  match columns with
  | [] => Ok "id"
  | col :: rest =>
  if decide (col = first_col) then check_other_columns df first_col rest
  else
    qualifies ← is_unique_column df col;
    if (qualifies : bool) then Ok col else check_other_columns df first_col rest
  end.

Definition detect_primary_key (df : DataFrame string) (columns : list string)
  : result string :=
  match columns with
  | [] => Ok "id"
  | first_col :: _ =>
  qualifies ← is_unique_column df first_col;
  if (qualifies : bool) then Ok first_col
  else check_other_columns df first_col columns
  end.

(** The [try] block of [detect_schema]. *)
Definition detect_schema_body (file_path : string) : result Schema :=
  df ← read_excel file_path;
  if empty df then Raise (SchemaDetectionError "Excel file contains no data")
  else if (length (df_columns df) =? 0)%nat
  then Raise (SchemaDetectionError "Excel file has no columns")
  else
first ← first_label df;
unnamed ← startswith first "Unnamed";
df ← (if (unnamed : bool)
      then set_columns
             (map (fun i => LStr ("Column" +:+ str_of_nat (i + 1)))
                  (seq 0 (length (df_columns df)))) df
      else Ok df);
let columns := map clean_column_name (df_columns df) in
df ← set_columns columns df;
types ← infer_column_types df;
primary_key ← detect_primary_key df columns;
Ok {| columns := columns; types := types; primary_key := primary_key |}.

(** The three [except] clauses, in order. *)
Definition detect_schema (file_path : string) : result Schema :=
  match detect_schema_body file_path with
  | Ok schema => Ok schema
  | Raise (EmptyDataError _) => Raise (SchemaDetectionError "Excel file is empty")
  | Raise (ParserError m) =>
  Raise (SchemaDetectionError ("Error parsing Excel file: " +:+ m))
  | Raise e =>
  Raise (SchemaDetectionError
           ("Unexpected error during schema detection: " +:+ exn_str e))
  end.

End Inference.

End SchemaDetector.

Export SchemaDetector.

(* ===================================================================== *)
(** ** The relational engine                                              *)
(* ===================================================================== *)

(** A reference model of SQLite for the statements [DatabaseManager] sends:
    rowid tables, column affinity, PRIMARY KEY uniqueness, the rowid alias
    of an INTEGER PRIMARY KEY, and one transaction per connection.

    A statement is kept as its syntax tree: the names that the adapter
    splices into the SQL text are taken to be read back as identifiers.
    Every failure of the engine is a [Sqlite3Error] that carries the
    engine's message. *)
Module Sqlite3.

Inductive sqlval : Type :=
| SNull
| SInt (z : Z)
| SReal (q : Q)
| SText (s : string).

Inductive sqlite_type : Type := INTEGER | REAL | TEXT.

Definition type_name (ty : sqlite_type) : string :=
match ty with INTEGER => "INTEGER" | REAL => "REAL" | TEXT => "TEXT" end.

(** One column definition of a CREATE TABLE statement. *)
Record column_def : Type :=
{ cd_name : string; cd_type : sqlite_type; cd_pk : bool; cd_autoincrement : bool }.

(** A table: its columns, its rows by ascending rowid, and the largest
  rowid ever used (kept for AUTOINCREMENT). *)
Record table : Type :=
{ t_columns : list column_def; t_rows : list (Z * list sqlval); t_sequence : Z }.

(** The statement shapes of db_manager.py; a [?] is a bound parameter. *)
Inductive statement : Type :=
| CreateTableIfNotExists (tbl : string) (defs : list column_def)
| InsertInto (tbl : string) (cols : list string)          (* VALUES (?, ..., ?) *)
| SelectAll (tbl : string)                                (* SELECT * FROM tbl *)
| UpdateWhere (tbl : string) (set_cols : list string) (where_col : string)
                                                        (* SET c = ?, ... WHERE w = ? *)
| DeleteWhere (tbl : string) (where_col : string)         (* WHERE w = ? *)
| PragmaTableInfo (tbl : string).

(** A row of [PRAGMA table_info]: (cid, name, type, notnull, dflt_value, pk). *)
Record info_row : Type :=
{ ti_cid : Z; ti_name : string; ti_type : string; ti_notnull : Z; ti_pk : Z }.

Inductive resultset : Type :=
| NoRows
| DataRows (names : list string) (rows : list (list sqlval))
| InfoRows (rows : list info_row).

Record cursor : Type := { rowcount : Z; lastrowid : Z; results : resultset }.

Abbreviation database := (gmap string table).

(** The engine's conversions between numbers and text, which the model
  takes as given: the text form of a REAL, and the number that a text
  value denotes when it looks like a numeric literal. *)
Class Coercions : Type :=
{ real_to_text : Q → string;
  text_to_number : string → option (Z + Q) }.

(** Identifiers compare without regard to ASCII case. *)
Definition lower (c : ascii) : ascii :=
if between 65 90 (code c) then ascii_of_N (code c + 32) else c.
Definition ident_eqb (a b : string) : bool :=
String.eqb (map_chars lower a) (map_chars lower b).

Definition is_integral (q : Q) : bool := (Z.rem (Qnum q) (Zpos (Qden q)) =? 0)%Z.
Definition integer_part (q : Q) : Z := (Qnum q ÷ Zpos (Qden q))%Z.

Definition sql_error {A} (msg : string) : result A := Raise (Sqlite3Error msg).

Section Engine.
Context `{Coercions}.

Definition real_to_integer (q : Q) : sqlval :=
  if is_integral q && in_int64 (integer_part q) then SInt (integer_part q) else SReal q.

(** Column affinity applied to a value on its way into a column, or to
the parameter of a comparison with that column. *)
Definition apply_affinity (ty : sqlite_type) (v : sqlval) : sqlval :=
  match ty, v with
  | TEXT, SInt z => SText (str_of_Z z)
  | TEXT, SReal q => SText (real_to_text q)
  | INTEGER, SReal q => real_to_integer q
  | INTEGER, SText s =>
  match text_to_number s with
  | Some (inl z) => SInt z
  | Some (inr q) => real_to_integer q
  | None => v
  end
  | REAL, SInt z => SReal (inject_Z z)
  | REAL, SText s =>
  match text_to_number s with
  | Some (inl z) => SReal (inject_Z z)
  | Some (inr q) => SReal q
  | None => v
  end
  | _, _ => v
  end.

(** [a = b] is true; NULL equals nothing, numbers compare by value. *)
Definition sql_eqb (a b : sqlval) : bool :=
  match a, b with
  | SInt x, SInt y => (x =? y)%Z
  | SInt x, SReal q | SReal q, SInt x => Qeq_bool (inject_Z x) q
  | SReal p, SReal q => Qeq_bool p q
  | SText s, SText t => String.eqb s t
  | _, _ => false
  end.

Definition has_column (t : table) (name : string) : bool :=
  existsb (fun d => ident_eqb (cd_name d) name) (t_columns t).

(** Position and definition of the column of that name. *)
Fixpoint find_column (defs : list column_def) (name : string) : option (nat * column_def) :=
  match defs with
  | [] => None
  | d :: defs' =>
  if ident_eqb (cd_name d) name then Some (0%nat, d)
  else '(i, d') ← find_column defs' name; Some (S i, d')
  end.

(** An INTEGER PRIMARY KEY column is an alias of the rowid. *)
Definition is_rowid_alias (d : column_def) : bool :=
  cd_pk d && match cd_type d with INTEGER => true | _ => false end.

Fixpoint rowid_alias (defs : list column_def) : option (nat * column_def) :=
  match defs with
  | [] => None
  | d :: defs' =>
  if is_rowid_alias d then Some (0%nat, d)
  else '(i, d') ← rowid_alias defs'; Some (S i, d')
  end.

Definition max_rowid (rows : list (Z * list sqlval)) : Z :=
  foldr (fun r m => Z.max r.1 m) 0%Z rows.

Definition uses_autoincrement (t : table) : bool :=
  existsb cd_autoincrement (t_columns t).

Definition next_rowid (t : table) : Z :=
  (Z.max (max_rowid (t_rows t)) (if uses_autoincrement t then t_sequence t else 0) + 1)%Z.

Fixpoint insert_by_rowid (r : Z * list sqlval) (rows : list (Z * list sqlval))
  : list (Z * list sqlval) :=
  match rows with
  | [] => [r]
  | r' :: rows' =>
  if (r.1 <? r'.1)%Z then r :: rows else r' :: insert_by_rowid r rows'
  end.

Definition sort_by_rowid (rows : list (Z * list sqlval)) : list (Z * list sqlval) :=
  foldr insert_by_rowid [] rows.

(** The value a statement supplies for a table column, NULL if none. *)
Definition supplied (cols : list string) (params : list sqlval) (d : column_def) : sqlval :=
  match find (fun p => ident_eqb p.1 (cd_name d)) (zip cols params) with
  | Some p => p.2
  | None => SNull
  end.

Definition unique_failed (tbl col : string) : exn :=
  Sqlite3Error ("UNIQUE constraint failed: " +:+ tbl +:+ "." +:+ col).

(** The first PRIMARY KEY column, other than a rowid alias, on which the
row [vals] collides with a row of [others]. *)
Fixpoint pk_conflict (defs : list column_def) (i : nat) (vals : list sqlval)
     (others : list (list sqlval)) : option string :=
  match defs with
  | [] => None
  | d :: defs' =>
  if cd_pk d && negb (is_rowid_alias d)
     && existsb (fun o => sql_eqb (nth i o SNull) (nth i vals SNull)) others
  then Some (cd_name d)
  else pk_conflict defs' (S i) vals others
  end.

(** One row goes in: affinity, rowid, constraints. *)
Definition insert_row (tbl : string) (t : table) (cols : list string)
       (params : list sqlval) : result (cursor * table) :=
  let vals := map (fun d => apply_affinity (cd_type d) (supplied cols params d))
              (t_columns t) in
  placed ←
match rowid_alias (t_columns t) with
| None => Ok (next_rowid t, vals)
| Some (i, d) =>
    match nth i vals SNull with
    | SNull => Ok (next_rowid t, <[i := SInt (next_rowid t)]> vals)
    | SInt z =>
        if existsb (fun r => (r.1 =? z)%Z) (t_rows t)
        then Raise (unique_failed tbl (cd_name d))
        else Ok (z, vals)
    | _ => sql_error "datatype mismatch"
    end
end;
  let '(rid, vals) := placed in
  if negb (in_int64 rid) then sql_error "database or disk is full"
  else
match pk_conflict (t_columns t) 0 vals (t_rows t).*2 with
| Some col => Raise (unique_failed tbl col)
| None =>
    Ok ({| rowcount := 1; lastrowid := rid; results := NoRows |},
        {| t_columns := t_columns t;
           t_rows := insert_by_rowid (rid, vals) (t_rows t);
           t_sequence := if uses_autoincrement t
                         then Z.max (t_sequence t) rid else t_sequence t |})
end.

(** Whether the stored value of column [d] at position [i] satisfies
[d = ?] for the parameter [key]. *)
Definition row_matches (i : nat) (d : column_def) (key : sqlval) (r : Z * list sqlval) : bool :=
  sql_eqb (nth i r.2 SNull) (apply_affinity (cd_type d) key).

Definition delete_rows (t : table) (i : nat) (d : column_def) (key : sqlval)
  : cursor * table :=
  let kept := filter (fun r => row_matches i d key r = false) (t_rows t) in
  ({| rowcount := Z.of_nat (length (t_rows t)) - Z.of_nat (length kept);
  lastrowid := 0; results := NoRows |},
   {| t_columns := t_columns t; t_rows := kept; t_sequence := t_sequence t |}).

(** [SET c = v] on one row: affinity, and the rowid follows its alias. *)
Definition assign (r : result (Z * list sqlval)) (cv : nat * column_def * sqlval)
  : result (Z * list sqlval) :=
  '(rid, vals) ← r;
  let '(i, d, v) := cv in
  let v' := apply_affinity (cd_type d) v in
  if is_rowid_alias d then
match v' with
| SInt z => Ok (z, <[i := v']> vals)
| _ => sql_error "datatype mismatch"
end
  else Ok (rid, <[i := v']> vals).

Fixpoint rowid_conflict (rows : list (Z * list sqlval)) : bool :=
  match rows with
  | [] => false
  | r :: rows' => existsb (fun r' => (r'.1 =? r.1)%Z) rows' || rowid_conflict rows'
  end.

Fixpoint rows_pk_conflict (defs : list column_def) (rows : list (list sqlval))
  : option string :=
  match rows with
  | [] => None
  | vals :: rows' =>
  match pk_conflict defs 0 vals rows' with
  | Some col => Some col
  | None => rows_pk_conflict defs rows'
  end
  end.

Definition update_rows (tbl : string) (t : table) (sets : list (nat * column_def * sqlval))
       (wi : nat) (wd : column_def) (key : sqlval) : result (cursor * table) :=
  rows ← map_result
       (fun r => if row_matches wi wd key r then foldl assign (Ok r) sets else Ok r)
       (t_rows t);
  let changed := length (filter (fun r => row_matches wi wd key r = true) (t_rows t)) in
  if rowid_conflict rows
  then Raise (unique_failed tbl
            (match rowid_alias (t_columns t) with
             | Some (_, d) => cd_name d | None => "rowid" end))
  else match rows_pk_conflict (t_columns t) rows.*2 with
   | Some col => Raise (unique_failed tbl col)
   | None =>
       Ok ({| rowcount := Z.of_nat changed; lastrowid := 0; results := NoRows |},
           {| t_columns := t_columns t; t_rows := sort_by_rowid rows;
              t_sequence := t_sequence t |})
   end.

Fixpoint table_info (defs : list column_def) (cid : Z) (pk_seen : Z) : list info_row :=
  match defs with
  | [] => []
  | d :: defs' =>
  {| ti_cid := cid; ti_name := cd_name d; ti_type := type_name (cd_type d);
     ti_notnull := 0; ti_pk := if cd_pk d then pk_seen + 1 else 0 |}
    :: table_info defs' (cid + 1) (if cd_pk d then pk_seen + 1 else pk_seen)
  end.

Fixpoint duplicate_name (defs : list column_def) : option string :=
  match defs with
  | [] => None
  | d :: defs' =>
  if existsb (fun d' => ident_eqb (cd_name d') (cd_name d)) defs'
  then Some (cd_name d) else duplicate_name defs'
  end.

Definition no_such_table {A} (tbl : string) : result A :=
  sql_error ("no such table: " +:+ tbl).
Definition no_such_column {A} (col : string) : result A :=
  sql_error ("no such column: " +:+ col).

Definition resolve (t : table) (col : string) : result (nat * column_def) :=
  match find_column (t_columns t) col with
  | Some found => Ok found
  | None => no_such_column col
  end.

Definition quote : string := String (ascii_of_nat 34) EmptyString.
Definition syntax_error {A} (token : string) : result A :=
  sql_error ("near " +:+ quote +:+ token +:+ quote +:+ ": syntax error").

Definition create_checks (tbl : string) (defs : list column_def) : result unit :=
  if (length defs =? 0)%nat then syntax_error ")"
  else match duplicate_name defs with
   | Some col => sql_error ("duplicate column name: " +:+ col)
   | None =>
       if (1 <? length (filter (fun d => cd_pk d = true) defs))%nat
       then sql_error ("table " +:+ quote +:+ tbl +:+ quote
                       +:+ " has more than one primary key")
       else if existsb (fun d => cd_autoincrement d && negb (is_rowid_alias d)) defs
       then sql_error "AUTOINCREMENT is only allowed on an INTEGER PRIMARY KEY"
       else Ok ()
   end.

Definition insert_checks (tbl : string) (t : table) (cols : list string) : result unit :=
  if (length cols =? 0)%nat then syntax_error ")"
  else match find (fun c => negb (has_column t c)) cols with
   | Some c => sql_error ("table " +:+ tbl +:+ " has no column named " +:+ c)
   | None => Ok ()
   end.

(** Compiling a statement: its syntax, and every name it mentions is
resolved against the schema. *)
Definition prepare (sql : statement) (db : database) : result unit :=
  match sql with
  | CreateTableIfNotExists tbl defs =>
  match db !! tbl with
  | Some _ => Ok ()
  | None => create_checks tbl defs
  end
  | InsertInto tbl cols =>
  match db !! tbl with
  | None => no_such_table tbl
  | Some t => insert_checks tbl t cols
  end
  | SelectAll tbl =>
  match db !! tbl with
  | None => no_such_table tbl
  | Some _ => Ok ()
  end
  | UpdateWhere tbl set_cols where_col =>
  match db !! tbl with
  | None => no_such_table tbl
  | Some t => _ ← map_result (resolve t) set_cols; _ ← resolve t where_col; Ok ()
  end
  | DeleteWhere tbl where_col =>
  match db !! tbl with
  | None => no_such_table tbl
  | Some t => _ ← resolve t where_col; Ok ()
  end
  | PragmaTableInfo _ => Ok ()
  end.

(** The number of [?] in a statement. *)
Definition placeholders (sql : statement) : nat :=
  match sql with
  | InsertInto _ cols => length cols
  | UpdateWhere _ set_cols _ => S (length set_cols)
  | DeleteWhere _ _ => 1
  | _ => 0
  end.

Definition finished : cursor := {| rowcount := -1; lastrowid := 0; results := NoRows |}.

(** Running a compiled statement on its bound parameters. *)
Definition run (sql : statement) (params : list sqlval) (db : database)
  : result (cursor * database) :=
  _ ← prepare sql db;
  match sql with
  | CreateTableIfNotExists tbl defs =>
  match db !! tbl with
  | Some _ => Ok (finished, db)
  | None =>
      Ok (finished, <[tbl := {| t_columns := defs; t_rows := []; t_sequence := 0 |}]> db)
  end
  | InsertInto tbl cols =>
  match db !! tbl with
  | None => no_such_table tbl
  | Some t => '(cur, t') ← insert_row tbl t cols params; Ok (cur, <[tbl := t']> db)
  end
  | SelectAll tbl =>
  match db !! tbl with
  | None => no_such_table tbl
  | Some t =>
      Ok ({| rowcount := -1; lastrowid := 0;
             results := DataRows (map cd_name (t_columns t)) (t_rows t).*2 |}, db)
  end
  | UpdateWhere tbl set_cols where_col =>
  match db !! tbl with
  | None => no_such_table tbl
  | Some t =>
      targets ← map_result (resolve t) set_cols;
      '(wi, wd) ← resolve t where_col;
      '(cur, t') ← update_rows tbl t (zip targets (take (length set_cols) params))
                               wi wd (nth (length set_cols) params SNull);
      Ok (cur, <[tbl := t']> db)
  end
  | DeleteWhere tbl where_col =>
  match db !! tbl with
  | None => no_such_table tbl
  | Some t =>
      '(wi, wd) ← resolve t where_col;
      let '(cur, t') := delete_rows t wi wd (nth 0 params SNull) in
      Ok (cur, <[tbl := t']> db)
  end
  | PragmaTableInfo tbl =>
  Ok ({| rowcount := -1; lastrowid := 0;
         results := InfoRows (match db !! tbl with
                              | Some t => table_info (t_columns t) 0 0
                              | None => []
                              end) |}, db)
  end.

(** *** The driver: connections, parameter binding, cursors *)

(** A connection sees the committed tables and works on its own copy
until it commits; [journal] lists the statements it was handed.  (The
driver opens the transaction before the first INSERT, UPDATE or DELETE;
no call of the adapter sends CREATE TABLE after one of those, so the
copy gives the tables the engine would.) *)
Record connection : Type :=
  { committed : database;
working : database;
journal : list (statement * list cell) }.

Definition Conn (A : Type) : Type := connection → result A * connection.

#[export] Instance Conn_ret : MRet Conn := fun A a conn => (Ok a, conn).
#[export] Instance Conn_bind : MBind Conn := fun A B f m conn =>
  match m conn with
  | (Ok a, conn') => f a conn'
  | (Raise e, conn') => (Raise e, conn')
  end.

(** A plain computation inside a [with] block *)
Definition lift {A} (r : result A) : Conn A := fun conn => (r, conn).

(** How the driver hands a Python object to the engine. *)
Definition bind_param (v : cell) : result sqlval :=
  match v with
  | PInt z =>
  if in_int64 z then Ok (SInt z)
  else Raise (OverflowError "Python int too large to convert to SQLite INTEGER")
  | PFloat q => Ok (SReal q)
  | PStr s => Ok (SText s)
  | PNA => Ok SNull
  | PTimestamp _ =>
  sql_error "Error binding parameter: type 'Timestamp' is not supported"
  end.

Definition bind_params (sql : statement) (params : list cell) : result (list sqlval) :=
  if (length params =? placeholders sql)%nat then map_result bind_param params
  else sql_error "Incorrect number of bindings supplied".

(** Compile against the working copy, bind, run. *)
Definition compile_bind_run (sql : statement) (params : list cell) (db : database)
  : result (cursor * database) :=
  _ ← prepare sql db;
  values ← bind_params sql params;
  run sql values db.

Definition record (sql : statement) (params : list cell) (conn : connection) : connection :=
  {| committed := committed conn; working := working conn;
 journal := journal conn ++ [(sql, params)] |}.

(** [conn.execute(sql, params)]; a statement that fails leaves the
working copy as it was. *)
Definition execute (sql : statement) (params : list cell) : Conn cursor := fun conn =>
  let conn := record sql params conn in
  match compile_bind_run sql params (working conn) with
  | Ok (cur, db') =>
  (Ok cur, {| committed := committed conn; working := db'; journal := journal conn |})
  | Raise e => (Raise e, conn)
  end.

(** [conn.executemany(sql, seq_of_params)]: the rows one after the other,
up to the first that fails. *)
Fixpoint executemany (sql : statement) (seq_of_params : list (list cell)) : Conn unit :=
  match seq_of_params with
  | [] => mret ()
  | params :: rest => _ ← execute sql params; executemany sql rest
  end.

End Engine.

End Sqlite3.

Export Sqlite3.

(* ===================================================================== *)
(** ** src/db_manager.py                                                  *)
(* ===================================================================== *)

Module DbManager.

(** [self.db_path], [self.table_name] *)
Record DatabaseManager : Type := { db_path : string; table_name : string }.

(** What outlives a call: the tables of the database file, and every
  statement the adapter has handed to the engine so far. *)
Record store : Type :=
{ tables : database; statements : list (statement * list cell) }.

(** A record dictionary: keys in insertion order, each at most once. *)
Abbreviation dict := (list (string * cell)).

Definition keys (data : dict) : list string := data.*1.

(** [data[col]] *)
Definition dict_getitem (data : dict) (col : string) : result cell :=
match find (fun kv => String.eqb kv.1 col) data with
| Some kv => Ok kv.2
| None => Raise (KeyError col)
end.

(** The DataFrame that [pd.read_sql_query] builds, kept as the fetched
  column names and rows. *)
Record QueryFrame : Type := { qf_columns : list string; qf_rows : list (list sqlval) }.

(** [sqlite3.connect(":memory:")] and [connect] on the empty path open a private
  database that is gone when the connection closes. *)
Definition transient (path : string) : bool :=
String.eqb path ":memory:" || String.eqb path EmptyString.

Definition Op (A : Type) : Type := store → result A * store.

Section Adapter.
Context `{Coercions}.
Variable self : DatabaseManager.

(** [sqlite3.connect(self.db_path)] *)
Definition connect (st : store) : connection :=
  let db := if transient (db_path self) then ∅ else tables st in
  {| committed := db; working := db; journal := statements st |}.

Definition commit (conn : connection) : connection :=
  {| committed := working conn; working := working conn; journal := journal conn |}.

Definition rollback (conn : connection) : connection :=
  {| committed := committed conn; working := committed conn; journal := journal conn |}.

(** [conn.close()]: what was not committed is dropped. *)
Definition close (st : store) (conn : connection) : store :=
  {| tables := if transient (db_path self) then tables st else committed conn;
 statements := journal conn |}.

(** The context manager: the body runs at the [yield]. *)
Definition get_connection {A} (body : Conn A) : Op A := fun st =>
  let conn := connect st in
  match body conn with
  | (Ok a, conn) => (Ok a, close st (commit conn))
  | (Raise (Sqlite3Error e), conn) =>
  (Raise (DatabaseError ("Database operation failed: " +:+ e)),
   close st (rollback conn))
  | (Raise e, conn) => (Raise e, close st conn)
  end.

(** [try: ... except sqlite3.Error as e: raise DatabaseError(f"{prefix}{e}")] *)
Definition except_sqlite3 {A} (prefix : string) (op : Op A) : Op A := fun st =>
  match op st with
  | (Raise (Sqlite3Error e), st') => (Raise (DatabaseError (prefix +:+ e)), st')
  | outcome => outcome
  end.

Definition _map_type_to_sqlite (python_type : string) : sqlite_type :=
  if String.eqb python_type "int" then INTEGER
  else if String.eqb python_type "float" then REAL
  else if String.eqb python_type "str" then TEXT
  else if String.eqb python_type "date" then TEXT
  else TEXT.

(** One entry of [col_defs]. *)
Definition col_def (schema : Schema) (col : string) : column_def :=
  let col_type := _map_type_to_sqlite (default "str" (types schema !! col)) in
  if decide (col = primary_key schema) then
if decide (primary_key schema = "id") then
  {| cd_name := col; cd_type := INTEGER; cd_pk := true; cd_autoincrement := true |}
else
  {| cd_name := col; cd_type := col_type; cd_pk := true; cd_autoincrement := false |}
  else
{| cd_name := col; cd_type := col_type; cd_pk := false; cd_autoincrement := false |}.

Definition create_table (schema : Schema) : Op unit :=
  let col_defs := map (col_def schema) (columns schema) in
  let create_sql := CreateTableIfNotExists (table_name self) col_defs in
  except_sqlite3 "Failed to create table: "
(get_connection (_ ← execute create_sql []; mret ())).

(** The value appended to [values] for one cell. *)
Definition insert_value (val : cell) : cell :=
  if isna val then PNA
  else match val with
   | PTimestamp iso => PStr iso
   | _ => val
   end.

Definition insert_columns (df : DataFrame string) (schema : Schema) : list string :=
  if bool_decide (primary_key schema = "id") && negb (bool_decide ("id" ∈ df_columns df))
  then filter (fun col => col ≠ "id") (df_columns df)
  else df_columns df.

Definition insert_data (df : DataFrame string) (schema : Schema) : Op unit :=
  let insert_columns := insert_columns df schema in
  let insert_sql := InsertInto (table_name self) insert_columns in
  except_sqlite3 "Failed to insert data: "
(get_connection
   (data_to_insert ←
      lift (map_result
              (fun row =>
                 map_result (fun col => val ← row_getitem row col; Ok (insert_value val))
                            insert_columns)
              (iterrows df));
    executemany insert_sql data_to_insert)).

Definition create_record (data : dict) : Op Z :=
  let columns := keys data in
  let insert_sql := InsertInto (table_name self) columns in
  except_sqlite3 "Failed to create record: "
(get_connection
   (values ← lift (map_result (dict_getitem data) columns);
    cursor ← execute insert_sql values;
    mret (lastrowid cursor))).

Definition select_text (tbl : string) : string := "SELECT * FROM " +:+ tbl.

(** [pd.read_sql_query(f"SELECT * FROM {tbl}", conn)]: pandas runs the
query on a cursor of its own; when that raises it rolls the connection
back and raises its own [pandas.errors.DatabaseError]. *)
Definition read_sql_query (tbl : string) : Conn QueryFrame := fun conn =>
  match execute (SelectAll tbl) [] conn with
  | (Ok cur, conn) =>
  match results cur with
  | DataRows names rows => (Ok {| qf_columns := names; qf_rows := rows |}, conn)
  | _ => (Raise (TypeError "'NoneType' object is not iterable"), conn)
  end
  | (Raise e, conn) =>
  (Raise (PandasDatabaseError
            ("Execution failed on sql '" +:+ select_text tbl +:+ "': " +:+ exn_str e)),
   rollback conn)
  end.

Definition read_all : Op QueryFrame :=
  except_sqlite3 "Failed to read records: "
(get_connection (read_sql_query (table_name self))).

(** [primary_key = "id" if "id" in data else list(data.keys())[0]] *)
Definition update_primary_key (data : dict) : result string :=
  if bool_decide ("id" ∈ keys data) then Ok "id"
  else match keys data with
   | first :: _ => Ok first
   | [] => Raise (IndexError "list index out of range")
   end.

Definition update_record (record_id : cell) (data : dict) : Op unit := fun st =>
  match update_primary_key data with
  | Raise e => (Raise e, st)
  | Ok primary_key =>
  let set_clauses := filter (fun col => col ≠ primary_key) (keys data) in
  match set_clauses with
  | [] => (Ok (), st)
  | _ =>
      let update_sql := UpdateWhere (table_name self) set_clauses primary_key in
      except_sqlite3 "Failed to update record: "
        (get_connection
           (values ← lift (map_result (dict_getitem data)
                             (filter (fun col => col ≠ primary_key) (keys data)));
            _ ← execute update_sql (values ++ [record_id]);
            mret ())) st
  end
  end.

(** [next((row[1] for row in table_info if row[5] == 1), table_info[0][1])] *)
Definition pk_column (first : info_row) (table_info : list info_row) : string :=
  match find (fun row => (ti_pk row =? 1)%Z) table_info with
  | Some row => ti_name row
  | None => ti_name first
  end.

Definition delete_record (record_id : cell) : Op unit :=
  let delete_sql := DeleteWhere (table_name self) "id" in
  except_sqlite3 "Failed to delete record: "
(get_connection
   (cursor ← execute delete_sql [record_id];
    if (rowcount cursor =? 0)%Z then
      cursor ← execute (PragmaTableInfo (table_name self)) [];
      match results cursor with
      | InfoRows (first :: rest) =>
          let pk_col := pk_column first (first :: rest) in
          let delete_sql := DeleteWhere (table_name self) pk_col in
          _ ← execute delete_sql [record_id];
          mret ()
      | _ => mret ()
      end
    else mret ())).

End Adapter.

End DbManager.

Export DbManager.


(* ===================================================================== *)
(** ** app.py                                                             *)
(* ===================================================================== *)

Module App.

Definition MAX_FILE_SIZE : Z := 50 * 1024 * 1024.
Definition MAX_ROWS : Z := 10000.
Definition SUPPORTED_EXTENSIONS : list string := [".xlsx"; ".xls"].

(** *** The part of pathlib that [validate_file] calls (POSIX paths) *)

(** The components of a path: the runs between slashes. *)
Fixpoint components (s : string) : list string :=
  match s with
  | EmptyString => [EmptyString]
  | String c s' =>
      if Ascii.eqb c "/" then EmptyString :: components s'
      else match components s' with
           | first :: rest => String c first :: rest
           | [] => [String c EmptyString]
           end
  end.

(** [Path(p).name]: the last component, empty components and [.] left
    out; the empty string when there is none. *)
Definition path_name (p : string) : string :=
  List.last (filter (fun c => c ≠ EmptyString ∧ c ≠ ".") (components p)) EmptyString.

(** [s.rfind(".")], [None] for -1 *)
Fixpoint rfind_dot (s : string) : option nat :=
  match s with
  | EmptyString => None
  | String c s' =>
      match rfind_dot s' with
      | Some i => Some (S i)
      | None => if Ascii.eqb c "." then Some 0%nat else None
      end
  end.

(** [Path(p).suffix]: the last component from its last dot on, when that
    dot is neither its first nor its last character (pathlib up to
    Python 3.13). *)
Definition suffix (p : string) : string :=
  let name := path_name p in
  match rfind_dot name with
  | Some i =>
      if (0 <? i)%nat && (i <? String.length name - 1)%nat
      then substring i (String.length name - i) name
      else EmptyString
  | None => EmptyString
  end.

(** [c.lower()] on the code points below 256 *)
Definition lower_char (c : ascii) : ascii :=
  let n := code c in
  if between 65 90 n || between 192 214 n || between 216 222 n
  then ascii_of_N (n + 32) else c.

(** [s.lower()] *)
Definition str_lower (s : string) : string := map_chars lower_char s.

(** What [validate_file] reads of the uploaded file. *)
Record UploadedFile : Type := { name : string; size : Z }.

Definition validate_file (uploaded_file : option UploadedFile) : bool * option string :=
  match uploaded_file with
  | None => (false, None)
  | Some uploaded_file =>
      let file_ext := str_lower (suffix (name uploaded_file)) in
      if negb (bool_decide (file_ext ∈ SUPPORTED_EXTENSIONS)) then
        (false, Some ("Unsupported file format. Only "
                      +:+ String.concat ", " SUPPORTED_EXTENSIONS
                      +:+ " files are supported."))
      else if (MAX_FILE_SIZE <? size uploaded_file)%Z then
        (false, Some ("File exceeds " +:+ str_of_Z (MAX_FILE_SIZE / (1024 * 1024))
                      +:+ "MB limit. Please use a smaller file."))
      else (true, None)
  end.

Section Process.
Context `{Coercions}.

(** [pd.to_datetime] and [pd.read_excel], as in [SchemaDetector]. *)
Variable to_datetime : Series → result unit.
Variable read_excel : string → result (DataFrame label).

(** [", ".join(insert_columns)] needs every label to be a [str]; Python's
    message goes on with the position and the type it found. *)
Definition str_labels (labels : list label) : result (list string) :=
  map_result (fun l => match l with
                       | LStr s => Ok s
                       | LOther _ => Raise (TypeError "sequence item: expected str instance")
                       end) labels.

(** [db_manager.insert_data(df, schema)] on the dataset as [pd.read_excel]
    returns it, under its own labels. *)
Definition insert_data_as_read (db_manager : DatabaseManager) (df : DataFrame label)
           (schema : Schema) : Op unit := fun st =>
  match str_labels (df_columns df) with
  | Ok labels =>
      insert_data db_manager
        {| df_columns := labels; df_data := df_data df; df_len := df_len df |} schema st
  | Raise e => (Raise e, st)
  end.

(** The inner [try] block of [process_excel_file], on the temporary copy
    of the upload. *)
Definition process_excel_file_body (tmp_path : string)
  : Op (option Schema * option string) := fun st =>
  match detect_schema to_datetime read_excel tmp_path with
  | Raise e => (Raise e, st)
  | Ok schema =>
      match read_excel tmp_path with
      | Raise e => (Raise e, st)
      | Ok df =>
          if (MAX_ROWS <? Z.of_nat (df_len df))%Z then
            (Ok (None, Some ("Sheet exceeds " +:+ str_of_Z MAX_ROWS
                             +:+ " row limit. Please use a smaller dataset for MVP.")), st)
          else
            let db_manager := {| db_path := "data.db"; table_name := "data" |} in
            match create_table db_manager schema st with
            | (Raise e, st) => (Raise e, st)
            | (Ok _, st) =>
                match insert_data_as_read db_manager df schema st with
                | (Raise e, st) => (Raise e, st)
                | (Ok _, st) => (Ok (Some schema, None), st)
                end
            end
      end
  end.

(** [process_excel_file]; [tmp_file] is the outcome of writing the upload
    to a temporary file: its path, or what that raised.  The function
    returns the pair (schema, error message) and never raises. *)
Definition process_excel_file (tmp_file : result string)
  : store → (option Schema * option string) * store := fun st =>
  let outcome :=
    match tmp_file with
    | Ok tmp_path => process_excel_file_body tmp_path st
    | Raise e => (Raise e, st)
    end in
  match outcome with
  | (Ok returned, st) => (returned, st)
  | (Raise (SchemaDetectionError msg), st) => ((None, Some msg), st)
  | (Raise (EmptyDataError _), st) =>
      ((None, Some "Excel file is empty or contains no data."), st)
  | (Raise (ParserError msg), st) =>
      ((None, Some ("Error parsing Excel file: " +:+ msg)), st)
  | (Raise e, st) =>
      ((None, Some ("Unexpected error processing file: " +:+ exn_str e)), st)
  end.

End Process.

End App.

(* ===================================================================== *)
(** ** Vocabulary of the properties                                       *)
(* ===================================================================== *)

Fixpoint all_chars (P : ascii → bool) (s : string) : bool :=
  match s with
  | EmptyString => true
  | String c s' => P c && all_chars P s'
  end.

Definition identifier_char (c : ascii) : bool := isalnum c || Ascii.eqb c "_".

(** What [clean_column_name] returns: a non-empty run of identifier
    characters that does not start with a digit. *)
Definition is_clean (s : string) : Prop :=
  all_chars identifier_char s = true
  ∧ match s with String c _ => isdigit c = false | EmptyString => False end.

(** A present number without fractional part. *)
Definition zero_fraction (c : cell) : bool :=
  match c with
  | PInt _ => true
  | PFloat q => is_integral q
  | _ => false
  end.

Definition is_number (c : cell) : bool :=
  match c with PInt _ | PFloat _ => true | _ => false end.

(** The non-missing values of a column. *)
Definition present (s : Series) : list cell := values (dropna s).

(** No two of the values are equal. *)
Fixpoint all_distinct (l : list cell) : bool :=
  match l with
  | [] => true
  | c :: l' => negb (existsb (cell_eqb c) l') && all_distinct l'
  end.

(** The column labelled [col] has at least one non-missing value and its
    non-missing values are all distinct. *)
Definition qualifies (df : DataFrame string) (col : string) : bool :=
  match select_columns df col with
  | [s] => (0 <? length (present s))%nat && all_distinct (present s)
  | _ => false
  end.

(** The primary key as the specification words it: the first qualifying
    column in declaration order, the synthetic key otherwise. *)
Definition select_spec (df : DataFrame string) (columns : list string) : string :=
  match find (qualifies df) columns with
  | Some col => col
  | None => "id"
  end.

(** The invariant of a schema descriptor. *)
Definition schema_invariant (schema : Schema) : Prop :=
  (∀ col, col ∈ columns schema → is_Some (types schema !! col))
  ∧ (primary_key schema = "id" ∨ primary_key schema ∈ columns schema).

(** The labels [detect_schema] works with, before they are cleaned. *)
Definition effective_labels (df : DataFrame label) : list label :=
  match df_columns df with
  | LStr first :: _ =>
      if String.prefix "Unnamed" first
      then map (fun i => LStr ("Column" +:+ str_of_nat (i + 1))) (seq 0 (length (df_columns df)))
      else df_columns df
  | _ => df_columns df
  end.

(** [pd.to_datetime] raises nothing but what [is_date_column] catches. *)
Definition parser_raises_value_or_type (to_datetime : Series → result unit) : Prop :=
  ∀ s e, to_datetime s = Raise e → (∃ m, e = ValueError m) ∨ (∃ m, e = TypeError m).

(** *** A concrete engine for the runs on explicit inputs

    Plain decimal notation: a REAL prints as its integer part, a point and
    up to fifteen decimals without trailing zeros; a text denotes a number
    when it is an optionally signed run of digits, with an optional point
    and further digits. *)

Fixpoint decimals (fuel : nat) (r d : Z) : string :=
  match fuel with
  | O => EmptyString
  | S fuel' =>
      if (r =? 0)%Z then EmptyString
      else str_of_Z (10 * r / d) +:+ decimals fuel' (10 * r mod d) d
  end.

Definition decimal_of_real (q : Q) : string :=
  let n := Z.abs (Qnum q) in
  let d := Zpos (Qden q) in
  let frac := decimals 15 (n mod d) d in
  (if (Qnum q <? 0)%Z then "-" else EmptyString)
  +:+ str_of_Z (n / d) +:+ "." +:+ (if String.eqb frac EmptyString then "0" else frac).

Fixpoint digits_value (s : string) (acc : Z) : option Z :=
  match s with
  | EmptyString => Some acc
  | String c s' =>
      if between 48 57 (code c)
      then digits_value s' (10 * acc + Z.of_N (code c - 48))
      else None
  end.

Fixpoint split_point (s : string) : string * option string :=
  match s with
  | EmptyString => (EmptyString, None)
  | String c s' =>
      if Ascii.eqb c "." then (EmptyString, Some s')
      else let '(whole, frac) := split_point s' in (String c whole, frac)
  end.

Definition number_of_decimal (s : string) : option (Z + Q) :=
  let '(negative, body) :=
    match s with
    | String "-" s' => (true, s')
    | _ => (false, s)
    end in
  let sign := if negative then (-1)%Z else 1%Z in
  match split_point body with
  | (EmptyString, _) => None
  | (whole, None) => w ← digits_value whole 0; Some (inl (sign * w)%Z)
  | (whole, Some frac) =>
      w ← digits_value whole 0;
      f ← digits_value frac 0;
      Some (inr (Qmake (sign * (w * 10 ^ Z.of_nat (String.length frac) + f))
                       (Z.to_pos (10 ^ Z.of_nat (String.length frac)))))
  end.

Definition decimal_engine : Coercions :=
  {| real_to_text := decimal_of_real; text_to_number := number_of_decimal |}.

(** *** Vocabulary of the round trip *)

(** The stored form of a source value: a timestamp as its ISO-8601 text, a
    missing value as NULL, any other value as it is. *)
Definition stored (c : cell) : sqlval :=
  match c with
  | PInt z => SInt z
  | PFloat q => SReal q
  | PStr s => SText s
  | PTimestamp iso => SText iso
  | PNA => SNull
  end.

(** The rows of a dataset, in order. *)
Definition source_rows {L} (df : DataFrame L) : list (list cell) :=
  map (row_cells df) (seq 0 (df_len df)).

(** The dataset as [detect_schema] relabels it. *)
Definition relabelled (df : DataFrame label) : DataFrame string :=
  {| df_columns := map clean_column_name (effective_labels df);
     df_data := df_data df; df_len := df_len df |}.

(** A cell of the kind its column announces; an object column holds text. *)
Definition typed_cell (d : Dtype) (c : cell) : bool :=
  cell_fits d c
  && match d, c with
     | Object, (PStr _ | PNA) => true
     | Object, _ => false
     | _, _ => true
     end.

Definition typed_series (s : Series) : bool := forallb (typed_cell (dtype s)) (values s).

(** Labels that stay distinct as SQL identifiers. *)
Definition sql_distinct (labels : list string) : Prop :=
  NoDup (map (map_chars lower) labels).

(** A row keeps its values on the way into the columns [defs]. *)
Definition fits `{Coercions} (defs : list column_def) (vals : list sqlval) : Prop :=
  Forall2 (fun d v => apply_affinity (cd_type d) v = v) defs vals.

(** The rows [vs], inserted in this order, never collide on a key: the
    rowid alias holds a fresh 64-bit integer, every other PRIMARY KEY column
    a value that equals none before it. *)
Definition keys_distinct (defs : list column_def) (vs : list (list sqlval)) : Prop :=
  ∀ m k o v, (m < k)%nat → vs !! m = Some o → vs !! k = Some v →
    (∀ i d, rowid_alias defs = Some (i, d) → nth i o SNull ≠ nth i v SNull)
    ∧ (∀ j d, defs !! j = Some d → cd_pk d = true → is_rowid_alias d = false →
              sql_eqb (nth j o SNull) (nth j v SNull) = false).

Definition alias_is_integer (defs : list column_def) (vs : list (list sqlval)) : Prop :=
  ∀ i d v, rowid_alias defs = Some (i, d) → v ∈ vs →
           ∃ z, nth i v SNull = SInt z ∧ in_int64 z = true.

(** What the table holds after the rows [vs] went in, in this order. *)
Definition holds (defs : list column_def) (rows : list (Z * list sqlval))
           (vs : list (list sqlval)) : Prop :=
  rows.*2 ≡ₚ vs
  ∧ (∀ i d, rowid_alias defs = Some (i, d) → ∀ r, r ∈ rows → nth i r.2 SNull = SInt r.1)
  ∧ (rowid_alias defs = None → (0 ≤ max_rowid rows ≤ Z.of_nat (length vs))%Z).

(** *** Vocabulary of the failure path *)

(** A [with] body that leaves the committed tables alone. *)
Definition keeps_committed {A} (body : Conn A) : Prop :=
  ∀ conn, committed (body conn).2 = committed conn.

(** An adapter call that fails cleanly: whatever it raises, the tables are
    as they were before the call, and what it raises is never the bare
    engine error. *)
Definition fails_cleanly {A} (op : Op A) : Prop :=
  ∀ st e st', op st = (Raise e, st') →
    tables st' = tables st ∧ ∀ msg, e ≠ Sqlite3Error msg.

(** *** Vocabulary of the adapter's invariants *)

(** The table a statement names. *)
Definition statement_table (sql : statement) : string :=
  match sql with
  | CreateTableIfNotExists tbl _ | InsertInto tbl _ | SelectAll tbl
  | UpdateWhere tbl _ _ | DeleteWhere tbl _ | PragmaTableInfo tbl => tbl
  end.

(** From [db] to [db'] no table but [tbl] has changed, and [tbl], if it
    was there, is still there with the columns it was declared with. *)
Definition only_touches (tbl : string) (db db' : database) : Prop :=
  (∀ other, other ≠ tbl → db' !! other = db !! other)
  ∧ (∀ t, db !! tbl = Some t → ∃ t', db' !! tbl = Some t' ∧ t_columns t' = t_columns t).

(** A [with] body that stays within [tbl]. *)
Definition confined (tbl : string) {A} (body : Conn A) : Prop :=
  ∀ conn, only_touches tbl (committed conn) (working conn) →
          committed (body conn).2 = committed conn
          ∧ only_touches tbl (committed conn) (working (body conn).2).

(** The rows of a relation, none when it does not exist. *)
Definition rows_of (tbl : string) (db : database) : list (Z * list sqlval) :=
  match db !! tbl with
  | Some t => t_rows t
  | None => []
  end.

(** A failure of the engine or of its driver. *)
Definition engine_failure (e : exn) : Prop :=
  match e with
  | Sqlite3Error _ | OverflowError _ => True
  | _ => False
  end.

(** An adapter call whose every [DatabaseError] reads
    [Database operation failed: ...]. *)
Definition one_prefix {A} (op : Op A) : Prop :=
  ∀ st msg, (op st).1 = Raise (DatabaseError msg) →
            ∃ engine_msg, msg = "Database operation failed: " +:+ engine_msg.

(** A [with] body out of which no [DatabaseError] comes. *)
Definition raises_none {A} (body : Conn A) : Prop :=
  ∀ conn msg, (body conn).1 ≠ Raise (DatabaseError msg).

(** *** Vocabulary of the upload *)

(** An exception for which [process_excel_file] has no handler of its own:
    it is reported as an unexpected error. *)
Definition unexpected (e : exn) : Prop :=
  match e with
  | SchemaDetectionError _ | EmptyDataError _ | ParserError _ => False
  | _ => True
  end.

(** A header cell that needs no cleaning: a string that is an identifier
    already. *)
Definition clean_label (l : label) : Prop :=
  match l with
  | LStr s => is_clean s
  | LOther _ => False
  end.

(** The adapter that [process_excel_file] builds. *)
Definition upload_manager : DatabaseManager := {| db_path := "data.db"; table_name := "data" |}.

(** [SET c = v] on the values of a row whose rowid no assignment moves. *)
Definition assign_value `{Coercions} (vals : list sqlval) (cv : nat * column_def * sqlval)
  : list sqlval :=
  <[cv.1.1 := apply_affinity (cd_type cv.1.2) cv.2]> vals.

(* ===================================================================== *)
(** ** Verified properties                                                *)
(* ===================================================================== *)

Lemma identifier_char_not_space c : identifier_char c = true → isspace c = false.
Proof. destruct c as [[] [] [] [] [] [] [] []]; vm_compute; congruence. Qed.

Lemma lstrip_id s : all_chars (fun c => negb (isspace c)) s = true → lstrip s = s.
Proof.
  destruct s as [|c s]; simpl; [done|].
  intros [Hc _]%andb_prop. by destruct (isspace c).
Qed.

Lemma rstrip_id s : all_chars (fun c => negb (isspace c)) s = true → rstrip s = s.
Proof.
  induction s as [|c s IH]; simpl; [done|].
  intros [Hc Hs]%andb_prop. rewrite (IH Hs).
  destruct s; [|done]. by destruct (isspace c).
Qed.

Lemma all_chars_impl (P Q : ascii → bool) s :
  (∀ c, P c = true → Q c = true) → all_chars P s = true → all_chars Q s = true.
Proof.
  intros HPQ. induction s as [|c s IH]; simpl; [done|].
  intros [Hc Hs]%andb_prop. rewrite (HPQ _ Hc), (IH Hs). done.
Qed.

Lemma map_chars_id (f : ascii → ascii) (P : ascii → bool) s :
  (∀ c, P c = true → f c = c) → all_chars P s = true → map_chars f s = s.
Proof.
  intros Hf. induction s as [|c s IH]; simpl; [done|].
  intros [Hc Hs]%andb_prop. by rewrite (Hf _ Hc), (IH Hs).
Qed.

Lemma all_chars_map_chars (f : ascii → ascii) (P : ascii → bool) s :
  (∀ c, P (f c) = true) → all_chars P (map_chars f s) = true.
Proof. intros Hf. induction s as [|c s IH]; simpl; [done|]. by rewrite Hf, IH. Qed.

Lemma all_chars_app P s t : all_chars P (s +:+ t) = all_chars P s && all_chars P t.
Proof. induction s as [|c s IH]; simpl; [done|]. by rewrite IH, andb_assoc. Qed.

Lemma clean_column_name_is_clean name : is_clean (clean_column_name name).
Proof.
  unfold clean_column_name.
  set (s := map_chars _ (replace_space _)).
  assert (Hs : all_chars identifier_char s = true).
  { apply all_chars_map_chars. intros c. unfold identifier_char.
    destruct (isalnum c || Ascii.eqb c "_") eqn:E; [done|]. reflexivity. }
  destruct s as [|c s]; [by split|].
  destruct (isdigit c) eqn:Hd.
  - split; [|done]. change (all_chars identifier_char ("col_" +:+ String c s) = true).
    rewrite all_chars_app, Hs. done.
  - split; [done|done].
Qed.

Lemma clean_column_name_fixes_clean s : is_clean s → clean_column_name (LStr s) = s.
Proof.
  intros [Hall Hfirst]. unfold clean_column_name, strip, replace_space. simpl py_str.
  assert (Hns : all_chars (fun c => negb (isspace c)) s = true).
  { eapply all_chars_impl; [|exact Hall]. intros c Hc.
    by rewrite (identifier_char_not_space c Hc). }
  rewrite (lstrip_id s Hns), (rstrip_id s Hns).
  rewrite (map_chars_id _ identifier_char s); [|  |done].
  2:{ intros c Hc. destruct (Ascii.eqb_spec c " ") as [->|]; [|done].
      by vm_compute in Hc. }
  rewrite (map_chars_id _ identifier_char s); [| |done].
  2:{ intros c Hc. unfold identifier_char in Hc. by rewrite Hc. }
  destruct s as [|c s]; [done|]. by rewrite Hfirst.
Qed.

(** C4: [clean_column_name] is total (the embedding has no raising step and
    returns a string on every label) and idempotent on every input, with the
    three values the specification lists. *)
Theorem clean_column_name_total_idempotent :
  (∀ x : label, ∃ s : string, clean_column_name x = s)
  ∧ (∀ x : label, clean_column_name (LStr (clean_column_name x)) = clean_column_name x)
  ∧ clean_column_name (LStr "123abc") = "col_123abc"
  ∧ clean_column_name (LStr EmptyString) = "Column_A"
  ∧ clean_column_name (LStr "A B@C") = "A_B_C".
Proof.
  split; [by eauto|]. split; [|by vm_compute].
  intros x. apply clean_column_name_fixes_clean, clean_column_name_is_clean.
Qed.

Section SchemaFacts.
Variable to_datetime : Series → result unit.

Lemma dropna_dtype s : dtype (dropna s) = dtype s.
Proof. done. Qed.

Lemma existsb_notna_present s :
  existsb notna (values s) = (0 <? length (present s))%nat.
Proof.
  unfold present, dropna; simpl. induction (values s) as [|c l IH]; [done|].
  simpl. rewrite filter_cons. destruct (notna c) eqn:Hc; simpl.
  - done.
  - exact IH.
Qed.

Lemma forallb_isna_present s :
  forallb isna (values s) = (length (present s) =? 0)%nat.
Proof.
  unfold present, dropna; simpl. induction (values s) as [|c l IH]; [done|].
  simpl. rewrite filter_cons. unfold notna. destruct (isna c) eqn:Hc; simpl.
  - exact IH.
  - done.
Qed.

(** The type of a column that is a single Series, by cases on its dtype. *)
Lemma infer_column_type_series (df : DataFrame string) col s :
  getitem df col = Ok (SelSeries s) →
  (0 < length (present s))%nat →
  infer_column_type to_datetime df col =
    match dtype s with
    | Datetime64 => Ok "date"
    | Int64 => Ok "int"
    | Float64 => Ok "float"
    | Object =>
        is_date ← is_date_column to_datetime (dropna s);
        if (is_date : bool) then Ok "date" else Ok "str"
    end.
Proof.
  intros Hsel Hpos. unfold infer_column_type. rewrite Hsel. simpl.
  rewrite forallb_isna_present.
  destruct (Nat.eqb_spec (length (present s)) 0) as [E|_]; [lia|].
  unfold is_datetime64_any_dtype, is_integer_dtype, is_float_dtype, len.
  rewrite dropna_dtype. fold (present s).
  destruct (Nat.eqb_spec (length (present s)) 0) as [E|_]; [lia|].
  by destruct (dtype s).
Qed.

Lemma series_wf_present s c :
  series_wf s = true → c ∈ present s → cell_fits (dtype s) c = true ∧ isna c = false.
Proof.
  unfold series_wf, present, dropna; simpl. intros Hwf Hc.
  apply list_elem_of_filter in Hc as [Hn Hc]. split.
  - rewrite forallb_forall in Hwf. apply Hwf. by apply list_elem_of_In.
  - unfold notna in Hn. by destruct (isna c).
Qed.

(** C1, amended: on a non-empty column of numeric dtype the classifier
    answers by the dtype.  It returns [int] exactly for an integer dtype,
    and then every value has zero fractional part; it returns [float]
    exactly for a float dtype, whatever the fractional parts are; a value
    with a fractional part forces [float]. *)
Theorem infer_numeric_column_by_dtype (df : DataFrame string) col s :
  getitem df col = Ok (SelSeries s) →
  series_wf s = true →
  (0 < length (present s))%nat →
  dtype s = Int64 ∨ dtype s = Float64 →
  (infer_column_type to_datetime df col = Ok "int" ↔ dtype s = Int64)
  ∧ (infer_column_type to_datetime df col = Ok "float" ↔ dtype s = Float64)
  ∧ (infer_column_type to_datetime df col = Ok "int" →
     forallb zero_fraction (present s) = true)
  ∧ (forallb zero_fraction (present s) = false →
     infer_column_type to_datetime df col = Ok "float").
Proof.
  intros Hsel Hwf Hpos Hnum.
  rewrite (infer_column_type_series df col s Hsel Hpos).
  assert (Hint : dtype s = Int64 → forallb zero_fraction (present s) = true).
  { intros Hd. apply forallb_forall. intros c Hc%list_elem_of_In.
    destruct (series_wf_present s c Hwf Hc) as [Hfit _]. rewrite Hd in Hfit.
    by destruct c. }
  destruct Hnum as [Hd|Hd]; rewrite Hd in *.
  - specialize (Hint eq_refl). repeat split; try done. by rewrite Hint.
  - repeat split; done.
Qed.

End SchemaFacts.

Lemma infer_numeric_column_by_dtype_witness :
  let s := {| dtype := Int64; values := [PInt 1; PInt 2; PInt 3] |} in
  let df := {| df_columns := ["age"]; df_data := [s]; df_len := 3 |} in
  infer_column_type (fun _ => Ok ()) df "age" = Ok "int"
  ∧ forallb zero_fraction (present s) = true.
Proof.
  intros s df.
  pose proof (infer_numeric_column_by_dtype (fun _ => Ok ()) df "age" s) as Hthm.
  destruct Hthm as (Hint & _ & Hwhole & _);
    [reflexivity | reflexivity | vm_compute; lia | by left |].
  split; [by apply Hint | apply Hwhole; by apply Hint].
Defined.

(** C1 as stated fails: an integer column with a missing cell is held as
    float; its values are all whole numbers, and it is classified [float],
    not [int]. *)
Lemma infer_whole_floats_is_float :
  let s := {| dtype := Float64; values := [PFloat 1; PNA; PFloat 3] |} in
  let df := {| df_columns := ["amount"]; df_data := [s]; df_len := 3 |} in
  frame_wf df
  ∧ present s = [PFloat 1; PFloat 3]
  ∧ forallb is_number (present s) = true
  ∧ forallb zero_fraction (present s) = true
  ∧ infer_column_type (fun _ => Ok ()) df "amount" = Ok "float"
  ∧ infer_column_type (fun _ => Ok ()) df "amount" ≠ Ok "int".
Proof.
  intros s df. split; [|by vm_compute].
  split; [done|]. repeat constructor.
Qed.

Lemma unique_length_le l : (length (unique l) ≤ length l)%nat.
Proof.
  induction l as [|c l IH]; simpl; [done|].
  destruct (existsb (cell_eqb c) l); simpl; lia.
Qed.

Lemma unique_count_all_distinct l :
  (length (unique l) =? length l)%nat = all_distinct l.
Proof.
  induction l as [|c l IH]; simpl; [done|].
  pose proof (unique_length_le l) as Hle.
  destruct (existsb (cell_eqb c) l); simpl.
  - apply Nat.eqb_neq. lia.
  - exact IH.
Qed.

Lemma filter_label_absent (col : string) (cols : list string) (data : list Series) :
  col ∉ cols → filter (fun p : string * Series => p.1 = col) (zip cols data) = [].
Proof.
  revert data. induction cols as [|c cols IH]; intros data Hnot; [done|].
  destruct data as [|d data]; [done|]. simpl.
  apply not_elem_of_cons in Hnot as [Hne Hnot].
  rewrite filter_cons_False by (simpl; congruence). by apply IH.
Qed.

Lemma select_columns_single (df : DataFrame string) col :
  length (df_columns df) = length (df_data df) →
  NoDup (df_columns df) →
  col ∈ df_columns df →
  ∃ s, select_columns df col = [s].
Proof.
  unfold select_columns. generalize (df_data df) as data.
  induction (df_columns df) as [|c cols IH]; intros data Hlen Hnd Hin.
  - by apply elem_of_nil in Hin.
  - destruct data as [|d data]; [done|]. simpl in Hlen.
    apply NoDup_cons in Hnd as [Hc Hnd]. simpl.
    destruct (decide (c = col)) as [->|Hne].
    + rewrite filter_cons_True by done. rewrite filter_label_absent by done. by exists d.
    + rewrite filter_cons_False by done. apply IH; [lia|done|].
      apply elem_of_cons in Hin as [->|Hin]; done.
Qed.

Lemma is_unique_column_qualifies (df : DataFrame string) col :
  length (df_columns df) = length (df_data df) →
  NoDup (df_columns df) →
  col ∈ df_columns df →
  is_unique_column df col = Ok (qualifies df col).
Proof.
  intros Hlen Hnd Hin.
  destruct (select_columns_single df col Hlen Hnd Hin) as [s Hs].
  unfold is_unique_column, qualifies, getitem. rewrite Hs. simpl.
  rewrite existsb_notna_present. unfold nunique, len. fold (present s).
  rewrite unique_count_all_distinct.
  destruct (0 <? length (present s))%nat; simpl; [|done].
  by rewrite andb_true_r.
Qed.

Lemma check_other_columns_find (df : DataFrame string) first columns :
  length (df_columns df) = length (df_data df) →
  NoDup (df_columns df) →
  columns ⊆ df_columns df →
  qualifies df first = false →
  check_other_columns df first columns = Ok (select_spec df columns).
Proof.
  intros Hlen Hnd Hsub Hfirst. unfold select_spec.
  induction columns as [|col rest IH]; simpl; [done|].
  assert (Hrest : rest ⊆ df_columns df) by set_solver.
  destruct (decide (col = first)) as [->|Hne].
  - rewrite Hfirst. by apply IH.
  - rewrite is_unique_column_qualifies by set_solver. simpl.
    destruct (qualifies df col); [done|]. by apply IH.
Qed.

Lemma detect_primary_key_select_spec (df : DataFrame string) columns :
  length (df_columns df) = length (df_data df) →
  NoDup (df_columns df) →
  columns ⊆ df_columns df →
  detect_primary_key df columns = Ok (select_spec df columns).
Proof.
  intros Hlen Hnd Hsub.
  destruct columns as [|first rest]; [done|]. unfold detect_primary_key.
  rewrite is_unique_column_qualifies by set_solver.
  unfold mbind, result_bind.
  destruct (qualifies df first) eqn:Hq.
  - unfold select_spec. simpl. by rewrite Hq.
  - by apply check_other_columns_find.
Qed.

(** C3, amended: on a dataset whose labels are pairwise distinct, and for a
    column list drawn from those labels, the selector returns the first
    column in declaration order whose non-missing values number at least one
    and are all distinct, and the synthetic key [id] when there is none (in
    particular for the empty list). *)
Theorem detect_primary_key_first_qualifying (df : DataFrame string) columns :
  length (df_columns df) = length (df_data df) →
  NoDup (df_columns df) →
  columns ⊆ df_columns df →
  detect_primary_key df columns = Ok (select_spec df columns)
  ∧ (columns = [] → detect_primary_key df columns = Ok "id")
  ∧ (∀ col, find (qualifies df) columns = Some col → detect_primary_key df columns = Ok col)
  ∧ (find (qualifies df) columns = None → detect_primary_key df columns = Ok "id").
Proof.
  intros Hlen Hnd Hsub.
  pose proof (detect_primary_key_select_spec df columns Hlen Hnd Hsub) as Hmain.
  split; [done|]. split; [by intros ->|].
  unfold select_spec in Hmain. split.
  - intros col Hcol. by rewrite Hmain, Hcol.
  - intros Hnone. by rewrite Hmain, Hnone.
Qed.

Lemma detect_primary_key_first_qualifying_witness :
  let df := {| df_columns := ["category"; "id"];
               df_data := [ {| dtype := Object; values := [PStr "A"; PStr "A"; PStr "B"] |};
                            {| dtype := Int64; values := [PInt 1; PInt 2; PInt 3] |} ];
               df_len := 3 |} in
  detect_primary_key df ["category"; "id"] = Ok "id"
  ∧ find (qualifies df) ["category"; "id"] = Some "id".
Proof.
  intros df.
  assert (Hnd : NoDup (df_columns df)) by (apply (bool_decide_unpack _); vm_compute; exact I).
  destruct (detect_primary_key_first_qualifying df ["category"; "id"] eq_refl Hnd)
    as (_ & _ & Hfound & _); [by intros col Hcol|].
  split; [apply Hfound|]; reflexivity.
Defined.

(** C3 as stated fails: when a label occurs twice, [df[col]] is a frame and
    its truth value raises; and a column list that names a label the dataset
    does not have raises [KeyError]. *)
Lemma detect_primary_key_repeated_label :
  let df := {| df_columns := ["a_b"; "a_b"];
               df_data := [ {| dtype := Int64; values := [PInt 1; PInt 2] |};
                            {| dtype := Int64; values := [PInt 3; PInt 4] |} ];
               df_len := 2 |} in
  frame_wf df
  ∧ detect_primary_key df (df_columns df) = Raise ambiguous
  ∧ ¬ (∃ key, detect_primary_key df (df_columns df) = Ok key)
  ∧ detect_primary_key df ["total"] = Raise (KeyError "column label not found").
Proof.
  intros df. split; [split; [done|repeat constructor]|].
  split; [reflexivity|]. split; [|reflexivity]. intros [key Hkey]. discriminate Hkey.
Qed.

(** The second scenario of the specification: columns category and value
    with rows (A, 10), (A, 20), (B, 30).  The values 10, 20, 30 are all
    distinct, so the column [value] qualifies and is selected. *)
Example detect_primary_key_category_value :
  let df := {| df_columns := ["category"; "value"];
               df_data := [ {| dtype := Object; values := [PStr "A"; PStr "A"; PStr "B"] |};
                            {| dtype := Int64; values := [PInt 10; PInt 20; PInt 30] |} ];
               df_len := 3 |} in
  qualifies df "category" = false
  ∧ qualifies df "value" = true
  ∧ detect_primary_key df ["category"; "value"] = Ok "value".
Proof. intros. by vm_compute. Qed.

Section DetectSchema.
Variable to_datetime : Series → result unit.
Variable read_excel : string → result (DataFrame label).

Lemma for_each_types_keys (df : DataFrame string) cols (acc types : gmap string string) :
  for_each (fun types col => ty ← infer_column_type to_datetime df col; Ok (<[col := ty]> types))
           cols acc = Ok types →
  (∀ c, is_Some (acc !! c) → is_Some (types !! c))
  ∧ (∀ c, c ∈ cols → is_Some (types !! c)).
Proof.
  revert acc. induction cols as [|col cols IH]; intros acc; simpl.
  - intros [= ->]. split; [done|]. intros c Hc. by apply elem_of_nil in Hc.
  - destruct (infer_column_type to_datetime df col) as [ty|e]; simpl; [|done].
    intros Hrest. destruct (IH _ Hrest) as [Hacc Hcols]. split.
    + intros c Hc. apply Hacc. destruct (decide (col = c)) as [->|Hne].
      * rewrite lookup_insert_eq. by eexists.
      * by rewrite lookup_insert_ne.
    + intros c [->|Hc]%elem_of_cons; [|by apply Hcols].
      apply Hacc. rewrite lookup_insert_eq. by eexists.
Qed.

Lemma infer_column_types_keys (df : DataFrame string) (types : gmap string string) :
  infer_column_types to_datetime df = Ok types →
  ∀ c, c ∈ df_columns df → is_Some (types !! c).
Proof. intros Hty. by destruct (for_each_types_keys df _ _ _ Hty). Qed.

Lemma check_other_columns_member (df : DataFrame string) first columns pk :
  check_other_columns df first columns = Ok pk → pk = "id" ∨ pk ∈ columns.
Proof.
  induction columns as [|col rest IH]; simpl.
  - intros [= <-]. by left.
  - destruct (decide (col = first)).
    + intros [->|Hin]%IH; [by left|right; by apply elem_of_cons; right].
    + destruct (is_unique_column df col) as [[]|]; simpl; [| |done].
      * intros [= <-]. right. by apply elem_of_cons; left.
      * intros [->|Hin]%IH; [by left|right; by apply elem_of_cons; right].
Qed.

Lemma detect_primary_key_member (df : DataFrame string) columns pk :
  detect_primary_key df columns = Ok pk → pk = "id" ∨ pk ∈ columns.
Proof.
  destruct columns as [|first rest]; simpl.
  - intros [= <-]. by left.
  - destruct (is_unique_column df first) as [[]|]; simpl; [| |done].
    + intros [= <-]. right. by apply elem_of_cons; left.
    + destruct (decide (first = first)); [|done].
      intros [->|Hin]%check_other_columns_member; [by left|].
      right. by apply elem_of_cons; right.
Qed.

Lemma is_date_column_ok s :
  parser_raises_value_or_type to_datetime → ∃ b, is_date_column to_datetime s = Ok b.
Proof.
  intros Hp. unfold is_date_column.
  destruct (to_datetime s) as [|e] eqn:E; [by eexists|].
  destruct (Hp s e E) as [[m ->]|[m ->]]; by eexists.
Qed.

Lemma infer_column_type_ok (df : DataFrame string) col :
  parser_raises_value_or_type to_datetime →
  length (df_columns df) = length (df_data df) →
  NoDup (df_columns df) →
  col ∈ df_columns df →
  ∃ ty, infer_column_type to_datetime df col = Ok ty.
Proof.
  intros Hp Hlen Hnd Hin.
  destruct (select_columns_single df col Hlen Hnd Hin) as [s Hs].
  unfold infer_column_type, getitem. rewrite Hs. simpl.
  destruct (forallb isna (values s)); [by eexists|].
  destruct (is_datetime64_any_dtype s); [by eexists|].
  destruct (len (dropna s) =? 0)%nat; [by eexists|].
  destruct (is_integer_dtype (dropna s)); [by eexists|].
  destruct (is_float_dtype (dropna s)); [by eexists|].
  destruct (is_date_column_ok (dropna s) Hp) as [b ->]. simpl.
  destruct b; by eexists.
Qed.

Lemma infer_column_types_ok (df : DataFrame string) :
  parser_raises_value_or_type to_datetime →
  length (df_columns df) = length (df_data df) →
  NoDup (df_columns df) →
  ∃ types, infer_column_types to_datetime df = Ok types.
Proof.
  intros Hp Hlen Hnd. unfold infer_column_types.
  assert (Hall : ∀ c, c ∈ df_columns df → c ∈ df_columns df) by done.
  revert Hall. generalize (∅ : gmap string string) as acc.
  generalize (df_columns df) at 1 3 as cols.
  induction cols as [|col cols IH]; intros acc Hall; simpl; [by eexists|].
  destruct (infer_column_type_ok df col Hp Hlen Hnd) as [ty ->].
  { apply Hall. by apply elem_of_cons; left. }
  simpl. apply IH. intros c Hc. apply Hall. by apply elem_of_cons; right.
Qed.

(** Past its guards, [detect_schema] is the inference on the relabelled
    dataset. *)
Lemma set_columns_ok {L L'} (new_labels : list L') (df : DataFrame L) :
  length new_labels = length (df_columns df) →
  set_columns new_labels df =
    Ok {| df_columns := new_labels; df_data := df_data df; df_len := df_len df |}.
Proof. intros Hlen. unfold set_columns. by rewrite Hlen, Nat.eqb_refl. Qed.

Lemma effective_labels_length (df : DataFrame label) :
  length (effective_labels df) = length (df_columns df).
Proof.
  unfold effective_labels. destruct (df_columns df) as [|[first|other] rest] eqn:E; try done.
  destruct (String.prefix "Unnamed" first); [|done].
  by rewrite length_map, length_seq.
Qed.

(** Past its guards, [detect_schema] is the inference on the relabelled
    dataset. *)
Lemma detect_schema_body_relabelled file_path (df : DataFrame label) first rest :
  read_excel file_path = Ok df →
  empty df = false →
  df_columns df = LStr first :: rest →
  let columns := map clean_column_name (effective_labels df) in
  let df' := {| df_columns := columns; df_data := df_data df; df_len := df_len df |} in
  detect_schema_body to_datetime read_excel file_path =
    types ← infer_column_types to_datetime df';
    primary_key ← detect_primary_key df' columns;
    Ok {| columns := columns; types := types; primary_key := primary_key |}.
Proof.
  intros Hread Hne Hcols columns df'. unfold detect_schema_body.
  rewrite Hread. simpl mbind at 1. unfold result_bind at 1. rewrite Hne.
  unfold empty in Hne. apply orb_false_elim in Hne as [_ Hn]. rewrite Hn.
  assert (Hfl : first_label df = Ok (LStr first)) by (unfold first_label; by rewrite Hcols).
  assert (Heff : effective_labels df =
                 if String.prefix "Unnamed" first
                 then map (fun i => LStr ("Column" +:+ str_of_nat (i + 1)))
                          (seq 0 (length (df_columns df)))
                 else df_columns df)
    by (unfold effective_labels; by rewrite Hcols).
  pose proof (effective_labels_length df) as Hlen.
  rewrite Hfl. unfold mbind at 1, result_bind at 1, startswith, mbind at 1, result_bind at 1.
  subst columns df'. rewrite Heff in *.
  destruct (String.prefix "Unnamed" first).
  - rewrite set_columns_ok by done. unfold mbind at 1, result_bind at 1.
    cbn [df_columns df_data df_len]. rewrite set_columns_ok; [done|].
    cbn [df_columns]. by rewrite length_map.
  - unfold mbind at 1, result_bind at 1.
    rewrite set_columns_ok by (by rewrite length_map). done.
Qed.

Lemma detect_schema_ok_body file_path schema :
  detect_schema to_datetime read_excel file_path = Ok schema →
  detect_schema_body to_datetime read_excel file_path = Ok schema.
Proof.
  unfold detect_schema.
  destruct (detect_schema_body to_datetime read_excel file_path) as [s|e]; [done|].
  by destruct e.
Qed.

Lemma detect_schema_ok_inv file_path (df : DataFrame label) schema :
  read_excel file_path = Ok df →
  detect_schema to_datetime read_excel file_path = Ok schema →
  let columns := map clean_column_name (effective_labels df) in
  let df' := {| df_columns := columns; df_data := df_data df; df_len := df_len df |} in
  empty df = false
  ∧ ∃ types primary_key,
      infer_column_types to_datetime df' = Ok types
      ∧ detect_primary_key df' columns = Ok primary_key
      ∧ schema = {| columns := columns; types := types; primary_key := primary_key |}.
Proof.
  intros Hread Hok%detect_schema_ok_body columns df'.
  assert (Hne : empty df = false).
  { unfold detect_schema_body in Hok. rewrite Hread in Hok. simpl in Hok.
    by destruct (empty df). }
  split; [done|].
  destruct (df_columns df) as [|[first|other] rest] eqn:Hcols.
  - unfold empty in Hne. rewrite Hcols in Hne. simpl in Hne. by rewrite orb_true_r in Hne.
  - rewrite (detect_schema_body_relabelled file_path df first rest Hread Hne Hcols) in Hok.
    fold columns in Hok. fold df' in Hok.
    destruct (infer_column_types to_datetime df') as [ty|]; simpl in Hok; [|done].
    destruct (detect_primary_key df' columns) as [pk|]; simpl in Hok; [|done].
    injection Hok as <-. by exists ty, pk.
  - unfold detect_schema_body in Hok. rewrite Hread in Hok. simpl in Hok. rewrite Hne in Hok.
    unfold empty in Hne. apply orb_false_elim in Hne as [_ Hn]. rewrite Hn in Hok.
    unfold first_label in Hok. rewrite Hcols in Hok. done.
Qed.

(** C5, amended: the dataset of zero rows or zero columns is refused with
    [SchemaDetectionError], and so is every other failure of the inference,
    which raises nothing else; when the inference returns, the dataset was
    not empty and the descriptor satisfies its invariant; and it does
    return when the first label is a string, the cleaned labels are
    pairwise distinct and the date parser raises only what
    [is_date_column] catches. *)
Theorem detect_schema_outcomes file_path (df : DataFrame label) :
  read_excel file_path = Ok df →
  frame_wf df →
  (empty df = true →
   detect_schema to_datetime read_excel file_path =
     Raise (SchemaDetectionError
              "Unexpected error during schema detection: Excel file contains no data"))
  ∧ (∀ e, detect_schema to_datetime read_excel file_path = Raise e →
          ∃ msg, e = SchemaDetectionError msg)
  ∧ (∀ schema, detect_schema to_datetime read_excel file_path = Ok schema →
       empty df = false
       ∧ columns schema = map clean_column_name (effective_labels df)
       ∧ schema_invariant schema)
  ∧ (empty df = false →
     (∃ first, head (df_columns df) = Some (LStr first)) →
     NoDup (map clean_column_name (effective_labels df)) →
     parser_raises_value_or_type to_datetime →
     ∃ schema, detect_schema to_datetime read_excel file_path = Ok schema).
Proof.
  intros Hread [Hlen _]. split; [|split; [|split]].
  - intros Hempty. unfold detect_schema, detect_schema_body.
    rewrite Hread. simpl. by rewrite Hempty.
  - intros e. unfold detect_schema.
    destruct (detect_schema_body to_datetime read_excel file_path) as [s|e']; [done|].
    destruct e'; intros [= <-]; by eexists.
  - intros schema Hok.
    destruct (detect_schema_ok_inv file_path df schema Hread Hok)
      as (Hne & ty & pk & Hty & Hpk & ->).
    split; [done|]. split; [done|]. split; simpl.
    + intros col Hcol. by apply (infer_column_types_keys _ _ Hty).
    + by apply detect_primary_key_member in Hpk.
  - intros Hne [first Hfirst] Hnd Hp.
    destruct (df_columns df) as [|l rest] eqn:Hcols; [done|].
    injection Hfirst as ->.
    unfold detect_schema.
    rewrite (detect_schema_body_relabelled file_path df first rest Hread Hne Hcols).
    set (cols := map clean_column_name (effective_labels df)) in *.
    set (df' := {| df_columns := cols; df_data := df_data df; df_len := df_len df |}).
    assert (Hlen' : length (df_columns df') = length (df_data df')).
    { simpl. unfold cols, effective_labels. rewrite Hcols.
      destruct (String.prefix "Unnamed" first);
        rewrite length_map, ?length_map, ?length_seq, <- ?Hcols; by rewrite <- ?Hlen, ?Hcols. }
    destruct (infer_column_types_ok df' Hp Hlen' Hnd) as [ty ->]. simpl.
    rewrite (detect_primary_key_select_spec df' cols Hlen' Hnd) by done.
    simpl. by eexists.
Qed.

End DetectSchema.

Lemma detect_schema_outcomes_witness :
  let df := {| df_columns := [LStr "id"; LStr "name"; LStr "age"];
               df_data := [ {| dtype := Int64; values := [PInt 1; PInt 2] |};
                            {| dtype := Object; values := [PStr "Alice"; PStr "Bob"] |};
                            {| dtype := Int64; values := [PInt 25; PInt 30] |} ];
               df_len := 2 |} in
  let to_datetime := fun _ : Series => Raise (ValueError "Unknown datetime string format") in
  let read_excel := fun _ : string => Ok df in
  (∃ schema, detect_schema to_datetime read_excel "people.xlsx" = Ok schema)
  ∧ (∀ schema, detect_schema to_datetime read_excel "people.xlsx" = Ok schema →
               schema_invariant schema).
Proof.
  intros df to_datetime read_excel.
  assert (Hwf : frame_wf df) by (split; [reflexivity|repeat constructor]).
  destruct (detect_schema_outcomes to_datetime read_excel "people.xlsx" df eq_refl Hwf)
    as (_ & _ & Hinv & Hok).
  split.
  - apply Hok.
    + reflexivity.
    + by eexists.
    + apply (bool_decide_unpack _). vm_compute. exact I.
    + intros s e [= <-]. left. by eexists.
  - intros schema Hschema. by destruct (Hinv schema Hschema) as (_ & _ & Hi).
Defined.

(** The first scenario of the specification: columns id, name, age with rows
    (1, Alice, 25) and (2, Bob, 30). *)
Example detect_schema_people :
  let df := {| df_columns := [LStr "id"; LStr "name"; LStr "age"];
               df_data := [ {| dtype := Int64; values := [PInt 1; PInt 2] |};
                            {| dtype := Object; values := [PStr "Alice"; PStr "Bob"] |};
                            {| dtype := Int64; values := [PInt 25; PInt 30] |} ];
               df_len := 2 |} in
  detect_schema (fun _ => Raise (ValueError "Unknown datetime string format"))
                (fun _ => Ok df) "people.xlsx"
  = Ok {| columns := ["id"; "name"; "age"];
          types := {[ "id" := "int"; "name" := "str"; "age" := "int" ]};
          primary_key := "id" |}.
Proof. by vm_compute. Qed.

(** C5 as stated fails: a dataset with rows and columns is refused too, when
    the first header cell is not a string (here the number 2024), and when
    two labels clean to the same name. *)
Lemma detect_schema_refuses_non_empty :
  let numeric_header :=
    {| df_columns := [LOther "2024"; LStr "name"];
       df_data := [ {| dtype := Int64; values := [PInt 1] |};
                    {| dtype := Object; values := [PStr "Alice"] |} ];
       df_len := 1 |} in
  let colliding :=
    {| df_columns := [LStr "unit price"; LStr "unit_price"];
       df_data := [ {| dtype := Int64; values := [PInt 1] |};
                    {| dtype := Int64; values := [PInt 2] |} ];
       df_len := 1 |} in
  let to_datetime := fun _ : Series => Raise (ValueError "Unknown datetime string format") in
  (frame_wf numeric_header ∧ empty numeric_header = false
   ∧ detect_schema to_datetime (fun _ => Ok numeric_header) "book.xlsx"
     = Raise (SchemaDetectionError
                "Unexpected error during schema detection: object has no attribute 'startswith'"))
  ∧ (frame_wf colliding ∧ empty colliding = false
     ∧ ∃ msg, detect_schema to_datetime (fun _ => Ok colliding) "book.xlsx"
              = Raise (SchemaDetectionError msg)).
Proof.
  intros numeric_header colliding to_datetime. split.
  - split; [split; [reflexivity|repeat constructor]|]. split; reflexivity.
  - split; [split; [reflexivity|repeat constructor]|]. split; [reflexivity|].
    eexists. vm_compute. reflexivity.
Qed.

Section AdapterFacts.
Context `{Coercions}.
Variable self : DatabaseManager.

(** C10: with an empty record the key lookup [list(data.keys())[0]] raises
    [IndexError], which no handler wraps, and nothing has been handed to
    the engine. *)
Theorem update_record_empty_record_raises (record_id : cell) (st : store) :
  update_record self record_id [] st = (Raise (IndexError "list index out of range"), st)
  ∧ (∀ msg, IndexError "list index out of range" ≠ DatabaseError msg)
  ∧ statements (update_record self record_id [] st).2 = statements st
  ∧ tables (update_record self record_id [] st).2 = tables st.
Proof. done. Qed.

Lemma filter_ne_all_equal (pk : string) (ks : list string) :
  (∀ k, k ∈ ks → k = pk) → filter (fun col => col ≠ pk) ks = [].
Proof.
  induction ks as [|k ks IH]; intros Hall; [done|].
  rewrite filter_cons_False.
  - apply IH. intros k' Hk'. apply Hall. by apply elem_of_cons; right.
  - intros Hne. apply Hne, Hall. by apply elem_of_cons; left.
Qed.

(** C9: for a non-empty record the key column is [id] when the record has
    that key and the first key otherwise; when the record has no field
    besides that column the call returns normally, the store is unchanged
    and no statement reaches the engine. *)
Theorem update_record_only_primary_key (record_id : cell) (data : dict) (st : store) :
  data ≠ [] →
  ∃ primary_key,
    update_primary_key data = Ok primary_key
    ∧ ("id" ∈ keys data → primary_key = "id")
    ∧ ("id" ∉ keys data → head (keys data) = Some primary_key)
    ∧ ((∀ k, k ∈ keys data → k = primary_key) →
       update_record self record_id data st = (Ok (), st)).
Proof.
  intros Hne. unfold update_record, update_primary_key.
  destruct (bool_decide ("id" ∈ keys data)) eqn:Hid.
  - apply bool_decide_eq_true in Hid. exists "id". repeat split; try done.
    intros Hall. by rewrite (filter_ne_all_equal "id" (keys data) Hall).
  - apply bool_decide_eq_false in Hid.
    destruct data as [|[k v] rest]; [done|]. exists k. simpl keys.
    repeat split; try done.
    intros Hall. cbn [fmap list_fmap fst].
    change (k :: rest.*1) with (keys ((k, v) :: rest)).
    by rewrite (filter_ne_all_equal k _ Hall).
Qed.

End AdapterFacts.

Lemma update_record_only_primary_key_witness :
  let self := {| db_path := "data.db"; table_name := "data" |} in
  let st := {| tables := ∅; statements := [] |} in
  @update_record decimal_engine self (PInt 7) [("code", PInt 7)] st = (Ok (), st).
Proof.
  intros self st.
  destruct (@update_record_only_primary_key decimal_engine self (PInt 7) [("code", PInt 7)] st)
    as (pk & Hpk & _ & _ & Hnoop); [done|].
  injection Hpk as <-. apply Hnoop.
  intros k Hk. by apply list_elem_of_singleton in Hk.
Defined.

Section EngineFacts.
Context `{Coercions}.
Variable self : DatabaseManager.

Lemma find_column_none defs name :
  existsb (fun d => ident_eqb (cd_name d) name) defs = false → find_column defs name = None.
Proof.
  induction defs as [|d defs IH]; simpl; [done|].
  intros [Hd Hrest]%orb_false_elim. rewrite Hd, (IH Hrest). done.
Qed.

Lemma Conn_bind_eq {A B} (m : Conn A) (f : A → Conn B) (conn : connection) :
  (m ≫= f) conn =
    match m conn with
    | (Ok a, conn') => f a conn'
    | (Raise e, conn') => (Raise e, conn')
    end.
Proof. reflexivity. Qed.

Lemma execute_create_existing tbl defs conn t :
  working conn !! tbl = Some t →
  execute (CreateTableIfNotExists tbl defs) [] conn =
    (Ok finished, record (CreateTableIfNotExists tbl defs) [] conn).
Proof.
  intros Ht. unfold execute, record, compile_bind_run, run, prepare. cbn [working].
  rewrite Ht. simpl. by destruct conn.
Qed.

Lemma execute_create_fresh tbl defs conn :
  working conn !! tbl = None →
  execute (CreateTableIfNotExists tbl defs) [] conn =
    match create_checks tbl defs with
    | Ok _ =>
        (Ok finished,
         {| committed := committed conn;
            working := <[tbl := {| t_columns := defs; t_rows := []; t_sequence := 0 |}]>
                         (working conn);
            journal := journal conn ++ [(CreateTableIfNotExists tbl defs, [])] |})
    | Raise e => (Raise e, record (CreateTableIfNotExists tbl defs) [] conn)
    end.
Proof.
  intros Ht. unfold execute, record, compile_bind_run, run, prepare. cbn [working].
  rewrite Ht. by destruct (create_checks tbl defs) as [[]|e].
Qed.

(** C8: after a first successful [create_table], the relation exists in
    the database file, and [create_table] with the same descriptor on any
    later state of that file returns normally and leaves every table, rows
    included, as it was. *)
Theorem create_table_twice (schema : Schema) (st st1 : store) :
  create_table self schema st = (Ok (), st1) →
  (transient (db_path self) = false → is_Some (tables st1 !! table_name self))
  ∧ (∃ st2, create_table self schema st1 = (Ok (), st2) ∧ tables st2 = tables st1)
  ∧ (∀ st', (transient (db_path self) = false → is_Some (tables st' !! table_name self)) →
            ∃ st2, create_table self schema st' = (Ok (), st2) ∧ tables st2 = tables st').
Proof.
  intros Hfirst.
  set (defs := map (col_def schema) (columns schema)).
  set (tbl := table_name self).
  assert (Hchecks : transient (db_path self) = true → create_checks tbl defs = Ok ()).
  { intros Htr. revert Hfirst.
    unfold create_table, except_sqlite3, get_connection, connect. rewrite Htr.
    rewrite Conn_bind_eq. rewrite execute_create_fresh by apply lookup_empty.
    fold defs tbl. destruct (create_checks tbl defs) as [[]|[]]; done. }
  assert (Hexists : transient (db_path self) = false → is_Some (tables st1 !! tbl)).
  { intros Htr. revert Hfirst.
    unfold create_table, except_sqlite3, get_connection, connect, close. rewrite Htr.
    rewrite Conn_bind_eq. fold defs tbl.
    destruct (tables st !! tbl) as [t|] eqn:Ht.
    - rewrite (execute_create_existing tbl defs _ t) by done.
      cbn. intros [= <-]. simpl. by rewrite Ht.
    - rewrite execute_create_fresh by done.
      destruct (create_checks tbl defs) as [[]|[]]; cbn; try done.
      intros [= <-]. simpl. rewrite lookup_insert_eq. by eexists. }
  assert (Hlater : ∀ st', (transient (db_path self) = false → is_Some (tables st' !! tbl)) →
                          ∃ st2, create_table self schema st' = (Ok (), st2)
                                 ∧ tables st2 = tables st').
  { intros st' Hst'.
    unfold create_table, except_sqlite3, get_connection, connect, close.
    rewrite Conn_bind_eq. fold defs tbl.
    destruct (transient (db_path self)) eqn:Htr.
    - rewrite execute_create_fresh by apply lookup_empty.
      rewrite (Hchecks eq_refl). cbn. by eexists.
    - destruct (Hst' eq_refl) as [t Ht].
      rewrite (execute_create_existing tbl defs _ t) by done.
      cbn. by eexists. }
  split; [done|]. split; [|done]. by apply Hlater.
Qed.

(** C2 on the code: when the relation has no column called [id], the first
    DELETE does not compile; the engine error is wrapped and raised, the
    fallback is never reached and no row is deleted. *)
Theorem delete_record_without_id_column (record_id : cell) (st : store) (t : table) :
  transient (db_path self) = false →
  tables st !! table_name self = Some t →
  has_column t "id" = false →
  delete_record self record_id st =
    (Raise (DatabaseError "Database operation failed: no such column: id"),
     {| tables := tables st;
        statements := statements st ++ [(DeleteWhere (table_name self) "id", [record_id])] |}).
Proof.
  intros Htr Ht Hid.
  unfold delete_record, except_sqlite3, get_connection, connect, close, rollback.
  rewrite Htr. rewrite Conn_bind_eq.
  unfold execute, record, compile_bind_run, prepare. cbn [working]. rewrite Ht.
  unfold resolve. rewrite (find_column_none _ _ Hid). done.
Qed.

(** C6 on the code: when the SELECT of [read_all] fails in the engine, what
    leaves [read_all] is the error raised by pandas, which neither
    [except sqlite3.Error] clause catches; it is not a [DatabaseError]. *)
Theorem read_all_engine_failure_escapes (st : store) :
  transient (db_path self) = false →
  tables st !! table_name self = None →
  read_all self st =
    (Raise (PandasDatabaseError
              ("Execution failed on sql 'SELECT * FROM " +:+ table_name self
               +:+ "': no such table: " +:+ table_name self)),
     {| tables := tables st;
        statements := statements st ++ [(SelectAll (table_name self), [])] |}).
Proof.
  intros Htr Ht.
  unfold read_all, except_sqlite3, get_connection, connect, close, read_sql_query.
  rewrite Htr. unfold execute, record, compile_bind_run, prepare. cbn [working]. rewrite Ht.
  done.
Qed.

End EngineFacts.

Lemma create_table_twice_witness :
  let self := {| db_path := "data.db"; table_name := "data" |} in
  let schema := {| columns := ["id"; "name"; "age"];
                   types := {[ "id" := "int"; "name" := "str"; "age" := "int" ]};
                   primary_key := "id" |} in
  let st := {| tables := ∅; statements := [] |} in
  let st1 := (@create_table decimal_engine self schema st).2 in
  ∃ st2, @create_table decimal_engine self schema st1 = (Ok (), st2) ∧ tables st2 = tables st1.
Proof.
  intros self schema st st1.
  destruct (@create_table_twice decimal_engine self schema st st1) as (_ & Hsecond & _);
    [by vm_compute|exact Hsecond].
Defined.

Lemma delete_record_without_id_column_witness :
  let self := {| db_path := "data.db"; table_name := "data" |} in
  let t := {| t_columns := [ {| cd_name := "code"; cd_type := INTEGER; cd_pk := true;
                                cd_autoincrement := false |};
                             {| cd_name := "name"; cd_type := TEXT; cd_pk := false;
                                cd_autoincrement := false |} ];
              t_rows := [(1%Z, [SInt 1; SText "Alice"])]; t_sequence := 0 |} in
  let st := {| tables := {[ "data" := t ]}; statements := [] |} in
  (@delete_record decimal_engine self (PInt 1) st).1
    = Raise (DatabaseError "Database operation failed: no such column: id")
  ∧ tables (@delete_record decimal_engine self (PInt 1) st).2 !! "data" = Some t.
Proof.
  intros self t st.
  rewrite (@delete_record_without_id_column decimal_engine self (PInt 1) st t);
    [split; reflexivity|reflexivity|reflexivity|reflexivity].
Defined.

Lemma read_all_engine_failure_escapes_witness :
  let self := {| db_path := "data.db"; table_name := "data" |} in
  let st := {| tables := ∅; statements := [] |} in
  (@read_all decimal_engine self st).1
    = Raise (PandasDatabaseError
               "Execution failed on sql 'SELECT * FROM data': no such table: data").
Proof.
  intros self st.
  rewrite (@read_all_engine_failure_escapes decimal_engine self st); reflexivity.
Defined.

(** The fallback of [delete_record] at work: the relation has a column [id]
    that is not its key, no row has [id = 1], and the key column [code] is
    found through [PRAGMA table_info]. *)
Example delete_record_fallback_with_id_column :
  let self := {| db_path := "data.db"; table_name := "data" |} in
  let defs := [ {| cd_name := "code"; cd_type := INTEGER; cd_pk := true;
                   cd_autoincrement := false |};
                {| cd_name := "id"; cd_type := INTEGER; cd_pk := false;
                   cd_autoincrement := false |} ] in
  let t := {| t_columns := defs;
              t_rows := [(1%Z, [SInt 1; SInt 10]); (2%Z, [SInt 2; SInt 20])];
              t_sequence := 0 |} in
  let st := {| tables := {[ "data" := t ]}; statements := [] |} in
  (@delete_record decimal_engine self (PInt 1) st).1 = Ok ()
  ∧ tables (@delete_record decimal_engine self (PInt 1) st).2 !! "data"
    = Some {| t_columns := defs; t_rows := [(2%Z, [SInt 2; SInt 20])]; t_sequence := 0 |}
  ∧ statements (@delete_record decimal_engine self (PInt 1) st).2
    = [ (DeleteWhere "data" "id", [PInt 1]);
        (PragmaTableInfo "data", []);
        (DeleteWhere "data" "code", [PInt 1]) ].
Proof. intros. by vm_compute. Qed.

(** The fast path of [delete_record] taking the wrong row: the row whose
    column [id] is 2 goes, the row whose key is 2 stays. *)
Example delete_record_fast_path_wrong_row :
  let self := {| db_path := "data.db"; table_name := "data" |} in
  let defs := [ {| cd_name := "code"; cd_type := INTEGER; cd_pk := true;
                   cd_autoincrement := false |};
                {| cd_name := "id"; cd_type := INTEGER; cd_pk := false;
                   cd_autoincrement := false |} ] in
  let t := {| t_columns := defs;
              t_rows := [(1%Z, [SInt 1; SInt 2]); (2%Z, [SInt 2; SInt 5])];
              t_sequence := 0 |} in
  let st := {| tables := {[ "data" := t ]}; statements := [] |} in
  (@delete_record decimal_engine self (PInt 2) st).1 = Ok ()
  ∧ tables (@delete_record decimal_engine self (PInt 2) st).2 !! "data"
    = Some {| t_columns := defs; t_rows := [(2%Z, [SInt 2; SInt 5])]; t_sequence := 0 |}
  ∧ statements (@delete_record decimal_engine self (PInt 2) st).2
    = [ (DeleteWhere "data" "id", [PInt 2]) ].
Proof. intros. by vm_compute. Qed.

Section FailurePath.
Context `{Coercions}.
Variable self : DatabaseManager.

Lemma keeps_committed_ret {A} (a : A) : keeps_committed (mret a).
Proof. by intros conn. Qed.

Lemma keeps_committed_lift {A} (r : result A) : keeps_committed (lift r).
Proof. by intros conn. Qed.

Lemma keeps_committed_bind {A B} (m : Conn A) (f : A → Conn B) :
  keeps_committed m → (∀ a, keeps_committed (f a)) → keeps_committed (m ≫= f).
Proof.
  intros Hm Hf conn. rewrite Conn_bind_eq. specialize (Hm conn).
  destruct (m conn) as [[a|e] conn']; simpl in *; [|done].
  by rewrite Hf.
Qed.

Lemma keeps_committed_execute sql params : keeps_committed (execute sql params).
Proof.
  intros conn. unfold execute.
  by destruct (compile_bind_run sql params _) as [[cur db']|e].
Qed.

Lemma keeps_committed_executemany sql rows : keeps_committed (executemany sql rows).
Proof.
  induction rows as [|params rows IH]; simpl.
  - apply keeps_committed_ret.
  - apply keeps_committed_bind; [apply keeps_committed_execute|done].
Qed.

Lemma keeps_committed_read_sql_query tbl : keeps_committed (read_sql_query tbl).
Proof.
  intros conn. unfold read_sql_query.
  pose proof (keeps_committed_execute (SelectAll tbl) [] conn) as Hex.
  destruct (execute (SelectAll tbl) [] conn) as [[cur|e] conn']; simpl in *.
  - by destruct (results cur).
  - done.
Qed.

(** The context manager: a failure of the body leaves the tables as they
    were, and an engine error leaves it as a [DatabaseError] that carries
    the engine message. *)
Lemma get_connection_failure {A} (body : Conn A) (st st' : store) e :
  keeps_committed body →
  get_connection self body st = (Raise e, st') →
  tables st' = tables st
  ∧ (∀ msg, e ≠ Sqlite3Error msg)
  ∧ (∀ msg conn, body (connect self st) = (Raise (Sqlite3Error msg), conn) →
                 e = DatabaseError ("Database operation failed: " +:+ msg)).
Proof.
  intros Hkeep. unfold get_connection. specialize (Hkeep (connect self st)).
  destruct (body (connect self st)) as [[a|e'] conn'] eqn:Hbody; simpl in Hkeep; [done|].
  assert (Htables : tables (close self st conn') = tables st
                    ∧ tables (close self st (rollback conn')) = tables st).
  { unfold close, rollback, connect in *. simpl in *.
    destruct (transient (db_path self)); [done|]. by rewrite Hkeep. }
  destruct Htables as [Hclose Hroll].
  destruct e' as [m|m|m|m|m|m|m|m|m|m|m|m|m]; intros [= <- <-];
    (split; [done|]); (split; [done|]); intros m' c [= -> _]; done.
Qed.

Lemma except_sqlite3_failure {A} prefix (op : Op A) :
  (∀ st e st', op st = (Raise e, st') → tables st' = tables st) →
  fails_cleanly (except_sqlite3 prefix op).
Proof.
  intros Hop st e st'. unfold except_sqlite3.
  destruct (op st) as [[a|e0] st0] eqn:Hrun; [done|].
  pose proof (Hop st e0 st0 Hrun) as Htables.
  destruct e0 as [m|m|m|m|m|m|m|m|m|m|m|m|m]; intros [= <- <-]; done.
Qed.

Lemma get_connection_fails_cleanly {A} prefix (body : Conn A) :
  keeps_committed body →
  fails_cleanly (except_sqlite3 prefix (get_connection self body)).
Proof.
  intros Hkeep. apply except_sqlite3_failure. intros st e st' Hrun.
  by destruct (get_connection_failure body st st' e Hkeep Hrun).
Qed.

(** Every operation of the adapter fails cleanly: whatever it raises, the
    tables are as before the call (nothing partial is committed), and no
    engine error leaves it unwrapped. *)
Theorem operations_fail_cleanly :
  (∀ schema, fails_cleanly (create_table self schema))
  ∧ (∀ df schema, fails_cleanly (insert_data self df schema))
  ∧ (∀ data, fails_cleanly (create_record self data))
  ∧ (∀ record_id data, fails_cleanly (update_record self record_id data))
  ∧ (∀ record_id, fails_cleanly (delete_record self record_id))
  ∧ fails_cleanly (read_all self).
Proof.
  split_and!.
  - intros schema. apply get_connection_fails_cleanly.
    apply keeps_committed_bind; [apply keeps_committed_execute|].
    intros _. apply keeps_committed_ret.
  - intros df schema. apply get_connection_fails_cleanly.
    apply keeps_committed_bind; [apply keeps_committed_lift|].
    intros rows. apply keeps_committed_executemany.
  - intros data. apply get_connection_fails_cleanly.
    apply keeps_committed_bind; [apply keeps_committed_lift|].
    intros values. apply keeps_committed_bind; [apply keeps_committed_execute|].
    intros cur. apply keeps_committed_ret.
  - intros record_id data st e st'. unfold update_record.
    destruct (update_primary_key data) as [pk|e0] eqn:Hpk.
    + destruct (filter (fun col => col ≠ pk) (keys data)) as [|c cs] eqn:Hset; [done|].
      apply get_connection_fails_cleanly.
      apply keeps_committed_bind; [apply keeps_committed_lift|].
      intros values. apply keeps_committed_bind; [apply keeps_committed_execute|].
      intros cur. apply keeps_committed_ret.
    + intros [= <- <-]. split; [done|]. intros msg ->.
      unfold update_primary_key in Hpk.
      destruct (bool_decide _); [done|]. by destruct (keys data).
  - intros record_id. apply get_connection_fails_cleanly.
    apply keeps_committed_bind; [apply keeps_committed_execute|].
    intros cur. destruct (rowcount cur =? 0)%Z; [|apply keeps_committed_ret].
    apply keeps_committed_bind; [apply keeps_committed_execute|].
    intros cur'. destruct (results cur') as [| |[|first rest]]; try apply keeps_committed_ret.
    apply keeps_committed_bind; [apply keeps_committed_execute|].
    intros _. apply keeps_committed_ret.
  - apply get_connection_fails_cleanly, keeps_committed_read_sql_query.
Qed.

(** An engine error inside [with self.get_connection()] comes out as one
    [DatabaseError] with the engine message; here for [create_record]. *)
Lemma create_record_engine_failure (data : dict) (st : store) values msg conn :
  map_result (dict_getitem data) (keys data) = Ok values →
  execute (InsertInto (table_name self) (keys data)) values (connect self st)
    = (Raise (Sqlite3Error msg), conn) →
  (create_record self data st).1
    = Raise (DatabaseError ("Database operation failed: " +:+ msg))
  ∧ tables (create_record self data st).2 = tables st.
Proof.
  intros Hvalues Hexec.
  destruct (create_record self data st) as [r st'] eqn:Hrun. simpl.
  revert Hrun. unfold create_record, except_sqlite3.
  destruct (get_connection self _ st) as [r0 st0] eqn:Hconn.
  assert (Hbody : (lift (map_result (dict_getitem data) (keys data))
                     ≫= (fun values =>
                           execute (InsertInto (table_name self) (keys data)) values
                             ≫= fun cursor => mret (lastrowid cursor)))
                    (connect self st)
                  = (Raise (Sqlite3Error msg), conn)).
  { rewrite Conn_bind_eq. unfold lift. rewrite Hvalues, Conn_bind_eq, Hexec. done. }
  unfold get_connection in Hconn. rewrite Hbody in Hconn. injection Hconn as <- <-.
  intros [= <- <-]. split; [done|].
  assert (Hc : committed conn = committed (connect self st)).
  { pose proof (keeps_committed_execute (InsertInto (table_name self) (keys data)) values
                  (connect self st)) as Hk. by rewrite Hexec in Hk. }
  unfold close, rollback, connect in *. simpl in *.
  destruct (transient (db_path self)); [done|]. by rewrite Hc.
Qed.

End FailurePath.

Section InsertFacts.
Context `{Coercions}.

Lemma ident_eqb_refl a : ident_eqb a a = true.
Proof. unfold ident_eqb. apply String.eqb_refl. Qed.

Lemma ident_eqb_distinct labels i j li lj :
  sql_distinct labels → labels !! i = Some li → labels !! j = Some lj →
  ident_eqb li lj = true → i = j.
Proof.
  intros Hnd Hi Hj Heq. unfold ident_eqb in Heq. apply String.eqb_eq in Heq.
  eapply (NoDup_lookup _ i j _ Hnd); rewrite list_lookup_fmap.
  - by rewrite Hi.
  - rewrite Hj. simpl. by rewrite Heq.
Qed.

Lemma sql_distinct_tail l labels : sql_distinct (l :: labels) → sql_distinct labels.
Proof. unfold sql_distinct. simpl. by intros [_ ?]%NoDup_cons. Qed.

Lemma sql_distinct_NoDup labels : sql_distinct labels → NoDup labels.
Proof. unfold sql_distinct. apply NoDup_fmap_1. Qed.

Lemma find_zip_at (labels : list string) (vals : list sqlval) j l v :
  sql_distinct labels → labels !! j = Some l → vals !! j = Some v →
  find (fun p : string * sqlval => ident_eqb p.1 l) (zip labels vals) = Some (l, v).
Proof.
  revert labels vals. induction j as [|j IH]; intros [|l0 labels] [|v0 vals] Hnd Hl Hv;
    try done; simpl in *.
  - injection Hl as ->. injection Hv as ->. by rewrite ident_eqb_refl.
  - destruct (ident_eqb l0 l) eqn:E.
    + by pose proof (ident_eqb_distinct (l0 :: labels) 0 (S j) l0 l Hnd eq_refl Hl E).
    + apply IH; [by eapply sql_distinct_tail|done|done].
Qed.

Lemma supplied_all (defs : list column_def) (labels : list string) (vals : list sqlval) :
  map cd_name defs = labels → length vals = length labels → sql_distinct labels →
  map (supplied labels vals) defs = vals.
Proof.
  intros Hnames Hlen Hnd. apply list_eq. intros j.
  rewrite list_lookup_fmap.
  destruct (defs !! j) as [d|] eqn:Hd; simpl.
  - assert (Hl : labels !! j = Some (cd_name d)).
    { rewrite <- Hnames, list_lookup_fmap, Hd. done. }
    destruct (vals !! j) as [v|] eqn:Hv.
    + unfold supplied. by rewrite (find_zip_at labels vals j (cd_name d) v).
    + apply lookup_ge_None in Hv. apply lookup_lt_Some in Hl. lia.
  - symmetry. apply lookup_ge_None. apply lookup_ge_None in Hd.
    rewrite Hlen, <- Hnames, length_map. done.
Qed.

Lemma insert_row_values (defs : list column_def) (labels : list string) (vals : list sqlval) :
  map cd_name defs = labels → sql_distinct labels → fits defs vals →
  map (fun d => apply_affinity (cd_type d) (supplied labels vals d)) defs = vals.
Proof.
  intros Hnames Hnd Hfits.
  assert (Hlen : length vals = length labels).
  { rewrite <- Hnames, length_map. symmetry. by eapply Forall2_length. }
  pose proof (supplied_all defs labels vals Hnames Hlen Hnd) as Hall.
  apply list_eq. intros j. rewrite list_lookup_fmap.
  destruct (defs !! j) as [d|] eqn:Hd; simpl.
  - assert (Hv : vals !! j = Some (supplied labels vals d)).
    { rewrite <- Hall at 1. rewrite list_lookup_fmap, Hd. done. }
    rewrite Hv. f_equal.
    exact (Forall2_lookup_lr _ _ _ _ _ _ Hfits Hd Hv).
  - symmetry. apply lookup_ge_None. apply lookup_ge_None in Hd.
    rewrite Hlen, <- Hnames, length_map. done.
Qed.

Lemma find_none_all {A} (f : A → bool) (l : list A) :
  (∀ x, x ∈ l → f x = false) → find f l = None.
Proof.
  induction l as [|x l IH]; intros Hall; simpl; [done|].
  rewrite (Hall x) by (by apply elem_of_cons; left).
  apply IH. intros y Hy. apply Hall. by apply elem_of_cons; right.
Qed.

Lemma has_all_columns (t : table) (labels : list string) :
  map cd_name (t_columns t) = labels →
  find (fun c => negb (has_column t c)) labels = None.
Proof.
  intros <-. apply find_none_all. intros c Hc.
  apply list_elem_of_fmap in Hc as (d & -> & Hd).
  apply negb_false_iff, existsb_exists. exists d. split; [by apply list_elem_of_In|].
  apply ident_eqb_refl.
Qed.

Lemma insert_by_rowid_perm (r : Z * list sqlval) rows :
  insert_by_rowid r rows ≡ₚ r :: rows.
Proof.
  induction rows as [|r' rows IH]; simpl; [done|].
  destruct (r.1 <? r'.1)%Z; [done|]. rewrite IH. apply Permutation_swap.
Qed.

Lemma max_rowid_nonneg rows : (0 ≤ max_rowid rows)%Z.
Proof. induction rows; simpl; lia. Qed.

Lemma max_rowid_perm rows rows' : rows ≡ₚ rows' → max_rowid rows = max_rowid rows'.
Proof. induction 1; simpl; lia. Qed.

Lemma max_rowid_insert (r : Z * list sqlval) rows :
  max_rowid (insert_by_rowid r rows) = Z.max r.1 (max_rowid rows).
Proof. by rewrite (max_rowid_perm _ _ (insert_by_rowid_perm r rows)). Qed.

Lemma rowid_alias_lookup defs i d :
  rowid_alias defs = Some (i, d) → defs !! i = Some d ∧ is_rowid_alias d = true.
Proof.
  revert i. induction defs as [|d0 defs IH]; intros i; simpl; [done|].
  destruct (is_rowid_alias d0) eqn:E.
  - by intros [= <- <-].
  - destruct (rowid_alias defs) as [[i' d']|]; simpl; [|done].
    intros [= <- <-]. by apply IH.
Qed.

Lemma rowid_alias_none defs d :
  rowid_alias defs = None → d ∈ defs → is_rowid_alias d = false.
Proof.
  induction defs as [|d0 defs IH]; simpl; intros Hnone Hd.
  - by apply elem_of_nil in Hd.
  - destruct (is_rowid_alias d0) eqn:E; [done|].
    destruct (rowid_alias defs) as [[i' d']|]; [done|].
    apply elem_of_cons in Hd as [->|Hd]; [done|by apply IH].
Qed.

Lemma pk_conflict_none defs k vals (others : list (list sqlval)) :
  (∀ j d, defs !! j = Some d → cd_pk d = true → is_rowid_alias d = false →
          ∀ o, o ∈ others → sql_eqb (nth (k + j) o SNull) (nth (k + j) vals SNull) = false) →
  pk_conflict defs k vals others = None.
Proof.
  revert k. induction defs as [|d defs IH]; intros k Hall; simpl; [done|].
  assert (Hhead : cd_pk d && negb (is_rowid_alias d)
                  && existsb (fun o => sql_eqb (nth k o SNull) (nth k vals SNull)) others
                  = false).
  { destruct (cd_pk d) eqn:Hpk; [|done].
    destruct (is_rowid_alias d) eqn:Hal; [done|]. simpl.
    apply not_true_is_false. intros (o & Ho%list_elem_of_In & Heq)%existsb_exists.
    specialize (Hall 0%nat d eq_refl Hpk Hal o Ho). rewrite Nat.add_0_r in Hall.
    congruence. }
  rewrite Hhead. apply IH. intros j d' Hd' Hpk Hal o Ho.
  replace (S k + j)%nat with (k + S j)%nat by lia. by apply (Hall (S j) d').
Qed.

Lemma no_alias_no_autoincrement (t : table) :
  (∀ d, d ∈ t_columns t → cd_autoincrement d = true → is_rowid_alias d = true) →
  rowid_alias (t_columns t) = None →
  uses_autoincrement t = false.
Proof.
  intros Hauto Hnone. unfold uses_autoincrement.
  apply not_true_is_false. intros (d & Hd%list_elem_of_In & Ha)%existsb_exists.
  pose proof (rowid_alias_none _ d Hnone Hd). rewrite (Hauto d Hd Ha) in *. done.
Qed.

(** One row goes in when its values fit the columns, its key is fresh
    and a rowid is left. *)
Lemma insert_row_ok tbl (t : table) labels vals :
  map cd_name (t_columns t) = labels → sql_distinct labels → fits (t_columns t) vals →
  (∀ d, d ∈ t_columns t → cd_autoincrement d = true → is_rowid_alias d = true) →
  (∀ i d, rowid_alias (t_columns t) = Some (i, d) →
          ∃ z, nth i vals SNull = SInt z ∧ in_int64 z = true
               ∧ ∀ r, r ∈ t_rows t → r.1 ≠ z) →
  (rowid_alias (t_columns t) = None → in_int64 (max_rowid (t_rows t) + 1) = true) →
  pk_conflict (t_columns t) 0 vals (t_rows t).*2 = None →
  ∃ rid sq,
    insert_row tbl t labels vals =
      Ok ({| rowcount := 1; lastrowid := rid; results := NoRows |},
          {| t_columns := t_columns t;
             t_rows := insert_by_rowid (rid, vals) (t_rows t);
             t_sequence := sq |})
    ∧ (∀ i d, rowid_alias (t_columns t) = Some (i, d) → nth i vals SNull = SInt rid)
    ∧ (rowid_alias (t_columns t) = None → rid = (max_rowid (t_rows t) + 1)%Z).
Proof.
  intros Hnames Hnd Hfits Hauto Halias Hnoalias Hpk.
  unfold insert_row. rewrite (insert_row_values _ _ _ Hnames Hnd Hfits).
  destruct (rowid_alias (t_columns t)) as [[i d]|] eqn:Hra.
  - destruct (Halias i d eq_refl) as (z & Hz & Hrange & Hfresh).
    rewrite Hz.
    assert (Hex : existsb (fun r : Z * list sqlval => (r.1 =? z)%Z) (t_rows t) = false).
    { apply not_true_is_false. intros (r & Hr%list_elem_of_In & Heq)%existsb_exists.
      apply Z.eqb_eq in Heq. by apply (Hfresh r Hr). }
    rewrite Hex. simpl. rewrite Hrange. simpl. rewrite Hpk.
    eexists z, _. split; [reflexivity|]. split; [|done].
    by intros i' d' [= <- <-].
  - assert (Hna : uses_autoincrement t = false) by by apply no_alias_no_autoincrement.
    simpl. unfold next_rowid. rewrite Hna.
    pose proof (max_rowid_nonneg (t_rows t)).
    replace (Z.max (max_rowid (t_rows t)) 0) with (max_rowid (t_rows t)) by lia.
    rewrite (Hnoalias eq_refl). simpl. rewrite Hpk.
    eexists _, _. split; [reflexivity|]. split; [done|]. by intros _.
Qed.

Lemma in_int64_bounds z : in_int64 z = true ↔ (min_int64 ≤ z ≤ max_int64)%Z.
Proof. unfold in_int64. rewrite andb_true_iff, !Z.leb_le. done. Qed.

Lemma execute_insert_ok tbl labels (params : list cell) vals conn (t : table) :
  working conn !! tbl = Some t →
  labels ≠ [] →
  length params = length labels →
  map_result bind_param params = Ok vals →
  map cd_name (t_columns t) = labels → sql_distinct labels → fits (t_columns t) vals →
  (∀ d, d ∈ t_columns t → cd_autoincrement d = true → is_rowid_alias d = true) →
  (∀ i d, rowid_alias (t_columns t) = Some (i, d) →
          ∃ z, nth i vals SNull = SInt z ∧ in_int64 z = true
               ∧ ∀ r, r ∈ t_rows t → r.1 ≠ z) →
  (rowid_alias (t_columns t) = None → in_int64 (max_rowid (t_rows t) + 1) = true) →
  pk_conflict (t_columns t) 0 vals (t_rows t).*2 = None →
  ∃ rid sq,
    execute (InsertInto tbl labels) params conn =
      (Ok {| rowcount := 1; lastrowid := rid; results := NoRows |},
       {| committed := committed conn;
          working := <[tbl := {| t_columns := t_columns t;
                                 t_rows := insert_by_rowid (rid, vals) (t_rows t);
                                 t_sequence := sq |}]> (working conn);
          journal := journal conn ++ [(InsertInto tbl labels, params)] |})
    ∧ (∀ i d, rowid_alias (t_columns t) = Some (i, d) → nth i vals SNull = SInt rid)
    ∧ (rowid_alias (t_columns t) = None → rid = (max_rowid (t_rows t) + 1)%Z).
Proof.
  intros Ht Hne Hlen Hbind Hnames Hnd Hfits Hauto Halias Hnoalias Hpk.
  destruct (insert_row_ok tbl t labels vals Hnames Hnd Hfits Hauto Halias Hnoalias Hpk)
    as (rid & sq & Hrow & Hrid).
  exists rid, sq. split; [|done].
  unfold execute, record, compile_bind_run, bind_params, run, prepare. cbn [working].
  rewrite Ht. unfold insert_checks.
  destruct labels as [|l labels'] eqn:Hl; [done|]. rewrite <- Hl in *.
  assert (Hlen0 : (length labels =? 0)%nat = false) by (rewrite Hl; done).
  rewrite Hlen0, (has_all_columns t labels Hnames). simpl mbind at 1. unfold result_bind at 1.
  unfold placeholders. rewrite Hlen, Nat.eqb_refl, Hbind.
  simpl. by rewrite Hrow.
Qed.

Lemma holds_insert defs rows vs1 rid v :
  holds defs rows vs1 →
  (∀ i d, rowid_alias defs = Some (i, d) → nth i v SNull = SInt rid) →
  (rowid_alias defs = None → rid = (max_rowid rows + 1)%Z) →
  holds defs (insert_by_rowid (rid, v) rows) (vs1 ++ [v]).
Proof.
  intros (Hperm & Halias & Hmax) Hnew Hrid. split; [|split].
  - rewrite (fmap_Permutation _ _ _ (insert_by_rowid_perm (rid, v) rows)).
    rewrite fmap_cons, Hperm. simpl. apply Permutation_cons_append.
  - intros i d Hra r Hr.
    rewrite (insert_by_rowid_perm (rid, v) rows) in Hr.
    apply elem_of_cons in Hr as [->|Hr]; [by apply (Hnew i d)|by apply (Halias i d)].
  - intros Hnone. rewrite max_rowid_insert, length_app. simpl.
    specialize (Hmax Hnone). rewrite (Hrid Hnone). lia.
Qed.

(** The rows of a batch go in one after the other. *)
Lemma executemany_insert_ok tbl labels :
  labels ≠ [] → sql_distinct labels →
  ∀ (ps : list (list cell)) (vs : list (list sqlval)),
    Forall2 (fun p v => length p = length labels ∧ map_result bind_param p = Ok v) ps vs →
    ∀ vs1 conn (t : table),
      working conn !! tbl = Some t →
      map cd_name (t_columns t) = labels →
      (∀ d, d ∈ t_columns t → cd_autoincrement d = true → is_rowid_alias d = true) →
      Forall (fits (t_columns t)) vs →
      holds (t_columns t) (t_rows t) vs1 →
      keys_distinct (t_columns t) (vs1 ++ vs) →
      alias_is_integer (t_columns t) vs →
      (Z.of_nat (length (vs1 ++ vs)) ≤ max_int64)%Z →
      ∃ conn' t',
        executemany (InsertInto tbl labels) ps conn = (Ok (), conn')
        ∧ working conn' = <[tbl := t']> (working conn)
        ∧ committed conn' = committed conn
        ∧ journal conn' = (journal conn ++ map (fun p => (InsertInto tbl labels, p)) ps)%list
        ∧ t_columns t' = t_columns t
        ∧ holds (t_columns t) (t_rows t') (vs1 ++ vs).
Proof.
  intros Hne Hnd ps vs Hrows.
  induction Hrows as [|p v ps vs [Hlen Hbind] Hrows IH];
    intros vs1 conn t Ht Hnames Hauto Hfits Hholds Hkeys Hint Hsize.
  - exists conn, t. simpl. rewrite !app_nil_r. split_and!; try done.
    by rewrite insert_id.
  - apply Forall_cons in Hfits as [Hfit Hfits].
    pose proof Hholds as (Hperm & Halias & Hmax).
    assert (Hearlier : ∀ o, o ∈ (t_rows t).*2 →
              ∃ m, (m < length vs1)%nat ∧ (vs1 ++ v :: vs) !! m = Some o).
    { intros o Ho. rewrite Hperm in Ho. apply list_elem_of_lookup in Ho as [m Hm].
      exists m. split; [by eapply lookup_lt_Some|]. by apply lookup_app_l_Some. }
    assert (Hv : (vs1 ++ v :: vs) !! length vs1 = Some v) by by rewrite list_lookup_middle.
    destruct (execute_insert_ok tbl labels p v conn t Ht Hne Hlen Hbind Hnames Hnd Hfit Hauto)
      as (rid & sq & Hexec & Hrid1 & Hrid2).
    + intros i d Hra.
      destruct (Hint i d v Hra) as (z & Hz & Hrange); [by apply elem_of_cons; left|].
      exists z. repeat split; try done. intros r Hr Heq.
      assert (Ho : r.2 ∈ (t_rows t).*2) by by apply list_elem_of_fmap_2.
      destruct (Hearlier _ Ho) as (m & Hm & Hlook).
      destruct (Hkeys m (length vs1) r.2 v Hm Hlook Hv) as [Hk _].
      apply (Hk i d Hra). rewrite (Halias i d Hra r Hr), Hz. by rewrite Heq.
    + intros Hnone. specialize (Hmax Hnone). apply in_int64_bounds.
      rewrite length_app in Hsize. simpl in Hsize. unfold min_int64. lia.
    + apply pk_conflict_none. intros j d Hd Hpk Hal o Ho. simpl.
      destruct (Hearlier _ Ho) as (m & Hm & Hlook).
      destruct (Hkeys m (length vs1) o v Hm Hlook Hv) as [_ Hk].
      by apply (Hk j d).
    + set (t' := {| t_columns := t_columns t;
                    t_rows := insert_by_rowid (rid, v) (t_rows t);
                    t_sequence := sq |}) in *.
      cbn [executemany]. rewrite Conn_bind_eq, Hexec.
      set (conn1 := {| committed := committed conn;
                       working := <[tbl := t']> (working conn);
                       journal := journal conn ++ [(InsertInto tbl labels, p)] |}).
      destruct (IH (vs1 ++ [v]) conn1 t')
        as (conn' & t'' & Hmany & Hw & Hc & Hj & Hcols & Hh).
      * cbn [working]. apply lookup_insert_eq.
      * done.
      * done.
      * done.
      * by apply holds_insert.
      * by rewrite <- app_assoc.
      * intros i d v' Hra Hv'. apply (Hint i d v' Hra). by apply elem_of_cons; right.
      * by rewrite <- app_assoc.
      * exists conn', t''. rewrite Hmany. subst conn1. cbn [working committed journal] in *.
        split_and!; try done.
        -- by rewrite Hw, insert_insert_eq.
        -- rewrite Hj, <- app_assoc. done.
        -- by rewrite <- app_assoc in Hh.
Qed.

End InsertFacts.

Section RoundTrip.
Context `{Coercions}.
Variable self : DatabaseManager.
Variable to_datetime : Series → result unit.

Lemma select_columns_at (df : DataFrame string) j l s :
  NoDup (df_columns df) →
  df_columns df !! j = Some l → df_data df !! j = Some s →
  select_columns df l = [s].
Proof.
  unfold select_columns. generalize (df_data df) as data. revert j.
  induction (df_columns df) as [|c cols IH]; intros j data Hnd Hl Hs; [done|].
  destruct data as [|d data]; [by destruct j|].
  apply NoDup_cons in Hnd as [Hc Hnd]. simpl.
  destruct j as [|j]; simpl in *.
  - injection Hl as ->. injection Hs as ->.
    rewrite filter_cons_True by done. by rewrite filter_label_absent.
  - rewrite filter_cons_False; [by eapply IH|].
    simpl. intros ->. apply Hc. by eapply list_elem_of_lookup_2.
Qed.

Lemma for_each_types_lookup (df : DataFrame string) cols (acc types : gmap string string) :
  NoDup cols →
  for_each (fun types col => ty ← infer_column_type to_datetime df col; Ok (<[col := ty]> types))
           cols acc = Ok types →
  ∀ l, l ∈ cols → ∃ ty, infer_column_type to_datetime df l = Ok ty ∧ types !! l = Some ty.
Proof.
  revert acc. induction cols as [|col cols IH]; intros acc Hnd; simpl.
  - intros _ l Hl. by apply elem_of_nil in Hl.
  - apply NoDup_cons in Hnd as [Hcol Hnd].
    destruct (infer_column_type to_datetime df col) as [ty|e] eqn:Hty; simpl; [|done].
    intros Hrest l [->|Hl]%elem_of_cons.
    + exists ty. split; [done|].
      assert (Hkeep : ∀ cols' (acc' : gmap string string) types',
                 col ∉ cols' →
                 for_each (fun types col => ty ← infer_column_type to_datetime df col;
                                            Ok (<[col := ty]> types)) cols' acc' = Ok types' →
                 types' !! col = acc' !! col).
      { clear. induction cols' as [|c cols' IH']; intros acc' types' Hnot; simpl.
        - by intros [= ->].
        - apply not_elem_of_cons in Hnot as [Hne Hnot].
          destruct (infer_column_type to_datetime df c); simpl; [|done].
          intros Hr. rewrite (IH' _ _ Hnot Hr). by rewrite lookup_insert_ne. }
      rewrite (Hkeep _ _ _ Hcol Hrest). apply lookup_insert_eq.
    + by apply (IH _ Hnd Hrest).
Qed.

Lemma infer_column_type_cases (df : DataFrame string) l s :
  select_columns df l = [s] →
  infer_column_type to_datetime df l =
    if forallb isna (values s) then Ok "str"
    else match dtype s with
         | Datetime64 => Ok "date"
         | Int64 => Ok "int"
         | Float64 => Ok "float"
         | Object =>
             is_date ← is_date_column to_datetime (dropna s);
             if (is_date : bool) then Ok "date" else Ok "str"
         end.
Proof.
  intros Hsel. unfold infer_column_type, getitem. rewrite Hsel. simpl.
  destruct (forallb isna (values s)) eqn:Hna; [done|].
  rewrite forallb_isna_present in Hna.
  unfold is_datetime64_any_dtype, is_integer_dtype, is_float_dtype, len.
  rewrite dropna_dtype. fold (present s). rewrite Hna. by destruct (dtype s).
Qed.

(** The type inferred for a column keeps every value of the column as it
    is, once the column holds what its dtype announces. *)
Lemma inferred_type_keeps_values (df : DataFrame string) l s ty c :
  select_columns df l = [s] →
  infer_column_type to_datetime df l = Ok ty →
  typed_series s = true → c ∈ values s →
  apply_affinity (_map_type_to_sqlite ty) (stored c) = stored c.
Proof.
  intros Hsel Hty Htyped Hc.
  assert (Hcell : typed_cell (dtype s) c = true).
  { unfold typed_series in Htyped. rewrite forallb_forall in Htyped.
    apply Htyped. by apply list_elem_of_In. }
  revert Hty. rewrite (infer_column_type_cases df l s Hsel).
  destruct (forallb isna (values s)) eqn:Hna.
  - intros [= <-]. rewrite forallb_forall in Hna.
    specialize (Hna c (proj1 (list_elem_of_In _ _) Hc)). by destruct c.
  - destruct (dtype s) eqn:Hd.
    + intros [= <-]; by destruct c.
    + intros [= <-]; by destruct c.
    + intros [= <-]; by destruct c.
    + destruct (is_date_column to_datetime (dropna s)) as [[]|]; simpl;
        [intros [= <-]|intros [= <-]|done]; by destruct c.
Qed.

Lemma inferred_int_dtype (df : DataFrame string) l s ty :
  select_columns df l = [s] →
  infer_column_type to_datetime df l = Ok ty →
  _map_type_to_sqlite ty = INTEGER →
  dtype s = Int64.
Proof.
  intros Hsel. rewrite (infer_column_type_cases df l s Hsel).
  destruct (forallb isna (values s)); [by intros [= <-]|].
  destruct (dtype s); try done.
  - by intros [= <-].
  - by intros [= <-].
  - destruct (is_date_column to_datetime (dropna s)) as [[]|]; simpl; try done;
      by intros [= <-].
Qed.

Lemma bind_insert_value d c :
  typed_cell d c = true → bind_param (insert_value c) = Ok (stored c).
Proof.
  unfold typed_cell. destruct d, c; simpl; try done.
  intros [Hr _]%andb_prop. by rewrite Hr.
Qed.

Lemma stored_eqb d a b :
  typed_cell d a = true → typed_cell d b = true →
  sql_eqb (stored a) (stored b) = cell_eqb a b.
Proof. by destruct d, a, b. Qed.

Lemma distinct_positions (l : list cell) m k a b :
  all_distinct (filter (fun c => notna c = true) l) = true →
  (m < k)%nat → l !! m = Some a → l !! k = Some b →
  notna a = true → notna b = true → cell_eqb a b = false.
Proof.
  revert m k. induction l as [|x l IH]; intros m k Hd Hmk Hm Hk Ha Hb; [done|].
  destruct k as [|k]; [lia|]. simpl in Hk.
  destruct m as [|m]; simpl in Hm.
  - injection Hm as ->. rewrite filter_cons_True in Hd by done. simpl in Hd.
    apply andb_prop in Hd as [Hx _]. apply negb_true_iff in Hx.
    apply not_true_is_false. intros Heq. rewrite <- not_true_iff_false in Hx. apply Hx.
    apply existsb_exists. exists b. split; [|done].
    apply list_elem_of_In, list_elem_of_filter. split; [done|].
    by eapply list_elem_of_lookup_2.
  - apply (IH m k); try done; [|lia].
    destruct (notna x) eqn:Hx.
    + rewrite filter_cons_True in Hd by done. simpl in Hd. by apply andb_prop in Hd as [_ ?].
    + rewrite filter_cons_False in Hd; [done|]. by rewrite Hx.
Qed.

Lemma filter_zip_at {A} (labels : list string) (xs : list A) j l x :
  NoDup labels → labels !! j = Some l → xs !! j = Some x →
  filter (fun p : string * A => p.1 = l) (zip labels xs) = [(l, x)].
Proof.
  revert j xs. induction labels as [|c labels IH]; intros j xs Hnd Hl Hx; [done|].
  destruct xs as [|y xs]; [by destruct j|].
  apply NoDup_cons in Hnd as [Hc Hnd]. simpl.
  destruct j as [|j]; simpl in *.
  - injection Hl as ->. injection Hx as ->.
    rewrite filter_cons_True by done. f_equal.
    clear IH Hnd. revert xs. induction labels as [|c labels IH]; intros xs; [done|].
    destruct xs as [|y xs]; [done|]. simpl.
    apply not_elem_of_cons in Hc as [Hne Hc].
    rewrite filter_cons_False by (simpl; congruence). by apply IH.
  - rewrite filter_cons_False; [by eapply IH|].
    simpl. intros ->. apply Hc. by eapply list_elem_of_lookup_2.
Qed.

Lemma row_getitem_at (labels : list string) (cells : list cell) j l c :
  NoDup labels → labels !! j = Some l → cells !! j = Some c →
  row_getitem (zip labels cells) l = Ok c.
Proof.
  intros Hnd Hl Hc. unfold row_getitem.
  by rewrite (filter_zip_at labels cells j l c).
Qed.

Lemma map_result_Forall2 {A B} (g : A → result B) xs ys :
  Forall2 (fun x y => g x = Ok y) xs ys → map_result g xs = Ok ys.
Proof. induction 1 as [|x y xs ys Hxy _ IH]; simpl; [done|]. by rewrite Hxy, IH. Qed.

Lemma row_values (labels : list string) (cells : list cell) (f : cell → cell) :
  NoDup labels → length cells = length labels →
  map_result (fun col => val ← row_getitem (zip labels cells) col; Ok (f val)) labels
  = Ok (map f cells).
Proof.
  intros Hnd Hlen. apply map_result_Forall2.
  apply Forall2_same_length_lookup_2; [by rewrite length_map|].
  intros j l y Hl Hy. rewrite list_lookup_fmap in Hy.
  destruct (cells !! j) as [c|] eqn:Hc; [|done]. injection Hy as <-.
  by rewrite (row_getitem_at labels cells j l c).
Qed.

Lemma row_cells_length {L} (df : DataFrame L) k :
  length (row_cells df k) = length (df_data df).
Proof. unfold row_cells. by rewrite length_map. Qed.

Lemma data_to_insert_rows (df : DataFrame string) :
  NoDup (df_columns df) → length (df_columns df) = length (df_data df) →
  map_result (fun row =>
                map_result (fun col => val ← row_getitem row col; Ok (insert_value val))
                           (df_columns df))
             (iterrows df)
  = Ok (map (map insert_value) (source_rows df)).
Proof.
  intros Hnd Hlen. apply map_result_Forall2.
  unfold iterrows, source_rows.
  apply Forall2_fmap_l, Forall2_fmap_r, Forall2_fmap_r.
  apply Forall_Forall2_diag, Forall_forall. intros k _.
  apply row_values; [done|]. by rewrite row_cells_length.
Qed.

Lemma nth_in_values (s : Series) k :
  (k < length (values s))%nat → values s !! k = Some (nth k (values s) PNA).
Proof.
  intros Hk. destruct (nth_lookup_or_length (values s) k PNA) as [Hl|Hl]; [done|lia].
Qed.

Lemma typed_nth (s : Series) k :
  typed_series s = true → (k < length (values s))%nat →
  typed_cell (dtype s) (nth k (values s) PNA) = true.
Proof.
  intros Htyped Hk. unfold typed_series in Htyped. rewrite forallb_forall in Htyped.
  apply Htyped, list_elem_of_In. eapply list_elem_of_lookup_2. by apply nth_in_values.
Qed.

Lemma stored_row_lookup {L} (df : DataFrame L) k j s :
  df_data df !! j = Some s →
  nth j (map stored (row_cells df k)) SNull = stored (nth k (values s) PNA).
Proof.
  intros Hs. unfold row_cells. apply nth_lookup_Some.
  by rewrite !list_lookup_fmap, Hs.
Qed.

Lemma filter_all {A} (P : A → Prop) `{∀ x, Decision (P x)} (l : list A) :
  (∀ x, x ∈ l → P x) → filter P l = l.
Proof.
  induction l as [|x l IH]; intros Hall; [done|].
  rewrite filter_cons_True by (apply Hall; by apply elem_of_cons; left).
  f_equal. apply IH. intros y Hy. apply Hall. by apply elem_of_cons; right.
Qed.

Lemma insert_columns_all (df : DataFrame string) (schema : Schema) :
  insert_columns df schema = df_columns df.
Proof.
  unfold insert_columns.
  destruct (bool_decide (primary_key schema = "id")); simpl; [|done].
  destruct (bool_decide ("id" ∈ df_columns df)) eqn:Hin; simpl; [done|].
  apply bool_decide_eq_false in Hin. apply filter_all. intros x Hx ->. done.
Qed.

Lemma read_all_existing (st : store) (t : table) :
  transient (db_path self) = false →
  tables st !! table_name self = Some t →
  read_all self st =
    (Ok {| qf_columns := map cd_name (t_columns t); qf_rows := (t_rows t).*2 |},
     {| tables := tables st;
        statements := statements st ++ [(SelectAll (table_name self), [])] |}).
Proof.
  intros Htr Ht.
  unfold read_all, except_sqlite3, get_connection, connect, close, commit, read_sql_query.
  rewrite Htr. unfold execute, record, compile_bind_run, run, prepare. cbn [working].
  rewrite Ht. done.
Qed.

Section Inferred.
Variable df : DataFrame string.
Variable schema : Schema.
Hypothesis Hcolumns : columns schema = df_columns df.
Hypothesis Htypes : infer_column_types to_datetime df = Ok (types schema).
Hypothesis Hkey : detect_primary_key df (df_columns df) = Ok (primary_key schema).
Hypothesis Hlen : length (df_columns df) = length (df_data df).
Hypothesis Hrows : Forall (fun s => length (values s) = df_len df) (df_data df).
Hypothesis Hdistinct : sql_distinct (df_columns df).
Hypothesis Htyped : Forall (fun s => typed_series s = true) (df_data df).
Hypothesis Hid :
  primary_key schema = "id" →
  ∀ s, select_columns df "id" = [s] → dtype s = Int64 ∧ all_distinct (present s) = true.

Lemma col_def_name l : cd_name (col_def schema l) = l.
Proof. unfold col_def. by repeat case_decide. Qed.

Lemma col_def_pk l : cd_pk (col_def schema l) = true → l = primary_key schema.
Proof. unfold col_def. by repeat case_decide. Qed.

Lemma col_def_autoincrement l :
  cd_autoincrement (col_def schema l) = true → is_rowid_alias (col_def schema l) = true.
Proof. unfold col_def. by repeat case_decide. Qed.

Lemma defs_names : map cd_name (map (col_def schema) (df_columns df)) = df_columns df.
Proof.
  rewrite map_map. rewrite <- (map_id (df_columns df)) at 2.
  apply map_ext. intros l. apply col_def_name.
Qed.

Lemma defs_lookup j d :
  map (col_def schema) (df_columns df) !! j = Some d →
  ∃ l s, df_columns df !! j = Some l ∧ d = col_def schema l ∧ df_data df !! j = Some s.
Proof.
  intros Hd. apply list_lookup_fmap_Some in Hd as (l & -> & Hl).
  destruct (df_data df !! j) as [s|] eqn:Hs.
  - by exists l, s.
  - apply lookup_ge_None in Hs. apply lookup_lt_Some in Hl. lia.
Qed.

Lemma column_facts j l s :
  df_columns df !! j = Some l → df_data df !! j = Some s →
  select_columns df l = [s]
  ∧ typed_series s = true
  ∧ length (values s) = df_len df
  ∧ ∃ ty, infer_column_type to_datetime df l = Ok ty ∧ types schema !! l = Some ty.
Proof.
  intros Hl Hs. pose proof (sql_distinct_NoDup _ Hdistinct) as Hnd.
  split; [by eapply select_columns_at|].
  split; [by eapply (proj1 (Forall_lookup _ _) Htyped)|].
  split; [by eapply (proj1 (Forall_lookup _ _) Hrows)|].
  apply (for_each_types_lookup df _ _ _ Hnd Htypes). by eapply list_elem_of_lookup_2.
Qed.

Lemma key_column_distinct s :
  select_columns df (primary_key schema) = [s] → all_distinct (present s) = true.
Proof.
  intros Hsel. destruct (decide (primary_key schema = "id")) as [Heq|Hne].
  - rewrite Heq in Hsel. by destruct (Hid Heq s Hsel).
  - pose proof (sql_distinct_NoDup _ Hdistinct) as Hnd.
    pose proof (detect_primary_key_select_spec df (df_columns df) Hlen Hnd
                  (reflexivity _)) as Hspec.
    rewrite Hkey in Hspec. injection Hspec as Hspec. unfold select_spec in Hspec.
    destruct (find (qualifies df) (df_columns df)) as [col|] eqn:Hfind; [|done].
    apply find_some in Hfind as [_ Hq]. subst col.
    unfold qualifies in Hq. rewrite Hsel in Hq. by apply andb_prop in Hq as [_ ?].
Qed.

Lemma integer_key_column l s :
  select_columns df l = [s] → l ∈ df_columns df →
  is_rowid_alias (col_def schema l) = true →
  dtype s = Int64 ∧ all_distinct (present s) = true.
Proof.
  intros Hsel Hin Halias. unfold is_rowid_alias in Halias.
  apply andb_prop in Halias as [Hpk Hty]. apply col_def_pk in Hpk. subst l.
  split; [|by apply key_column_distinct].
  destruct (decide (primary_key schema = "id")) as [Heq|Hne].
  - rewrite Heq in Hsel. by destruct (Hid Heq s Hsel).
  - pose proof (sql_distinct_NoDup _ Hdistinct) as Hnd.
    destruct (for_each_types_lookup df _ _ _ Hnd Htypes _ Hin) as (ty & Hty' & Hlook).
    apply (inferred_int_dtype df (primary_key schema) s ty Hsel Hty').
    revert Hty. unfold col_def. rewrite Hlook. simpl.
    repeat case_decide; try done. simpl. by destruct (_map_type_to_sqlite ty).
Qed.

Lemma column_keeps_values j l s c :
  df_columns df !! j = Some l → df_data df !! j = Some s → c ∈ values s →
  apply_affinity (cd_type (col_def schema l)) (stored c) = stored c.
Proof.
  intros Hl Hs Hc.
  destruct (column_facts j l s Hl Hs) as (Hsel & Hty & _ & ty & Hinf & Hlook).
  assert (Hcell : typed_cell (dtype s) c = true).
  { unfold typed_series in Hty. rewrite forallb_forall in Hty.
    apply Hty. by apply list_elem_of_In. }
  destruct (is_rowid_alias (col_def schema l)) eqn:Halias.
  - destruct (integer_key_column l s Hsel) as [Hd _];
      [by eapply list_elem_of_lookup_2|done|].
    apply andb_prop in Halias as [_ Hint].
    destruct (cd_type (col_def schema l)); try done.
    rewrite Hd in Hcell. by destruct c.
  - assert (Hcd : cd_type (col_def schema l) = _map_type_to_sqlite ty).
    { revert Halias. unfold col_def, is_rowid_alias. rewrite Hlook. simpl.
      by repeat case_decide. }
    rewrite Hcd. by eapply inferred_type_keeps_values.
Qed.

Lemma stored_rows_lookup k v :
  map (map stored) (source_rows df) !! k = Some v →
  (k < df_len df)%nat ∧ v = map stored (row_cells df k).
Proof.
  unfold source_rows. rewrite !list_lookup_fmap.
  destruct (seq 0 (df_len df) !! k) as [k'|] eqn:Hk; [|done].
  apply lookup_seq in Hk as [-> Hk]. simpl. by intros [= <-].
Qed.

Lemma stored_rows_fit :
  Forall (fits (map (col_def schema) (df_columns df))) (map (map stored) (source_rows df)).
Proof.
  apply Forall_lookup. intros k v [Hk ->]%stored_rows_lookup.
  unfold fits, row_cells.
  apply Forall2_fmap_l, Forall2_fmap_r, Forall2_fmap_r.
  apply Forall2_same_length_lookup_2; [done|]. intros j l s Hl Hs.
  apply (column_keeps_values j l s _ Hl Hs).
  destruct (column_facts j l s Hl Hs) as (_ & _ & Hn & _).
  eapply list_elem_of_lookup_2. apply nth_in_values. by rewrite Hn.
Qed.

Lemma stored_rows_bind :
  Forall2 (fun p v => length p = length (df_columns df)
                      ∧ map_result bind_param p = Ok v)
          (map (map insert_value) (source_rows df))
          (map (map stored) (source_rows df)).
Proof.
  apply Forall2_fmap_l, Forall2_fmap_r.
  apply Forall_Forall2_diag, Forall_forall. intros cells Hcells.
  unfold source_rows in Hcells. apply list_elem_of_fmap in Hcells as (k & -> & Hk).
  apply elem_of_seq in Hk as [_ Hk]. simpl in Hk.
  split; [by rewrite length_map, row_cells_length|].
  apply map_result_Forall2. unfold row_cells.
  apply Forall2_fmap_l, Forall2_fmap_r, Forall2_fmap_l, Forall2_fmap_r.
  apply Forall_Forall2_diag, Forall_lookup. intros j s Hs.
  destruct (df_columns df !! j) as [l|] eqn:Hl.
  - destruct (column_facts j l s Hl Hs) as (_ & Hty & Hn & _).
    apply (bind_insert_value (dtype s)). apply typed_nth; [done|]. by rewrite Hn.
  - apply lookup_ge_None in Hl. apply lookup_lt_Some in Hs. lia.
Qed.

Lemma stored_rows_alias_integer :
  alias_is_integer (map (col_def schema) (df_columns df))
                   (map (map stored) (source_rows df)).
Proof.
  intros i d v Hra Hv. apply list_elem_of_lookup in Hv as [k Hv].
  apply stored_rows_lookup in Hv as [Hk ->].
  apply rowid_alias_lookup in Hra as [Hd Halias].
  apply defs_lookup in Hd as (l & s & Hl & -> & Hs).
  destruct (column_facts i l s Hl Hs) as (Hsel & Hty & Hn & _).
  destruct (integer_key_column l s Hsel) as [Hdt _];
    [by eapply list_elem_of_lookup_2|done|].
  rewrite (stored_row_lookup df k i s Hs).
  pose proof (typed_nth s k Hty) as Hcell. rewrite Hn, Hdt in Hcell.
  specialize (Hcell Hk).
  destruct (nth k (values s) PNA) as [z| | | |]; try done.
  exists z. split; [done|]. by apply andb_prop in Hcell as [? _].
Qed.

Lemma stored_rows_keys :
  keys_distinct (map (col_def schema) (df_columns df))
                (map (map stored) (source_rows df)).
Proof.
  intros m k o v Hmk [Hm ->]%stored_rows_lookup [Hk ->]%stored_rows_lookup.
  split.
  - intros i d Hra. apply rowid_alias_lookup in Hra as [Hd Halias].
    apply defs_lookup in Hd as (l & s & Hl & -> & Hs).
    destruct (column_facts i l s Hl Hs) as (Hsel & Hty & Hn & _).
    destruct (integer_key_column l s Hsel) as [Hdt Hdist];
      [by eapply list_elem_of_lookup_2|done|].
    rewrite !(stored_row_lookup df _ i s Hs).
    pose proof (typed_nth s m Hty) as Ha. pose proof (typed_nth s k Hty) as Hb.
    rewrite Hn, Hdt in Ha, Hb. specialize (Ha Hm). specialize (Hb Hk).
    assert (Hne : cell_eqb (nth m (values s) PNA) (nth k (values s) PNA) = false).
    { apply (distinct_positions (values s) m k); try done.
      - apply nth_in_values. by rewrite Hn.
      - apply nth_in_values. by rewrite Hn.
      - by destruct (nth m (values s) PNA).
      - by destruct (nth k (values s) PNA). }
    destruct (nth m (values s) PNA) as [za| | | |]; try done.
    destruct (nth k (values s) PNA) as [zb| | | |]; try done.
    simpl in *. intros [= ->]. by rewrite Z.eqb_refl in Hne.
  - intros j d Hd Hpk Hal.
    apply defs_lookup in Hd as (l & s & Hl & -> & Hs).
    apply col_def_pk in Hpk. subst l.
    destruct (column_facts j _ s Hl Hs) as (Hsel & Hty & Hn & _).
    pose proof (key_column_distinct s Hsel) as Hdist.
    rewrite !(stored_row_lookup df _ j s Hs).
    pose proof (typed_nth s m Hty) as Ha. pose proof (typed_nth s k Hty) as Hb.
    rewrite Hn in Ha, Hb. specialize (Ha Hm). specialize (Hb Hk).
    destruct (notna (nth m (values s) PNA)) eqn:Hna;
      [|by destruct (nth m (values s) PNA)].
    destruct (notna (nth k (values s) PNA)) eqn:Hnb;
      [|by destruct (nth m (values s) PNA), (nth k (values s) PNA)].
    rewrite (stored_eqb (dtype s)) by done.
    apply (distinct_positions (values s) m k); try done.
    + apply nth_in_values. by rewrite Hn.
    + apply nth_in_values. by rewrite Hn.
Qed.

Lemma duplicate_name_none (defs : list column_def) :
  sql_distinct (map cd_name defs) → duplicate_name defs = None.
Proof.
  induction defs as [|d defs IH]; intros Hnd; simpl; [done|].
  unfold sql_distinct in Hnd. simpl in Hnd. apply NoDup_cons in Hnd as [Hd Hnd].
  assert (Hex : existsb (fun d' => ident_eqb (cd_name d') (cd_name d)) defs = false).
  { apply not_true_is_false. intros (d' & Hd'%list_elem_of_In & Heq)%existsb_exists.
    apply Hd. unfold ident_eqb in Heq. apply String.eqb_eq in Heq. rewrite <- Heq.
    apply list_elem_of_fmap_2, list_elem_of_fmap_2. exact Hd'. }
  rewrite Hex. by apply IH.
Qed.

Lemma key_count (labels : list string) :
  NoDup labels →
  (length (filter (fun d => cd_pk d = true) (map (col_def schema) labels)) ≤ 1)%nat.
Proof.
  assert (Hnone : ∀ ls, primary_key schema ∉ ls →
            filter (fun d => cd_pk d = true) (map (col_def schema) ls) = []).
  { induction ls as [|l ls IH]; intros Hnot; [done|].
    apply not_elem_of_cons in Hnot as [Hne Hnot]. simpl.
    rewrite filter_cons_False; [by apply IH|].
    intros Hpk%col_def_pk. congruence. }
  induction labels as [|l labels IH]; intros Hnd; simpl; [lia|].
  apply NoDup_cons in Hnd as [Hl Hnd].
  destruct (cd_pk (col_def schema l)) eqn:Hpk.
  - rewrite filter_cons_True by done. apply col_def_pk in Hpk. subst l.
    rewrite (Hnone labels Hl). simpl. lia.
  - rewrite filter_cons_False by (by rewrite Hpk). by apply IH.
Qed.

Lemma create_checks_ok tbl :
  df_columns df ≠ [] →
  create_checks tbl (map (col_def schema) (df_columns df)) = Ok ().
Proof.
  intros Hne. unfold create_checks. rewrite length_map.
  assert (Hlen0 : (length (df_columns df) =? 0)%nat = false)
    by (by destruct (df_columns df)).
  rewrite Hlen0, duplicate_name_none by (by rewrite defs_names).
  pose proof (key_count (df_columns df) (sql_distinct_NoDup _ Hdistinct)) as Hcount.
  destruct (Nat.ltb_spec 1 (length (filter (fun d => cd_pk d = true)
                                           (map (col_def schema) (df_columns df)))));
    [lia|].
  assert (Hauto : existsb (fun d => cd_autoincrement d && negb (is_rowid_alias d))
                          (map (col_def schema) (df_columns df)) = false).
  { apply not_true_is_false. intros (d & Hd%list_elem_of_In & Hbad)%existsb_exists.
    apply list_elem_of_fmap in Hd as (l & -> & _).
    apply andb_prop in Hbad as [Ha Hb]. rewrite (col_def_autoincrement l Ha) in Hb. done. }
  by rewrite Hauto.
Qed.

(** The three calls in a row, for a descriptor inferred from [df]. *)
Lemma round_trip_inferred (st : store) :
  transient (db_path self) = false →
  tables st !! table_name self = None →
  df_columns df ≠ [] →
  (Z.of_nat (df_len df) ≤ max_int64)%Z →
  ∃ st1 st2 st3 frame,
    create_table self schema st = (Ok (), st1)
    ∧ insert_data self df schema st1 = (Ok (), st2)
    ∧ read_all self st2 = (Ok frame, st3)
    ∧ qf_columns frame = df_columns df
    ∧ qf_rows frame ≡ₚ map (map stored) (source_rows df).
Proof.
  intros Htr Hfresh Hne Hsize.
  set (tbl := table_name self).
  set (defs := map (col_def schema) (df_columns df)).
  set (t0 := {| t_columns := defs; t_rows := []; t_sequence := 0 |}).
  set (st1 := {| tables := <[tbl := t0]> (tables st);
                 statements := statements st
                               ++ [(CreateTableIfNotExists tbl defs, [])] |}).
  assert (Hcreate : create_table self schema st = (Ok (), st1)).
  { unfold create_table, except_sqlite3, get_connection, connect, close, commit.
    rewrite Htr, Conn_bind_eq, Hcolumns. fold tbl defs.
    rewrite execute_create_fresh by done.
    unfold defs. rewrite (create_checks_ok tbl Hne). done. }
  pose proof (sql_distinct_NoDup _ Hdistinct) as Hnd.
  set (conn1 := {| committed := tables st1; working := tables st1;
                   journal := statements st1 |}).
  destruct (executemany_insert_ok tbl (df_columns df) Hne Hdistinct
              (map (map insert_value) (source_rows df))
              (map (map stored) (source_rows df)) stored_rows_bind [] conn1 t0)
    as (conn2 & t2 & Hmany & Hw & Hc & Hj & Hcols & Hholds).
  { apply lookup_insert_eq. }
  { apply defs_names. }
  { intros d Hd Ha. apply list_elem_of_fmap in Hd as (l & -> & _).
    by apply col_def_autoincrement. }
  { apply stored_rows_fit. }
  { split; [done|]. split; [|done]. intros i d _ r Hr. by apply elem_of_nil in Hr. }
  { apply stored_rows_keys. }
  { apply stored_rows_alias_integer. }
  { simpl. unfold source_rows. by rewrite !length_map, length_seq. }
  set (st2 := {| tables := working conn2; statements := journal conn2 |}).
  assert (Hinsert : insert_data self df schema st1 = (Ok (), st2)).
  { unfold insert_data, except_sqlite3, get_connection, connect, close, commit.
    rewrite Htr, insert_columns_all, Conn_bind_eq. unfold lift.
    rewrite (data_to_insert_rows df Hnd Hlen). fold tbl. fold conn1.
    rewrite Hmany. done. }
  assert (Ht2 : tables st2 !! tbl = Some t2).
  { simpl. rewrite Hw. apply lookup_insert_eq. }
  exists st1, st2. eexists _, _.
  split; [done|]. split; [done|].
  split; [exact (read_all_existing st2 t2 Htr Ht2)|].
  simpl. split.
  - rewrite Hcols. apply defs_names.
  - by destruct Hholds as [Hperm _].
Qed.

End Inferred.

Variable read_excel : string → result (DataFrame label).


End RoundTrip.



(** The synthetic key meets a column of the same name: no column of this
    dataset is unique, the key falls back to [id], the column [id] is declared
    INTEGER PRIMARY KEY AUTOINCREMENT and the second row is refused. *)
Example insert_data_repeated_id_is_refused :
  let raw := {| df_columns := [LStr "id"; LStr "name"];
                df_data := [ {| dtype := Int64; values := [PInt 1; PInt 1] |};
                             {| dtype := Object; values := [PStr "a"; PStr "a"] |} ];
                df_len := 2 |} in
  let to_datetime : Series → result () :=
    fun _ => Raise (ValueError "Unknown datetime string format") in
  let schema := {| columns := ["id"; "name"];
                   types := {[ "id" := "int"; "name" := "str" ]};
                   primary_key := "id" |} in
  let self := {| db_path := "data.db"; table_name := "data" |} in
  let st := {| tables := ∅; statements := [] |} in
  let st1 := (@create_table decimal_engine self schema st).2 in
  let st2 := (@insert_data decimal_engine self (relabelled raw) schema st1).2 in
  detect_schema to_datetime (fun _ => Ok raw) "rows.xlsx" = Ok schema
  ∧ (@insert_data decimal_engine self (relabelled raw) schema st1).1
    = Raise (DatabaseError "Database operation failed: UNIQUE constraint failed: data.id")
  ∧ (@read_all decimal_engine self st2).1
    = Ok {| qf_columns := ["id"; "name"]; qf_rows := [] |}.
Proof. intros. by vm_compute. Qed.

(* ===================================================================== *)
(** ** Further properties of the code                                     *)
(* ===================================================================== *)

(* --------------------------------------------------------------------- *)
(** *** Further properties of the schema detection                         *)
(* --------------------------------------------------------------------- *)

(** X1: whatever the label, the cleaned name is not empty, holds nothing but
    alphanumeric characters and underscores, and does not start with a
    digit. *)
Theorem clean_column_name_identifier (name : label) :
  clean_column_name name ≠ EmptyString
  ∧ all_chars identifier_char (clean_column_name name) = true
  ∧ ∀ c rest, clean_column_name name = String c rest → isdigit c = false.
Proof.
  destruct (clean_column_name_is_clean name) as [Hall Hfirst].
  destruct (clean_column_name name) as [|c0 rest0] eqn:E; [done|].
  split; [done|]. split; [exact Hall|].
  intros c rest [= <- <-]. exact Hfirst.
Qed.

(** X2: the strings that [clean_column_name] leaves as they are are exactly
    the non-empty runs of alphanumeric characters and underscores that do
    not start with a digit. *)
Theorem clean_column_name_fixed_points (s : string) :
  clean_column_name (LStr s) = s ↔ is_clean s.
Proof.
  split.
  - intros Hfix. rewrite <- Hfix. apply clean_column_name_is_clean.
  - apply clean_column_name_fixes_clean.
Qed.

Section InferenceFacts.
Variable to_datetime : Series → result unit.

Lemma filter_zip_length (col : string) (cols : list string) (data : list Series) :
  length cols = length data →
  length (filter (fun p : string * Series => p.1 = col) (zip cols data))
  = length (filter (fun c => c = col) cols).
Proof.
  revert data. induction cols as [|c cols IH]; intros [|d data] Hlen; try done.
  simpl in Hlen. simpl. rewrite !filter_cons. simpl.
  destruct (decide (c = col)); simpl; rewrite IH by lia; done.
Qed.

Lemma once_each_NoDup (l : list string) :
  (∀ x, x ∈ l → length (filter (fun c => c = x) l) = 1%nat) → NoDup l.
Proof.
  induction l as [|a l IH]; intros Hall; [constructor|].
  assert (Ha : a ∉ l).
  { pose proof (Hall a (list_elem_of_here a l)) as H1.
    rewrite filter_cons_True in H1 by done. simpl in H1.
    intros Hin. assert (Hin' : a ∈ filter (fun c => c = a) l)
      by by apply list_elem_of_filter.
    destruct (filter (fun c => c = a) l); [by apply elem_of_nil in Hin'|done]. }
  constructor; [done|]. apply IH. intros x Hx.
  pose proof (Hall x (list_elem_of_further x a l Hx)) as H1.
  rewrite filter_cons_False in H1; [done|]. intros ->. done.
Qed.

(** A column label that passes [infer_column_type] names one column. *)
Lemma infer_column_type_single (df : DataFrame string) col ty :
  infer_column_type to_datetime df col = Ok ty → ∃ s, select_columns df col = [s].
Proof.
  unfold infer_column_type, getitem.
  destruct (select_columns df col) as [|s [|s' rest]]; simpl; [done|by eexists|done].
Qed.

Lemma for_each_types_each (df : DataFrame string) cols (acc types : gmap string string) :
  for_each (fun types col => ty ← infer_column_type to_datetime df col; Ok (<[col := ty]> types))
           cols acc = Ok types →
  ∀ col, col ∈ cols → ∃ ty, infer_column_type to_datetime df col = Ok ty.
Proof.
  revert acc. induction cols as [|c cols IH]; intros acc; simpl.
  - intros _ col Hcol. by apply elem_of_nil in Hcol.
  - destruct (infer_column_type to_datetime df c) as [ty|e] eqn:Hty; simpl; [|done].
    intros Hrest col [->|Hcol]%elem_of_cons; [by eexists|]. by eapply IH.
Qed.

(** The inference goes through only when no label occurs twice. *)
Lemma infer_column_types_NoDup (df : DataFrame string) types :
  length (df_columns df) = length (df_data df) →
  infer_column_types to_datetime df = Ok types →
  NoDup (df_columns df).
Proof.
  intros Hlen Hty. apply once_each_NoDup. intros col Hcol.
  destruct (for_each_types_each df _ _ _ Hty col Hcol) as [ty Hcolty].
  destruct (infer_column_type_single df col ty Hcolty) as [s Hs].
  rewrite <- (filter_zip_length col _ _ Hlen).
  unfold select_columns in Hs. apply (f_equal length) in Hs.
  by rewrite length_fmap in Hs.
Qed.

(** The entry of the dictionary for the column at position [j]. *)
Lemma inferred_type_at (df : DataFrame string) (types : gmap string string) j col s :
  length (df_columns df) = length (df_data df) →
  infer_column_types to_datetime df = Ok types →
  df_columns df !! j = Some col → df_data df !! j = Some s →
  ∃ ty, types !! col = Some ty
        ∧ (if forallb isna (values s) then Ok "str"
           else match dtype s with
                | Datetime64 => Ok "date"
                | Int64 => Ok "int"
                | Float64 => Ok "float"
                | Object =>
                    is_date ← is_date_column to_datetime (dropna s);
                    if (is_date : bool) then Ok "date" else Ok "str"
                end) = Ok ty.
Proof.
  intros Hlen Hty Hcol Hs.
  pose proof (infer_column_types_NoDup df types Hlen Hty) as Hnd.
  destruct (for_each_types_lookup to_datetime df _ _ _ Hnd Hty col) as (ty & Hcolty & Hlook).
  { by eapply list_elem_of_lookup_2. }
  exists ty. split; [done|].
  rewrite <- (infer_column_type_cases to_datetime df col s); [done|].
  by eapply select_columns_at.
Qed.

(** X3: in the dictionary that [infer_column_types] returns, a column is
    typed [date] exactly when it has a non-missing value and either is of
    a datetime dtype or is an object column whose non-missing values
    [pd.to_datetime] accepts. *)
Theorem infer_column_types_date (df : DataFrame string) (types : gmap string string) j col s :
  length (df_columns df) = length (df_data df) →
  infer_column_types to_datetime df = Ok types →
  df_columns df !! j = Some col → df_data df !! j = Some s →
  types !! col = Some "date"
  ↔ forallb isna (values s) = false
    ∧ (dtype s = Datetime64
       ∨ (dtype s = Object ∧ ∃ u, to_datetime (dropna s) = Ok u)).
Proof.
  intros Hlen Hty Hcol Hs.
  destruct (inferred_type_at df types j col s Hlen Hty Hcol Hs) as (ty & -> & Hcase).
  unfold is_date_column in Hcase.
  destruct (forallb isna (values s)).
  { injection Hcase as <-. split; [done|]. by intros [? _]. }
  destruct (dtype s); simpl in Hcase.
  - injection Hcase as <-. split; [done|]. intros [_ [?|[? _]]]; done.
  - injection Hcase as <-. split; [done|]. intros [_ [?|[? _]]]; done.
  - injection Hcase as <-. split; [|done]. intros _. split; [done|by left].
  - destruct (to_datetime (dropna s)) as [u|e]; simpl in Hcase.
    + injection Hcase as <-. split; [|done]. intros _. split; [done|].
      right. split; [done|]. by exists u.
    + split.
      * intros [= ->]. by destruct e.
      * intros [_ [?|[_ [u ?]]]]; done.
Qed.


Lemma infer_column_type_names (df : DataFrame string) col ty :
  infer_column_type to_datetime df col = Ok ty →
  ty ∈ ["int"; "float"; "str"; "date"].
Proof.
  unfold infer_column_type.
  destruct (getitem df col) as [sel|]; simpl; [|done].
  destruct (truth_isna_all sel) as [[]|]; simpl; [intros [= <-]; set_solver| |done].
  destruct sel as [s|]; [|done].
  destruct (is_datetime64_any_dtype s); [intros [= <-]; set_solver|].
  destruct (len (dropna s) =? 0)%nat; [intros [= <-]; set_solver|].
  destruct (is_integer_dtype (dropna s)); [intros [= <-]; set_solver|].
  destruct (is_float_dtype (dropna s)); [intros [= <-]; set_solver|].
  destruct (is_date_column to_datetime (dropna s)) as [[]|]; simpl; [| |done];
    intros [= <-]; set_solver.
Qed.

Lemma for_each_types_dom (df : DataFrame string) cols (acc types : gmap string string) :
  for_each (fun types col => ty ← infer_column_type to_datetime df col; Ok (<[col := ty]> types))
           cols acc = Ok types →
  dom types = dom acc ∪ list_to_set cols
  ∧ (∀ col ty, types !! col = Some ty →
       acc !! col = Some ty ∨ ty ∈ ["int"; "float"; "str"; "date"]).
Proof.
  revert acc. induction cols as [|c cols IH]; intros acc; simpl.
  - intros [= ->]. split; [by rewrite (right_id_L ∅ (∪))|]. intros col ty Hl. by left.
  - destruct (infer_column_type to_datetime df c) as [ty0|e] eqn:Hty; simpl; [|done].
    intros Hrest. destruct (IH _ Hrest) as [Hdom Hval]. split.
    + rewrite Hdom, dom_insert_L. apply set_eq. intros x.
      rewrite !elem_of_union. tauto.
    + intros col ty Hl. destruct (Hval col ty Hl) as [Hacc|Hin]; [|by right].
      destruct (decide (c = col)) as [->|Hne].
      * rewrite lookup_insert_eq in Hacc. injection Hacc as <-.
        right. by eapply infer_column_type_names.
      * rewrite lookup_insert_ne in Hacc by done. by left.
Qed.

(** X5: the dictionary of inferred types has the labels of the dataset as
    its keys, no more and no less, and every type in it is one of [int],
    [float], [str] and [date]. *)
Theorem infer_column_types_range (df : DataFrame string) (types : gmap string string) :
  infer_column_types to_datetime df = Ok types →
  dom types = list_to_set (df_columns df)
  ∧ ∀ col ty, types !! col = Some ty → ty ∈ ["int"; "float"; "str"; "date"].
Proof.
  intros Hty. destruct (for_each_types_dom df _ _ _ Hty) as [Hdom Hval]. split.
  - by rewrite Hdom, dom_empty_L, (left_id_L ∅ (∪)).
  - intros col ty Hl. destruct (Hval col ty Hl) as [Hacc|Hin]; [|done].
    by rewrite lookup_empty in Hacc.
Qed.
End InferenceFacts.

Lemma infer_column_types_date_witness :
  let df := {| df_columns := ["hired"; "name"];
               df_data := [ {| dtype := Datetime64;
                               values := [PTimestamp "2020-01-15T00:00:00"; PNA] |};
                            {| dtype := Object; values := [PStr "Alice"; PStr "Bob"] |} ];
               df_len := 2 |} in
  let to_datetime : Series → result () :=
    fun _ => Raise (ValueError "Unknown datetime string format") in
  ∃ types, infer_column_types to_datetime df = Ok types ∧ types !! "hired" = Some "date".
Proof.
  intros df to_datetime.
  exists {[ "hired" := "date"; "name" := "str" ]}. split; [by vm_compute|].
  apply (infer_column_types_date to_datetime df _ 0 "hired"
           {| dtype := Datetime64; values := [PTimestamp "2020-01-15T00:00:00"; PNA] |}).
  - reflexivity.
  - by vm_compute.
  - reflexivity.
  - reflexivity.
  - split; [reflexivity|by left].
Defined.


Lemma infer_column_types_range_witness :
  let df := {| df_columns := ["age"; "name"];
               df_data := [ {| dtype := Int64; values := [PInt 25; PInt 30] |};
                            {| dtype := Object; values := [PStr "Alice"; PStr "Bob"] |} ];
               df_len := 2 |} in
  let to_datetime : Series → result () :=
    fun _ => Raise (ValueError "Unknown datetime string format") in
  ∃ types, infer_column_types to_datetime df = Ok types
           ∧ dom types = list_to_set ["age"; "name"].
Proof.
  intros df to_datetime.
  exists {[ "age" := "int"; "name" := "str" ]}. split; [by vm_compute|].
  apply (infer_column_types_range to_datetime df). by vm_compute.
Defined.

Section DetectFacts.
Variable to_datetime : Series → result unit.
Variable read_excel : string → result (DataFrame label).

(** X6: the columns of a descriptor that [detect_schema] returns are
    pairwise distinct, one for every column of the dataset: two labels
    that clean to the same name make the inference fail instead. *)
Theorem detect_schema_columns_distinct file_path (df : DataFrame label) (schema : Schema) :
  read_excel file_path = Ok df →
  frame_wf df →
  detect_schema to_datetime read_excel file_path = Ok schema →
  NoDup (columns schema) ∧ length (columns schema) = length (df_data df).
Proof.
  intros Hread [Hlen _] Hok.
  destruct (detect_schema_ok_inv to_datetime read_excel file_path df schema Hread Hok)
    as (_ & types & key & Htypes & _ & ->).
  cbn [columns].
  assert (Hlen' : length (map clean_column_name (effective_labels df)) = length (df_data df)).
  { by rewrite length_map, effective_labels_length. }
  split; [|done].
  exact (infer_column_types_NoDup to_datetime
           {| df_columns := map clean_column_name (effective_labels df);
              df_data := df_data df; df_len := df_len df |} types Hlen' Htypes).
Qed.

Lemma digits_identifier d :
  all_chars identifier_char (NilEmpty.string_of_uint d) = true.
Proof. induction d; simpl; [done|by rewrite IHd..]. Qed.

Lemma generated_name_clean n : is_clean ("Column" +:+ str_of_nat n).
Proof.
  split; [|done]. rewrite all_chars_app. unfold str_of_nat.
  by rewrite digits_identifier.
Qed.

Lemma generated_names_clean (l : list nat) :
  map clean_column_name (map (fun i => LStr ("Column" +:+ str_of_nat (i + 1))) l)
  = map (fun i => "Column" +:+ str_of_nat (i + 1)) l.
Proof.
  rewrite map_map. apply map_ext. intros i.
  apply clean_column_name_fixes_clean, generated_name_clean.
Qed.

Lemma str_of_nat_inj n m : str_of_nat n = str_of_nat m → n = m.
Proof.
  unfold str_of_nat. intros Heq. apply Unsigned.to_uint_inj.
  pose proof (NilEmpty.usu (Nat.to_uint n)) as Hn. rewrite Heq, NilEmpty.usu in Hn.
  by injection Hn.
Qed.

Lemma generated_names_NoDup n :
  NoDup (map (fun i => "Column" +:+ str_of_nat (i + 1)) (seq 0 n)).
Proof.
  apply (NoDup_fmap_2_strong (fun i => "Column" +:+ str_of_nat (i + 1))).
  - intros i j _ _ Heq. injection Heq as Heq. apply str_of_nat_inj in Heq. lia.
  - apply NoDup_ListNoDup, seq_NoDup.
Qed.

Lemma headerless_labels (df : DataFrame label) first rest :
  df_columns df = LStr first :: rest →
  String.prefix "Unnamed" first = true →
  map clean_column_name (effective_labels df)
  = map (fun i => "Column" +:+ str_of_nat (i + 1)) (seq 0 (length (df_columns df))).
Proof.
  intros Hcols Hprefix. unfold effective_labels.
  rewrite Hcols, Hprefix, <- Hcols. apply generated_names_clean.
Qed.

(** Without its header guards, [detect_schema] returns on distinct
    cleaned labels. *)
Lemma detect_schema_returns file_path (df : DataFrame label) first rest :
  read_excel file_path = Ok df →
  length (df_columns df) = length (df_data df) →
  empty df = false →
  df_columns df = LStr first :: rest →
  NoDup (map clean_column_name (effective_labels df)) →
  parser_raises_value_or_type to_datetime →
  ∃ schema, detect_schema to_datetime read_excel file_path = Ok schema.
Proof.
  intros Hread Hlen Hne Hcols Hnd Hparser. unfold detect_schema.
  rewrite (detect_schema_body_relabelled to_datetime read_excel file_path df first rest
             Hread Hne Hcols).
  set (cols := map clean_column_name (effective_labels df)) in *.
  set (df' := {| df_columns := cols; df_data := df_data df; df_len := df_len df |}).
  assert (Hlen' : length (df_columns df') = length (df_data df')).
  { simpl. unfold cols. by rewrite length_map, effective_labels_length. }
  destruct (infer_column_types_ok to_datetime df' Hparser Hlen' Hnd) as [types ->].
  rewrite (detect_primary_key_select_spec df' cols Hlen' Hnd) by done.
  simpl. by eexists.
Qed.

(** X7: when the first header cell is missing (pandas labels it
    [Unnamed: 0]), every label of the dataset, the named ones included, is
    replaced: the descriptor's columns are [Column1], ..., [ColumnN], and
    the inference does not fail on the labels. *)
Theorem detect_schema_headerless file_path (df : DataFrame label) first rest :
  read_excel file_path = Ok df →
  frame_wf df →
  empty df = false →
  df_columns df = LStr first :: rest →
  String.prefix "Unnamed" first = true →
  parser_raises_value_or_type to_datetime →
  ∃ schema,
    detect_schema to_datetime read_excel file_path = Ok schema
    ∧ columns schema
      = map (fun i => "Column" +:+ str_of_nat (i + 1)) (seq 0 (length (df_columns df))).
Proof.
  intros Hread [Hlen _] Hne Hcols Hprefix Hparser.
  pose proof (headerless_labels df first rest Hcols Hprefix) as Hlabels.
  destruct (detect_schema_returns file_path df first rest Hread Hlen Hne Hcols)
    as [schema Hschema]; [|done|].
  { rewrite Hlabels. apply generated_names_NoDup. }
  exists schema. split; [done|].
  destruct (detect_schema_ok_inv to_datetime read_excel file_path df schema Hread Hschema)
    as (_ & types & key & _ & _ & ->).
  exact Hlabels.
Qed.
End DetectFacts.

Lemma detect_schema_columns_distinct_witness :
  let df := {| df_columns := [LStr "unit price"; LStr "name"];
               df_data := [ {| dtype := Float64; values := [PFloat (5 # 2); PFloat 4] |};
                            {| dtype := Object; values := [PStr "nut"; PStr "bolt"] |} ];
               df_len := 2 |} in
  let to_datetime : Series → result () :=
    fun _ => Raise (ValueError "Unknown datetime string format") in
  let read_excel : string → result (DataFrame label) := fun _ => Ok df in
  ∃ schema, detect_schema to_datetime read_excel "parts.xlsx" = Ok schema
            ∧ columns schema = ["unit_price"; "name"] ∧ NoDup (columns schema).
Proof.
  intros df to_datetime read_excel.
  exists {| columns := ["unit_price"; "name"];
            types := {[ "unit_price" := "float"; "name" := "str" ]};
            primary_key := "unit_price" |}.
  split; [by vm_compute|]. split; [reflexivity|].
  apply (detect_schema_columns_distinct to_datetime read_excel "parts.xlsx" df).
  - reflexivity.
  - split; [reflexivity|repeat constructor].
  - by vm_compute.
Defined.

Lemma detect_schema_headerless_witness :
  let df := {| df_columns := [LStr "Unnamed: 0"; LStr "name"];
               df_data := [ {| dtype := Int64; values := [PInt 1; PInt 2] |};
                            {| dtype := Object; values := [PStr "Alice"; PStr "Bob"] |} ];
               df_len := 2 |} in
  let to_datetime : Series → result () :=
    fun _ => Raise (ValueError "Unknown datetime string format") in
  let read_excel : string → result (DataFrame label) := fun _ => Ok df in
  ∃ schema, detect_schema to_datetime read_excel "sheet.xlsx" = Ok schema
            ∧ columns schema = ["Column1"; "Column2"].
Proof.
  intros df to_datetime read_excel.
  apply (detect_schema_headerless to_datetime read_excel "sheet.xlsx" df "Unnamed: 0"
           [LStr "name"]).
  - reflexivity.
  - split; [reflexivity|repeat constructor].
  - reflexivity.
  - reflexivity.
  - reflexivity.
  - intros s e [= <-]. left. by eexists.
Defined.

Section AdapterInvariants.
Context `{Coercions}.
Variable self : DatabaseManager.

Lemma only_touches_refl tbl db : only_touches tbl db db.
Proof. split; [done|]. intros t Ht. by exists t. Qed.

Lemma only_touches_trans tbl db1 db2 db3 :
  only_touches tbl db1 db2 → only_touches tbl db2 db3 → only_touches tbl db1 db3.
Proof.
  intros [Ho1 Hc1] [Ho2 Hc2]. split.
  - intros other Hne. by rewrite Ho2, Ho1.
  - intros t Ht. destruct (Hc1 t Ht) as (t2 & Ht2 & Hcols2).
    destruct (Hc2 t2 Ht2) as (t3 & Ht3 & Hcols3). exists t3. split; [done|congruence].
Qed.

Lemma only_touches_insert tbl db (t' : table) :
  (∀ t, db !! tbl = Some t → t_columns t' = t_columns t) →
  only_touches tbl db (<[tbl := t']> db).
Proof.
  intros Hcols. split.
  - intros other Hne. by rewrite lookup_insert_ne.
  - intros t Ht. exists t'. rewrite lookup_insert_eq. split; [done|by apply Hcols].
Qed.

Lemma insert_row_columns tbl (t : table) cols params cur t' :
  insert_row tbl t cols params = Ok (cur, t') → t_columns t' = t_columns t.
Proof.
  unfold insert_row.
  destruct (match rowid_alias (t_columns t) with Some _ => _ | None => _ end)
    as [[rid vals]|e]; simpl; [|done].
  destruct (negb (in_int64 rid)); [done|].
  destruct (pk_conflict _ _ _ _); [done|]. by intros [= _ <-].
Qed.

Lemma update_rows_columns tbl (t : table) sets wi wd key cur t' :
  update_rows tbl t sets wi wd key = Ok (cur, t') → t_columns t' = t_columns t.
Proof.
  unfold update_rows. destruct (map_result _ _) as [rows|e]; simpl; [|done].
  destruct (rowid_conflict rows); [done|].
  destruct (rows_pk_conflict _ _); [done|]. by intros [= _ <-].
Qed.

(** A statement changes nothing but the rows of the table it names. *)
Lemma run_only_touches sql params db cur db' :
  run sql params db = Ok (cur, db') → only_touches (statement_table sql) db db'.
Proof.
  unfold run. destruct (prepare sql db) as [[]|e]; simpl; [|done].
  destruct sql as [tbl defs|tbl cols|tbl|tbl set_cols where_col|tbl where_col|tbl]; simpl.
  - destruct (db !! tbl) as [t|] eqn:Ht; intros [= _ <-]; [apply only_touches_refl|].
    apply only_touches_insert. intros t Ht'. congruence.
  - destruct (db !! tbl) as [t|] eqn:Ht; [|done].
    destruct (insert_row tbl t cols params) as [[cur' t']|e] eqn:Hrow; simpl; [|done].
    intros [= _ <-]. apply only_touches_insert. intros t0 Ht0.
    rewrite Ht in Ht0. injection Ht0 as <-. by eapply insert_row_columns.
  - destruct (db !! tbl) as [t|] eqn:Ht; [|done]. intros [= _ <-]. apply only_touches_refl.
  - destruct (db !! tbl) as [t|] eqn:Ht; [|done].
    destruct (map_result (resolve t) set_cols) as [targets|e]; simpl; [|done].
    destruct (resolve t where_col) as [[wi wd]|e]; simpl; [|done].
    destruct (update_rows _ _ _ _ _ _) as [[cur' t']|e] eqn:Hup; simpl; [|done].
    intros [= _ <-]. apply only_touches_insert. intros t0 Ht0.
    rewrite Ht in Ht0. injection Ht0 as <-. by eapply update_rows_columns.
  - destruct (db !! tbl) as [t|] eqn:Ht; [|done].
    destruct (resolve t where_col) as [[wi wd]|e]; simpl; [|done].
    intros [= _ <-]. apply only_touches_insert. intros t0 Ht0. rewrite Ht in Ht0. by injection Ht0 as <-.
  - intros [= _ <-]. apply only_touches_refl.
Qed.

Lemma confined_execute sql params :
  confined (statement_table sql) (execute sql params).
Proof.
  intros conn Hinv. unfold execute, compile_bind_run. cbn [working record].
  destruct (prepare sql (working conn)) as [[]|e]; simpl; [|done].
  destruct (bind_params sql params) as [values|e]; simpl; [|done].
  destruct (run sql values (working conn)) as [[cur db']|e] eqn:Hrun; simpl; [|done].
  split; [done|]. eapply only_touches_trans; [exact Hinv|]. by eapply run_only_touches.
Qed.

Lemma confined_ret tbl {A} (a : A) : confined tbl (mret a).
Proof. by intros conn Hinv. Qed.

Lemma confined_lift tbl {A} (r : result A) : confined tbl (lift r).
Proof. by intros conn Hinv. Qed.

Lemma confined_bind tbl {A B} (m : Conn A) (f : A → Conn B) :
  confined tbl m → (∀ a, confined tbl (f a)) → confined tbl (m ≫= f).
Proof.
  intros Hm Hf conn Hinv. rewrite Conn_bind_eq. specialize (Hm conn Hinv).
  destruct (m conn) as [[a|e] conn1]; simpl in *; [|done].
  destruct Hm as [Hc Hw]. rewrite <- Hc in Hw.
  destruct (Hf a conn1 Hw) as [Hc' Hw']. rewrite Hc' , Hc in *. done.
Qed.

Lemma confined_executemany sql rows :
  confined (statement_table sql) (executemany sql rows).
Proof.
  induction rows as [|params rows IH]; simpl.
  - apply confined_ret.
  - apply confined_bind; [apply confined_execute|done].
Qed.

Lemma confined_read_sql_query tbl : confined tbl (read_sql_query tbl).
Proof.
  intros conn Hinv. unfold read_sql_query.
  pose proof (confined_execute (SelectAll tbl) [] conn Hinv) as Hex. simpl in Hex.
  destruct (execute (SelectAll tbl) [] conn) as [[cur|e] conn1]; simpl in *.
  - by destruct (results cur).
  - destruct Hex as [-> _]. split; [done|]. apply only_touches_refl.
Qed.

(** Through the context manager: whatever the outcome, the tables after
    the call differ from those before within [tbl] only. *)
Lemma get_connection_confined {A} prefix (body : Conn A) (st : store) :
  confined (table_name self) body →
  only_touches (table_name self) (tables st)
               (tables (except_sqlite3 prefix (get_connection self body) st).2).
Proof.
  intros Hbody.
  assert (Hgc : only_touches (table_name self) (tables st)
                             (tables (get_connection self body st).2)).
  { unfold get_connection.
    destruct (transient (db_path self)) eqn:Htr.
    - destruct (body (connect self st)) as [[a|e] conn1]; [|destruct e];
        unfold close; rewrite Htr; apply only_touches_refl.
    - pose proof (Hbody (connect self st) (only_touches_refl _ _)) as [Hc Hw].
      destruct (body (connect self st)) as [[a|e] conn1]; [|destruct e];
        unfold close, commit, rollback; rewrite Htr;
        unfold connect in Hc, Hw; rewrite Htr in Hc, Hw;
        cbn [snd tables committed working] in *; rewrite ?Hc;
        first [exact Hw|apply only_touches_refl]. }
  unfold except_sqlite3.
  destruct (get_connection self body st) as [[a|e] st1]; simpl in *; [done|].
  by destruct e.
Qed.

(** X8: no operation of the adapter touches a table other than its own,
    and none drops its table or changes the columns it was declared with,
    whether the call returns or raises. *)
Theorem operations_stay_in_their_table :
  (∀ schema st, only_touches (table_name self) (tables st)
                             (tables (create_table self schema st).2))
  ∧ (∀ df schema st, only_touches (table_name self) (tables st)
                                  (tables (insert_data self df schema st).2))
  ∧ (∀ data st, only_touches (table_name self) (tables st)
                             (tables (create_record self data st).2))
  ∧ (∀ st, only_touches (table_name self) (tables st) (tables (read_all self st).2))
  ∧ (∀ record_id data st, only_touches (table_name self) (tables st)
                                       (tables (update_record self record_id data st).2))
  ∧ (∀ record_id st, only_touches (table_name self) (tables st)
                                  (tables (delete_record self record_id st).2)).
Proof.
  split_and!.
  - intros schema st. apply get_connection_confined.
    apply confined_bind; [apply (confined_execute (CreateTableIfNotExists _ _))|].
    intros _. apply confined_ret.
  - intros df schema st. apply get_connection_confined.
    apply confined_bind; [apply confined_lift|].
    intros rows. apply (confined_executemany (InsertInto _ _)).
  - intros data st. apply get_connection_confined.
    apply confined_bind; [apply confined_lift|].
    intros values. apply confined_bind; [apply (confined_execute (InsertInto _ _))|].
    intros cur. apply confined_ret.
  - intros st. apply get_connection_confined, confined_read_sql_query.
  - intros record_id data st. unfold update_record.
    destruct (update_primary_key data) as [pk|e]; [|apply only_touches_refl].
    destruct (filter (fun col => col ≠ pk) (keys data)) as [|c cs] eqn:Hset;
      [apply only_touches_refl|].
    apply get_connection_confined.
    apply confined_bind; [apply confined_lift|].
    intros values. apply confined_bind; [apply (confined_execute (UpdateWhere _ _ _))|].
    intros cur. apply confined_ret.
  - intros record_id st. apply get_connection_confined.
    apply confined_bind; [apply (confined_execute (DeleteWhere _ _))|].
    intros cur. destruct (rowcount cur =? 0)%Z; [|apply confined_ret].
    apply confined_bind; [apply (confined_execute (PragmaTableInfo _))|].
    intros cur'. destruct (results cur') as [| |[|first rest]]; try apply confined_ret.
    apply confined_bind; [apply (confined_execute (DeleteWhere _ _))|].
    intros _. apply confined_ret.
Qed.
End AdapterInvariants.

Section RowFacts.
Context `{Coercions}.
Variable self : DatabaseManager.

Lemma map_result_inv {A B} (g : A → result B) xs ys :
  map_result g xs = Ok ys → Forall2 (fun x y => g x = Ok y) xs ys.
Proof.
  revert ys. induction xs as [|x xs IH]; intros ys; simpl.
  - intros [= <-]. constructor.
  - destruct (g x) as [y|e] eqn:Hx; simpl; [|done].
    destruct (map_result g xs) as [ys'|e]; simpl; [|done].
    intros [= <-]. constructor; [done|by apply IH].
Qed.

Lemma max_rowid_ge (rows : list (Z * list sqlval)) r :
  r ∈ rows → (r.1 ≤ max_rowid rows)%Z.
Proof.
  induction rows as [|r' rows IH]; intros Hr; [by apply elem_of_nil in Hr|].
  simpl. apply elem_of_cons in Hr as [->|Hr]; [lia|]. specialize (IH Hr). lia.
Qed.

Lemma next_rowid_fresh (t : table) r : r ∈ t_rows t → r.1 ≠ next_rowid t.
Proof. intros Hr%max_rowid_ge. unfold next_rowid. lia. Qed.

Lemma sort_by_rowid_perm rows : sort_by_rowid rows ≡ₚ rows.
Proof.
  unfold sort_by_rowid. induction rows as [|r rows IH]; simpl; [done|].
  by rewrite insert_by_rowid_perm, IH.
Qed.

(** What one INSERT does to the table. *)
Lemma insert_row_inv tbl (t : table) cols params cur t' :
  insert_row tbl t cols params = Ok (cur, t') →
  ∃ vals,
    t_rows t' = insert_by_rowid (lastrowid cur, vals) (t_rows t)
    ∧ length vals = length (t_columns t)
    ∧ in_int64 (lastrowid cur) = true
    ∧ ∀ r, r ∈ t_rows t → r.1 ≠ lastrowid cur.
Proof.
  unfold insert_row.
  set (vals0 := map (fun d => apply_affinity (cd_type d) (supplied cols params d))
                    (t_columns t)).
  assert (Hlen0 : length vals0 = length (t_columns t)) by (unfold vals0; by rewrite length_map).
  assert (Htail : ∀ rid vals,
             length vals = length (t_columns t) →
             (∀ r, r ∈ t_rows t → r.1 ≠ rid) →
             (if negb (in_int64 rid) then sql_error "database or disk is full"
              else match pk_conflict (t_columns t) 0 vals (t_rows t).*2 with
                   | Some col => Raise (unique_failed tbl col)
                   | None =>
                       Ok ({| rowcount := 1; lastrowid := rid; results := NoRows |},
                           {| t_columns := t_columns t;
                              t_rows := insert_by_rowid (rid, vals) (t_rows t);
                              t_sequence := if uses_autoincrement t
                                            then Z.max (t_sequence t) rid
                                            else t_sequence t |})
                   end) = Ok (cur, t') →
             ∃ vals,
               t_rows t' = insert_by_rowid (lastrowid cur, vals) (t_rows t)
               ∧ length vals = length (t_columns t)
               ∧ in_int64 (lastrowid cur) = true
               ∧ ∀ r, r ∈ t_rows t → r.1 ≠ lastrowid cur).
  { intros rid vals Hlen Hfresh.
    destruct (in_int64 rid) eqn:Hrange; simpl; [|done].
    destruct (pk_conflict _ _ _ _); [done|].
    intros [= <- <-]. by exists vals. }
  destruct (rowid_alias (t_columns t)) as [[i d]|].
  - destruct (nth i vals0 SNull) as [|z|q|s] eqn:Hnth; simpl; try done.
    + apply Htail; [by rewrite length_insert|]. intros r. apply next_rowid_fresh.
    + destruct (existsb (fun r : Z * list sqlval => (r.1 =? z)%Z) (t_rows t)) eqn:Hex;
        simpl; [done|].
      apply Htail; [done|]. intros r Hr Heq.
      assert (Htrue : existsb (fun r : Z * list sqlval => (r.1 =? z)%Z) (t_rows t) = true).
      { apply existsb_exists. exists r. split; [by apply list_elem_of_In|].
        by apply Z.eqb_eq. }
      congruence.
  - simpl. apply Htail; [done|]. intros r. apply next_rowid_fresh.
Qed.

Lemma execute_insert_inv tbl cols params conn cur conn' :
  execute (InsertInto tbl cols) params conn = (Ok cur, conn') →
  ∃ t t' vals,
    working conn !! tbl = Some t
    ∧ working conn' = <[tbl := t']> (working conn)
    ∧ committed conn' = committed conn
    ∧ t_rows t' = insert_by_rowid (lastrowid cur, vals) (t_rows t)
    ∧ length vals = length (t_columns t)
    ∧ ∀ r, r ∈ t_rows t → r.1 ≠ lastrowid cur.
Proof.
  unfold execute, compile_bind_run. cbn [working record].
  destruct (prepare _ _) as [[]|e]; simpl; [|done].
  destruct (bind_params _ _) as [values|e]; simpl; [|done].
  unfold run. destruct (prepare _ _) as [[]|e]; simpl; [|done].
  destruct (working conn !! tbl) as [t|] eqn:Ht; [|done].
  destruct (insert_row tbl t cols values) as [[cur' t']|e] eqn:Hrow; simpl; [|done].
  intros [= <- <-]. simpl.
  destruct (insert_row_inv _ _ _ _ _ _ Hrow) as (vals & Hrows & Hlen & _ & Hfresh).
  by exists t, t', vals.
Qed.

(** What leaves the context manager when the body has returned. *)
Lemma get_connection_returns {A} prefix (body : Conn A) (st st' : store) a :
  except_sqlite3 prefix (get_connection self body) st = (Ok a, st') →
  ∃ conn', body (connect self st) = (Ok a, conn')
           ∧ tables st' = if transient (db_path self) then tables st else working conn'.
Proof.
  unfold except_sqlite3, get_connection.
  destruct (body (connect self st)) as [[a'|e] conn'] eqn:Hbody.
  - intros [= <- <-]. exists conn'. split; [done|]. unfold close, commit. simpl.
    by destruct (transient (db_path self)).
  - by destruct e.
Qed.

Lemma connect_working (st : store) :
  working (connect self st) = if transient (db_path self) then ∅ else tables st.
Proof. unfold connect. by destruct (transient (db_path self)). Qed.

Lemma rows_of_insert tbl (db : database) (t : table) :
  rows_of tbl (<[tbl := t]> db) = t_rows t.
Proof. unfold rows_of. by rewrite lookup_insert_eq. Qed.

Lemma rows_of_lookup tbl (db : database) (t : table) :
  db !! tbl = Some t → rows_of tbl db = t_rows t.
Proof. unfold rows_of. by intros ->. Qed.

(** X9: when [create_record] returns, the relation holds exactly one row
    more; the identifier returned is the rowid of that row, and no row had
    it before. *)
Theorem create_record_adds_one_row (data : dict) (st st' : store) (record_id : Z) :
  create_record self data st = (Ok record_id, st') →
  ∃ vals,
    rows_of (table_name self) (tables st')
      ≡ₚ (record_id, vals) :: rows_of (table_name self) (tables st)
    ∧ (∀ r, r ∈ rows_of (table_name self) (tables st) → r.1 ≠ record_id).
Proof.
  intros Hrun. apply get_connection_returns in Hrun as (conn' & Hbody & Htables).
  rewrite Conn_bind_eq in Hbody. unfold lift in Hbody.
  destruct (map_result (dict_getitem data) (keys data)) as [values|e]; [|done].
  rewrite Conn_bind_eq in Hbody.
  destruct (execute _ values (connect self st)) as [[cur|e] conn1] eqn:Hexec; [|done].
  injection Hbody as <- <-.
  destruct (execute_insert_inv _ _ _ _ _ _ Hexec)
    as (t & t' & vals & Ht & Hw & _ & Hrows & _ & Hfresh).
  rewrite connect_working in Ht, Hw.
  destruct (transient (db_path self)); [by rewrite lookup_empty in Ht|].
  exists vals. rewrite Htables, Hw, rows_of_insert, (rows_of_lookup _ _ _ Ht), Hrows.
  split; [apply insert_by_rowid_perm|done].
Qed.

Lemma executemany_insert_count tbl cols ps conn conn' :
  executemany (InsertInto tbl cols) ps conn = (Ok (), conn') →
  length (rows_of tbl (working conn')) = (length (rows_of tbl (working conn)) + length ps)%nat
  ∧ (ps ≠ [] → is_Some (working conn !! tbl)).
Proof.
  revert conn. induction ps as [|p ps IH]; intros conn; simpl.
  - intros [= <-]. split; [lia|done].
  - rewrite Conn_bind_eq.
    destruct (execute (InsertInto tbl cols) p conn) as [[cur|e] conn1] eqn:Hexec; [|done].
    intros Hrest. destruct (IH _ Hrest) as [Hcount _].
    destruct (execute_insert_inv _ _ _ _ _ _ Hexec)
      as (t & t' & vals & Ht & Hw & _ & Hrows & _).
    rewrite Hw, rows_of_insert, Hrows in Hcount.
    rewrite (Permutation_length (insert_by_rowid_perm _ _)) in Hcount. simpl in Hcount.
    rewrite (rows_of_lookup _ _ _ Ht). split; [lia|]. intros _. by eexists.
Qed.

Lemma iterrows_length {L} (df : DataFrame L) : length (iterrows df) = df_len df.
Proof. unfold iterrows. by rewrite length_map, length_seq. Qed.

(** X10: when [insert_data] returns, the relation holds as many rows more
    as the dataset has rows. *)
Theorem insert_data_adds_every_row (df : DataFrame string) (schema : Schema) (st st' : store) :
  insert_data self df schema st = (Ok (), st') →
  length (rows_of (table_name self) (tables st'))
  = (length (rows_of (table_name self) (tables st)) + df_len df)%nat.
Proof.
  intros Hrun. apply get_connection_returns in Hrun as (conn' & Hbody & Htables).
  rewrite Conn_bind_eq in Hbody. unfold lift in Hbody.
  destruct (map_result _ (iterrows df)) as [rows|e] eqn:Hrows; [|done].
  assert (Hlen : length rows = df_len df).
  { apply map_result_inv, Forall2_length in Hrows. by rewrite <- Hrows, iterrows_length. }
  destruct (executemany_insert_count _ _ _ _ _ Hbody) as [Hcount Hexists].
  rewrite connect_working in Hcount, Hexists. rewrite Htables.
  destruct (transient (db_path self)); [|by rewrite Hcount, Hlen].
  destruct rows as [|row rows]; [simpl in Hlen; lia|].
  destruct Hexists as [t Ht]; [done|]. by rewrite lookup_empty in Ht.
Qed.
End RowFacts.

Lemma create_record_adds_one_row_witness :
  let self := {| db_path := "data.db"; table_name := "data" |} in
  let t := {| t_columns := [ {| cd_name := "id"; cd_type := INTEGER; cd_pk := true;
                                cd_autoincrement := true |};
                             {| cd_name := "name"; cd_type := TEXT; cd_pk := false;
                                cd_autoincrement := false |} ];
              t_rows := [(1%Z, [SInt 1; SText "Alice"])]; t_sequence := 1 |} in
  let st := {| tables := {[ "data" := t ]}; statements := [] |} in
  let outcome := @create_record decimal_engine self [("name", PStr "Bob")] st in
  outcome.1 = Ok 2%Z
  ∧ ∃ vals, rows_of "data" (tables outcome.2) ≡ₚ [(2%Z, vals); (1%Z, [SInt 1; SText "Alice"])].
Proof.
  intros self t st outcome. split; [by vm_compute|].
  destruct (@create_record_adds_one_row decimal_engine self [("name", PStr "Bob")] st
              outcome.2 2%Z) as (vals & Hrows & _); [by vm_compute|].
  by exists vals.
Defined.

Lemma insert_data_adds_every_row_witness :
  let self := {| db_path := "data.db"; table_name := "data" |} in
  let schema := {| columns := ["id"; "name"];
                   types := {[ "id" := "int"; "name" := "str" ]};
                   primary_key := "id" |} in
  let df := {| df_columns := ["id"; "name"];
               df_data := [ {| dtype := Int64; values := [PInt 1; PInt 2] |};
                            {| dtype := Object; values := [PStr "Alice"; PStr "Bob"] |} ];
               df_len := 2 |} in
  let st := (@create_table decimal_engine self schema {| tables := ∅; statements := [] |}).2 in
  let outcome := @insert_data decimal_engine self df schema st in
  outcome.1 = Ok () ∧ length (rows_of "data" (tables outcome.2)) = 2%nat.
Proof.
  intros self schema df st outcome. split; [by vm_compute|].
  apply (@insert_data_adds_every_row decimal_engine self df schema st outcome.2).
  by vm_compute.
Defined.

Section ChangeFacts.
Context `{Coercions}.
Variable self : DatabaseManager.

Lemma mret_inv {A} (a b : A) (conn conn' : connection) :
  (mret a : Conn A) conn = (Ok b, conn') → a = b ∧ conn = conn'.
Proof. by intros [= -> ->]. Qed.

Lemma update_rows_inv tbl (t : table) sets wi wd key cur t' :
  update_rows tbl t sets wi wd key = Ok (cur, t') →
  length (t_rows t') = length (t_rows t)
  ∧ ∀ r, r ∈ t_rows t → row_matches wi wd key r = false → r ∈ t_rows t'.
Proof.
  unfold update_rows.
  destruct (map_result _ (t_rows t)) as [rows|e] eqn:Hrows; simpl; [|done].
  destruct (rowid_conflict rows); [done|].
  destruct (rows_pk_conflict _ _); [done|].
  intros [= _ <-]. simpl. apply map_result_inv in Hrows. split.
  - rewrite (Permutation_length (sort_by_rowid_perm rows)).
    symmetry. by eapply Forall2_length.
  - intros r Hr Hno. rewrite sort_by_rowid_perm.
    apply list_elem_of_lookup in Hr as [k Hk].
    destruct (Forall2_lookup_l _ _ _ _ _ Hrows Hk) as (r' & Hk' & Hsame).
    rewrite Hno in Hsame. injection Hsame as <-. by eapply list_elem_of_lookup_2.
Qed.

Lemma execute_update_inv tbl set_cols where_col params conn cur conn' :
  execute (UpdateWhere tbl set_cols where_col) params conn = (Ok cur, conn') →
  ∃ t t' wi wd key,
    working conn !! tbl = Some t
    ∧ working conn' = <[tbl := t']> (working conn)
    ∧ find_column (t_columns t) where_col = Some (wi, wd)
    ∧ (bind_param (nth (length set_cols) params PNA) = Ok key)
    ∧ length (t_rows t') = length (t_rows t)
    ∧ ∀ r, r ∈ t_rows t → row_matches wi wd key r = false → r ∈ t_rows t'.
Proof.
  unfold execute, compile_bind_run. cbn [working record].
  destruct (prepare _ _) as [[]|e]; simpl; [|done].
  unfold bind_params. cbn [placeholders].
  destruct (Nat.eqb_spec (length params) (S (length set_cols))) as [Hlen|]; [|done].
  destruct (map_result bind_param params) as [values|e] eqn:Hbind; simpl; [|done].
  unfold run. destruct (prepare _ _) as [[]|e]; simpl; [|done].
  destruct (working conn !! tbl) as [t|] eqn:Ht; [|done].
  destruct (map_result (resolve t) set_cols) as [targets|e]; simpl; [|done].
  unfold resolve at 1.
  destruct (find_column (t_columns t) where_col) as [[wi wd]|] eqn:Hwhere; simpl; [|done].
  destruct (update_rows _ _ _ _ _ _) as [[cur' t']|e] eqn:Hup; simpl; [|done].
  intros [= <- <-]. simpl.
  destruct (update_rows_inv _ _ _ _ _ _ _ _ Hup) as [Hcount Hkeep].
  exists t, t', wi, wd, (nth (length set_cols) values SNull).
  split_and!; try done.
  apply map_result_inv in Hbind.
  destruct (params !! length set_cols) as [p|] eqn:Hp.
  - destruct (Forall2_lookup_l _ _ _ _ _ Hbind Hp) as (v & Hv & Hpv).
    rewrite (nth_lookup_Some _ _ _ _ Hp), (nth_lookup_Some _ _ _ _ Hv). done.
  - apply lookup_ge_None in Hp. lia.
Qed.

(** X11: when [update_record] returns, the relation holds as many rows
    as before, and every row whose value in the column resolved as the key
    differs from [record_id] is still there as it was. *)
Theorem update_record_keeps_other_rows (record_id : cell) (data : dict) (st st' : store) :
  update_record self record_id data st = (Ok (), st') →
  length (rows_of (table_name self) (tables st'))
  = length (rows_of (table_name self) (tables st))
  ∧ ∀ primary_key t i d key r,
      update_primary_key data = Ok primary_key →
      tables st !! table_name self = Some t →
      find_column (t_columns t) primary_key = Some (i, d) →
      bind_param record_id = Ok key →
      r ∈ t_rows t → row_matches i d key r = false →
      r ∈ rows_of (table_name self) (tables st').
Proof.
  unfold update_record.
  destruct (update_primary_key data) as [pk|e]; [|done].
  destruct (filter (fun col => col ≠ pk) (keys data)) as [|c cs] eqn:Hset.
  { intros [= <-]. split; [done|].
    intros pk' t i d key r [= <-] Ht _ _ Hr _. by rewrite (rows_of_lookup _ _ _ Ht). }
  intros Hrun. apply get_connection_returns in Hrun as (conn' & Hbody & Htables).
  rewrite Conn_bind_eq in Hbody. unfold lift in Hbody.
  destruct (map_result (dict_getitem data) (c :: cs)) as [values|e] eqn:Hvalues; [|done].
  rewrite Conn_bind_eq in Hbody.
  destruct (execute _ (values ++ [record_id]) (connect self st))
    as [[cur|e] conn1] eqn:Hexec; [|done].
  apply mret_inv in Hbody as [_ <-].
  destruct (execute_update_inv _ _ _ _ _ _ _ Hexec)
    as (t & t' & wi & wd & key & Ht & Hw & Hwhere & Hkey & Hcount & Hkeep).
  assert (Hlen : length values = length (c :: cs)).
  { apply map_result_inv, Forall2_length in Hvalues. done. }
  rewrite <- Hlen, nth_middle in Hkey.
  rewrite connect_working in Ht, Hw. rewrite Htables.
  destruct (transient (db_path self)); [by rewrite lookup_empty in Ht|].
  rewrite Hw, rows_of_insert, (rows_of_lookup _ _ _ Ht). split; [done|].
  intros pk' t0 i d key0 r [= <-] Ht0 Hfind Hkey0 Hr Hno.
  rewrite Ht in Ht0. injection Ht0 as <-.
  rewrite Hwhere in Hfind. injection Hfind as <- <-.
  rewrite Hkey in Hkey0. injection Hkey0 as <-.
  by apply Hkeep.
Qed.

Lemma execute_delete_inv tbl where_col params conn cur conn' :
  execute (DeleteWhere tbl where_col) params conn = (Ok cur, conn') →
  ∃ t wi wd key,
    working conn !! tbl = Some t
    ∧ find_column (t_columns t) where_col = Some (wi, wd)
    ∧ map_result bind_param params = Ok [key]
    ∧ working conn'
      = <[tbl := {| t_columns := t_columns t;
                    t_rows := filter (fun r => row_matches wi wd key r = false) (t_rows t);
                    t_sequence := t_sequence t |}]> (working conn)
    ∧ rowcount cur
      = (Z.of_nat (length (t_rows t))
         - Z.of_nat (length (filter (fun r => row_matches wi wd key r = false) (t_rows t))))%Z.
Proof.
  unfold execute, compile_bind_run. cbn [working record].
  destruct (prepare _ _) as [[]|e]; simpl; [|done].
  unfold bind_params. cbn [placeholders].
  destruct (Nat.eqb_spec (length params) 1) as [Hlen|]; [|done].
  destruct (map_result bind_param params) as [values|e] eqn:Hbind; simpl; [|done].
  unfold run. destruct (prepare _ _) as [[]|e]; simpl; [|done].
  destruct (working conn !! tbl) as [t|] eqn:Ht; [|done].
  unfold resolve.
  destruct (find_column (t_columns t) where_col) as [[wi wd]|] eqn:Hwhere; simpl; [|done].
  intros [= <- <-]. simpl.
  apply map_result_inv in Hbind as Hall. apply Forall2_length in Hall.
  destruct values as [|key [|]]; simpl in Hall; try lia.
  by exists t, wi, wd, key.
Qed.

Lemma execute_pragma tbl conn :
  execute (PragmaTableInfo tbl) [] conn
  = (Ok {| rowcount := -1; lastrowid := 0;
           results := InfoRows (match working conn !! tbl with
                                | Some t => table_info (t_columns t) 0 0
                                | None => []
                                end) |},
     {| committed := committed conn; working := working conn;
        journal := journal conn ++ [(PragmaTableInfo tbl, [])] |}).
Proof. reflexivity. Qed.

(** What [delete_record] leaves of the relation when it returns. *)
Lemma delete_record_leaves (record_id : cell) (st st' : store) :
  delete_record self record_id st = (Ok (), st') →
  ∃ t t', tables st !! table_name self = Some t
          ∧ tables st' !! table_name self = Some t'
          ∧ t_columns t' = t_columns t
          ∧ t_sequence t' = t_sequence t
          ∧ t_rows t' `sublist_of` t_rows t.
Proof.
  intros Hrun. apply get_connection_returns in Hrun as (conn' & Hbody & Htables).
  rewrite Htables. rewrite Conn_bind_eq in Hbody.
  destruct (execute _ [record_id] (connect self st)) as [[cur|e] conn1] eqn:Hfirst; [|done].
  destruct (execute_delete_inv _ _ _ _ _ _ Hfirst)
    as (t & wi & wd & key & Ht & _ & _ & Hw1 & _).
  rewrite connect_working in Ht, Hw1.
  destruct (transient (db_path self)); [done|].
  exists t.
  set (t1 := {| t_columns := t_columns t;
                t_rows := filter (fun r => row_matches wi wd key r = false) (t_rows t);
                t_sequence := t_sequence t |}) in *.
  assert (Ht1 : working conn1 !! table_name self = Some t1)
    by (rewrite Hw1; apply lookup_insert_eq).
  assert (Hsub1 : t_rows t1 `sublist_of` t_rows t) by apply sublist_filter.
  destruct (rowcount cur =? 0)%Z.
  2:{ apply mret_inv in Hbody as [_ <-]. by exists t1. }
  rewrite Conn_bind_eq, execute_pragma in Hbody.
  cbn [results] in Hbody.
  destruct (match working conn1 !! table_name self with
            | Some t => table_info (t_columns t) 0 0
            | None => []
            end) as [|first rest].
  { apply mret_inv in Hbody as [_ <-]. by exists t1. }
  rewrite Conn_bind_eq in Hbody.
  destruct (execute (DeleteWhere _ (pk_column _ _)) [record_id] _)
    as [[cur2|e] conn2] eqn:Hsecond; [|done].
  apply mret_inv in Hbody as [_ <-].
  destruct (execute_delete_inv _ _ _ _ _ _ Hsecond)
    as (t2 & wi2 & wd2 & key2 & Ht2 & _ & _ & Hw2 & _).
  cbn [working] in Ht2, Hw2. rewrite Ht1 in Ht2. injection Ht2 as <-.
  eexists. rewrite Hw2, lookup_insert_eq. split; [done|]. split; [done|].
  cbn [t_columns t_sequence t_rows]. split; [done|]. split; [done|].
  etrans; [apply sublist_filter|done].
Qed.

(** X12: when [delete_record] returns, what is left of the relation is
    a sub-list of what was there: no row is added or changed, and the rows
    that remain keep their order. *)
Theorem delete_record_only_removes (record_id : cell) (st st' : store) :
  delete_record self record_id st = (Ok (), st') →
  rows_of (table_name self) (tables st') `sublist_of` rows_of (table_name self) (tables st).
Proof.
  intros Hrun.
  destruct (delete_record_leaves record_id st st' Hrun) as (t & t' & Ht & Ht' & _ & _ & Hsub).
  by rewrite (rows_of_lookup _ _ _ Ht), (rows_of_lookup _ _ _ Ht').
Qed.

(** X13: [read_all] is read-only: whether it returns or raises, every
    table is as it was; and what it returns for an existing relation is
    the declared columns in order and the rows as the table holds them. *)
Theorem read_all_reads_only (st : store) :
  tables (read_all self st).2 = tables st
  ∧ (∀ t, transient (db_path self) = false →
          tables st !! table_name self = Some t →
          (read_all self st).1
          = Ok {| qf_columns := map cd_name (t_columns t); qf_rows := (t_rows t).*2 |}).
Proof.
  split.
  - unfold read_all, except_sqlite3, get_connection, read_sql_query, execute,
      compile_bind_run, run, prepare. cbn [working record].
    rewrite connect_working. unfold close, commit, rollback, connect.
    destruct (transient (db_path self)) eqn:Htr; cbn [committed working].
    + by rewrite lookup_empty.
    + by destruct (tables st !! table_name self).
  - intros t Htr Ht. by rewrite (read_all_existing self st t Htr Ht).
Qed.
End ChangeFacts.

Lemma update_record_keeps_other_rows_witness :
  let self := {| db_path := "data.db"; table_name := "data" |} in
  let id := {| cd_name := "id"; cd_type := INTEGER; cd_pk := true; cd_autoincrement := true |} in
  let t := {| t_columns := [ id; {| cd_name := "name"; cd_type := TEXT; cd_pk := false;
                                    cd_autoincrement := false |} ];
              t_rows := [(1%Z, [SInt 1; SText "Alice"]); (2%Z, [SInt 2; SText "Bob"])];
              t_sequence := 2 |} in
  let st := {| tables := {[ "data" := t ]}; statements := [] |} in
  let outcome :=
    @update_record decimal_engine self (PInt 1) [("id", PInt 1); ("name", PStr "Alicia")] st in
  outcome.1 = Ok ()
  ∧ length (rows_of "data" (tables outcome.2)) = 2%nat
  ∧ (2%Z, [SInt 2; SText "Bob"]) ∈ rows_of "data" (tables outcome.2).
Proof.
  intros self id t st outcome. split; [by vm_compute|].
  destruct (@update_record_keeps_other_rows decimal_engine self (PInt 1)
              [("id", PInt 1); ("name", PStr "Alicia")] st outcome.2) as [Hcount Hkeep];
    [by vm_compute|].
  split; [exact Hcount|].
  apply (Hkeep "id" t 0%nat id (SInt 1)); try reflexivity.
  apply list_elem_of_further, list_elem_of_here.
Defined.

Lemma delete_record_only_removes_witness :
  let self := {| db_path := "data.db"; table_name := "data" |} in
  let t := {| t_columns := [ {| cd_name := "id"; cd_type := INTEGER; cd_pk := true;
                                cd_autoincrement := true |};
                             {| cd_name := "name"; cd_type := TEXT; cd_pk := false;
                                cd_autoincrement := false |} ];
              t_rows := [(1%Z, [SInt 1; SText "Alice"]); (2%Z, [SInt 2; SText "Bob"])];
              t_sequence := 2 |} in
  let st := {| tables := {[ "data" := t ]}; statements := [] |} in
  let outcome := @delete_record decimal_engine self (PInt 1) st in
  outcome.1 = Ok ()
  ∧ rows_of "data" (tables outcome.2)
    `sublist_of` [(1%Z, [SInt 1; SText "Alice"]); (2%Z, [SInt 2; SText "Bob"])].
Proof.
  intros self t st outcome. split; [by vm_compute|].
  apply (@delete_record_only_removes decimal_engine self (PInt 1) st outcome.2).
  by vm_compute.
Defined.

Section EdgeFacts.
Context `{Coercions}.
Variable self : DatabaseManager.

Lemma col_def_name_of (schema : Schema) l : cd_name (col_def schema l) = l.
Proof. unfold col_def. by repeat case_decide. Qed.

Lemma col_def_pk_iff (schema : Schema) l :
  cd_pk (col_def schema l) = true ↔ l = primary_key schema.
Proof. unfold col_def. repeat case_decide; simpl; split; done. Qed.

Lemma col_defs_names (schema : Schema) cols : map cd_name (map (col_def schema) cols) = cols.
Proof.
  rewrite map_map. rewrite <- (map_id cols) at 2. apply map_ext, col_def_name_of.
Qed.

(** X14: on a database file without the relation, a [create_table] that
    returns leaves an empty relation with the columns of the descriptor,
    in order, and nothing else: a column is declared PRIMARY KEY exactly
    when it bears the name of the descriptor's key, so a synthetic [id]
    that is not listed among the columns is not created; [read_all] then
    returns the columns and no row. *)
Theorem create_table_declares_the_columns (schema : Schema) (st st' : store) :
  transient (db_path self) = false →
  tables st !! table_name self = None →
  create_table self schema st = (Ok (), st') →
  ∃ t, tables st' !! table_name self = Some t
       ∧ map cd_name (t_columns t) = columns schema
       ∧ t_rows t = []
       ∧ (∀ d, d ∈ t_columns t → cd_pk d = true ↔ cd_name d = primary_key schema)
       ∧ (primary_key schema ∉ columns schema → ∀ d, d ∈ t_columns t → cd_pk d = false)
       ∧ (read_all self st').1 = Ok {| qf_columns := columns schema; qf_rows := [] |}.
Proof.
  intros Htr Hfresh Hrun.
  apply get_connection_returns in Hrun as (conn' & Hbody & Htables).
  rewrite Htr in Htables. rewrite Conn_bind_eq in Hbody.
  rewrite execute_create_fresh in Hbody by (by rewrite connect_working, Htr).
  destruct (create_checks _ _) as [[]|e]; [|done].
  apply mret_inv in Hbody as [_ <-]. cbn [working] in Htables.
  rewrite connect_working, Htr in Htables.
  set (t := {| t_columns := map (col_def schema) (columns schema);
               t_rows := []; t_sequence := 0 |}) in *.
  assert (Ht : tables st' !! table_name self = Some t)
    by (rewrite Htables; apply lookup_insert_eq).
  assert (Hpk : ∀ d, d ∈ t_columns t → cd_pk d = true ↔ cd_name d = primary_key schema).
  { intros d (l & -> & _)%list_elem_of_fmap.
    by rewrite col_def_pk_iff, col_def_name_of. }
  exists t. split_and!; try done.
  - apply col_defs_names.
  - intros Hnot d Hd. apply not_true_is_false. intros Htrue%Hpk; [|done].
    apply Hnot. rewrite <- Htrue, <- (col_defs_names schema (columns schema)).
    by apply list_elem_of_fmap_2.
  - rewrite (read_all_existing self st' t Htr Ht). simpl. by rewrite col_defs_names.
Qed.

Lemma ident_eqb_sym a b : ident_eqb a b = ident_eqb b a.
Proof.
  unfold ident_eqb. destruct (String.eqb_spec (map_chars lower a) (map_chars lower b)) as [->|Hne].
  - by rewrite String.eqb_refl.
  - symmetry. apply String.eqb_neq. congruence.
Qed.

Lemma duplicate_name_some (defs : list column_def) i j a b :
  (i < j)%nat → defs !! i = Some a → defs !! j = Some b →
  ident_eqb (cd_name a) (cd_name b) = true →
  ∃ col, duplicate_name defs = Some col ∧ col ∈ map cd_name defs.
Proof.
  revert i j. induction defs as [|d defs IH]; intros i j Hlt Ha Hb Heq; [done|].
  simpl.
  destruct (existsb (fun d' => ident_eqb (cd_name d') (cd_name d)) defs) eqn:Hex.
  - exists (cd_name d). split; [done|]. apply list_elem_of_here.
  - destruct i as [|i].
    + injection Ha as ->. destruct j as [|j]; [lia|]. simpl in Hb.
      assert (Htrue : existsb (fun d' => ident_eqb (cd_name d') (cd_name a)) defs = true).
      { apply existsb_exists. exists b. split.
        - apply list_elem_of_In. by eapply list_elem_of_lookup_2.
        - by rewrite ident_eqb_sym. }
      congruence.
    + destruct j as [|j]; [lia|]. simpl in Ha, Hb.
      destruct (IH i j) as (col & -> & Hcol); [lia|done|done|done|].
      exists col. split; [done|]. by apply list_elem_of_further.
Qed.


Lemma dict_getitem_key (data : dict) col :
  col ∈ keys data → ∃ v, dict_getitem data col = Ok v.
Proof.
  unfold dict_getitem, keys. induction data as [|[k v] data IH]; simpl.
  - intros Hin. by apply elem_of_nil in Hin.
  - destruct (String.eqb_spec k col) as [->|Hne]; [by eexists|].
    intros [?|Hin]%elem_of_cons; [done|]. by apply IH.
Qed.

Lemma dict_values (data : dict) cols :
  cols ⊆ keys data → ∃ values, map_result (dict_getitem data) cols = Ok values.
Proof.
  induction cols as [|c cols IH]; intros Hsub; simpl; [by eexists|].
  destruct (dict_getitem_key data c) as [v ->]; [set_solver|].
  destruct IH as [values ->]; [set_solver|]. by eexists.
Qed.


(** X17: the empty record is refused too: the INSERT that
    [create_record] builds for it has an empty column list, which the
    engine does not parse. *)
Theorem create_record_empty_record (st : store) (t : table) :
  transient (db_path self) = false →
  tables st !! table_name self = Some t →
  create_record self [] st
  = (Raise (DatabaseError ("Database operation failed: near " +:+ quote +:+ ")" +:+ quote
                           +:+ ": syntax error")),
     {| tables := tables st;
        statements := statements st ++ [(InsertInto (table_name self) [], [])] |}).
Proof.
  intros Htr Ht.
  unfold create_record, except_sqlite3, get_connection, connect, close, rollback.
  rewrite Htr, Conn_bind_eq. unfold lift. cbn [keys fmap list_fmap map_result].
  rewrite Conn_bind_eq.
  unfold execute, compile_bind_run, prepare. cbn [working record].
  rewrite Ht. done.
Qed.
End EdgeFacts.

Lemma create_table_declares_the_columns_witness :
  let self := {| db_path := "data.db"; table_name := "data" |} in
  let schema := {| columns := ["category"; "value"];
                   types := {[ "category" := "str"; "value" := "int" ]};
                   primary_key := "id" |} in
  let st := {| tables := ∅; statements := [] |} in
  let outcome := @create_table decimal_engine self schema st in
  outcome.1 = Ok ()
  ∧ ∃ t, tables outcome.2 !! "data" = Some t
         ∧ map cd_name (t_columns t) = ["category"; "value"]
         ∧ (∀ d, d ∈ t_columns t → cd_pk d = false).
Proof.
  intros self schema st outcome. split; [by vm_compute|].
  destruct (@create_table_declares_the_columns decimal_engine self schema st outcome.2)
    as (t & Ht & Hnames & _ & _ & Hnokey & _); [reflexivity|reflexivity|by vm_compute|].
  exists t. split; [exact Ht|]. split; [exact Hnames|]. apply Hnokey.
  apply (bool_decide_unpack _). by vm_compute.
Defined.



Lemma create_record_empty_record_witness :
  let self := {| db_path := "data.db"; table_name := "data" |} in
  let t := {| t_columns := [ {| cd_name := "id"; cd_type := INTEGER; cd_pk := true;
                                cd_autoincrement := true |} ];
              t_rows := []; t_sequence := 0 |} in
  let st := {| tables := {[ "data" := t ]}; statements := [] |} in
  ∃ msg, (@create_record decimal_engine self [] st).1 = Raise (DatabaseError msg)
         ∧ tables (@create_record decimal_engine self [] st).2 = tables st.
Proof.
  intros self t st. eexists.
  rewrite (@create_record_empty_record decimal_engine self st t); [|reflexivity..].
  split; reflexivity.
Defined.

Section ErrorFacts.
Context `{Coercions}.
Variable self : DatabaseManager.

Lemma map_result_raises {A B} (P : exn → Prop) (f : A → result B) xs e :
  (∀ x e, f x = Raise e → P e) → map_result f xs = Raise e → P e.
Proof.
  intros Hf. induction xs as [|x xs IH]; simpl; [done|].
  destruct (f x) as [y|e0] eqn:Hx; simpl; [|intros [= <-]; by eapply Hf].
  destruct (map_result f xs) as [ys|e1]; simpl; [done|].
  intros [= <-]. by apply IH.
Qed.

Lemma resolve_raises (t : table) col e : resolve t col = Raise e → engine_failure e.
Proof. unfold resolve. destruct (find_column _ _); [done|]. by intros [= <-]. Qed.

Lemma prepare_raises sql db e : prepare sql db = Raise e → engine_failure e.
Proof.
  destruct sql as [tbl defs|tbl cols|tbl|tbl set_cols where_col|tbl where_col|tbl]; simpl.
  - destruct (db !! tbl); [done|]. unfold create_checks.
    destruct (length defs =? 0)%nat; [by intros [= <-]|].
    destruct (duplicate_name defs); [by intros [= <-]|].
    destruct (1 <? _)%nat; [by intros [= <-]|].
    destruct (existsb _ defs); [by intros [= <-]|done].
  - destruct (db !! tbl) as [t|]; [|by intros [= <-]]. unfold insert_checks.
    destruct (length cols =? 0)%nat; [by intros [= <-]|].
    destruct (find _ cols); [by intros [= <-]|done].
  - destruct (db !! tbl); [done|by intros [= <-]].
  - destruct (db !! tbl) as [t|]; [|by intros [= <-]].
    destruct (map_result (resolve t) set_cols) as [targets|e0] eqn:Hset; simpl.
    + destruct (resolve t where_col) as [found|e0] eqn:Hwhere; simpl; [done|].
      intros [= <-]. by eapply resolve_raises.
    + intros [= <-]. eapply (map_result_raises engine_failure); [|exact Hset].
      apply resolve_raises.
  - destruct (db !! tbl) as [t|]; [|by intros [= <-]].
    destruct (resolve t where_col) as [found|e0] eqn:Hwhere; simpl; [done|].
    intros [= <-]. by eapply resolve_raises.
  - done.
Qed.

Lemma bind_params_raises sql params e : bind_params sql params = Raise e → engine_failure e.
Proof.
  unfold bind_params. destruct (_ =? _)%nat; [|by intros [= <-]].
  apply map_result_raises. intros v e0. destruct v as [z| | | |]; simpl; try done.
  - destruct (in_int64 z); [done|by intros [= <-]].
  - by intros [= <-].
Qed.

Lemma insert_row_raises tbl (t : table) cols params e :
  insert_row tbl t cols params = Raise e → engine_failure e.
Proof.
  unfold insert_row.
  destruct (rowid_alias (t_columns t)) as [[i d]|].
  - destruct (nth i _ SNull) as [|z|q|s]; simpl; try by intros [= <-].
    + destruct (negb _); [by intros [= <-]|].
      destruct (pk_conflict _ _ _ _); [by intros [= <-]|done].
    + destruct (existsb _ (t_rows t)); simpl; [by intros [= <-]|].
      destruct (negb _); [by intros [= <-]|].
      destruct (pk_conflict _ _ _ _); [by intros [= <-]|done].
  - simpl. destruct (negb _); [by intros [= <-]|].
    destruct (pk_conflict _ _ _ _); [by intros [= <-]|done].
Qed.

Lemma assign_raises (r : result (Z * list sqlval)) cv e :
  (∀ e0, r = Raise e0 → engine_failure e0) → assign r cv = Raise e → engine_failure e.
Proof.
  intros Hr. unfold assign. destruct r as [[rid vals]|e0]; simpl.
  - destruct cv as [[i d] v]. destruct (is_rowid_alias d); [|done].
    destruct (apply_affinity (cd_type d) v); try done; by intros [= <-].
  - intros [= <-]. by apply Hr.
Qed.

Lemma foldl_assign_raises sets (r : result (Z * list sqlval)) e :
  (∀ e0, r = Raise e0 → engine_failure e0) →
  foldl assign r sets = Raise e → engine_failure e.
Proof.
  revert r. induction sets as [|cv sets IH]; intros r Hr; simpl.
  - apply Hr.
  - apply IH. intros e0. by apply assign_raises.
Qed.

Lemma update_rows_raises tbl (t : table) sets wi wd key e :
  update_rows tbl t sets wi wd key = Raise e → engine_failure e.
Proof.
  unfold update_rows.
  destruct (map_result _ (t_rows t)) as [rows|e0] eqn:Hrows; simpl.
  - destruct (rowid_conflict rows); [by intros [= <-]|].
    destruct (rows_pk_conflict _ _); [by intros [= <-]|done].
  - intros [= <-]. eapply (map_result_raises engine_failure); [|exact Hrows].
    intros r e1. simpl. destruct (row_matches wi wd key r); [|done].
    by apply foldl_assign_raises.
Qed.

Lemma run_raises sql params db e : run sql params db = Raise e → engine_failure e.
Proof.
  unfold run. destruct (prepare sql db) as [[]|e0] eqn:Hprep; simpl;
    [|intros [= <-]; by eapply prepare_raises].
  destruct sql as [tbl defs|tbl cols|tbl|tbl set_cols where_col|tbl where_col|tbl].
  - by destruct (db !! tbl).
  - destruct (db !! tbl) as [t|]; [|by intros [= <-]].
    destruct (insert_row tbl t cols params) as [[cur t']|e0] eqn:Hrow; simpl; [done|].
    intros [= <-]. by eapply insert_row_raises.
  - destruct (db !! tbl); [done|by intros [= <-]].
  - destruct (db !! tbl) as [t|]; [|by intros [= <-]].
    destruct (map_result (resolve t) set_cols) as [targets|e0] eqn:Hset; simpl.
    + destruct (resolve t where_col) as [[wi wd]|e0] eqn:Hwhere; simpl.
      * destruct (update_rows _ _ _ _ _ _) as [[cur t']|e0] eqn:Hup; simpl; [done|].
        intros [= <-]. by eapply update_rows_raises.
      * intros [= <-]. by eapply resolve_raises.
    + intros [= <-]. eapply (map_result_raises engine_failure); [|exact Hset].
      apply resolve_raises.
  - destruct (db !! tbl) as [t|]; [|by intros [= <-]].
    destruct (resolve t where_col) as [[wi wd]|e0] eqn:Hwhere; simpl.
    + by destruct (delete_rows t wi wd (nth 0 params SNull)).
    + intros [= <-]. by eapply resolve_raises.
  - done.
Qed.

Lemma execute_raises sql params conn e conn' :
  execute sql params conn = (Raise e, conn') → engine_failure e.
Proof.
  unfold execute, compile_bind_run. cbn [working record].
  destruct (prepare sql (working conn)) as [[]|e0] eqn:Hprep; simpl;
    [|intros [= <- _]; by eapply prepare_raises].
  destruct (bind_params sql params) as [values|e0] eqn:Hbind; simpl;
    [|intros [= <- _]; by eapply bind_params_raises].
  destruct (run sql values (working conn)) as [[cur db']|e0] eqn:Hrun; simpl; [done|].
  intros [= <- _]. by eapply run_raises.
Qed.

Lemma executemany_raises sql rows conn e conn' :
  executemany sql rows conn = (Raise e, conn') → engine_failure e.
Proof.
  revert conn. induction rows as [|params rows IH]; intros conn; simpl; [done|].
  rewrite Conn_bind_eq.
  destruct (execute sql params conn) as [[cur|e0] conn1] eqn:Hexec.
  - apply IH.
  - intros [= <- _]. by eapply execute_raises.
Qed.

Lemma raises_none_ret {A} (a : A) : raises_none (mret a).
Proof. by intros conn msg. Qed.

Lemma raises_none_lift {A} (r : result A) :
  (∀ msg, r ≠ Raise (DatabaseError msg)) → raises_none (lift r).
Proof. intros Hr conn msg. apply Hr. Qed.

Lemma raises_none_bind {A B} (m : Conn A) (f : A → Conn B) :
  raises_none m → (∀ a, raises_none (f a)) → raises_none (m ≫= f).
Proof.
  intros Hm Hf conn msg. rewrite Conn_bind_eq. specialize (Hm conn msg).
  destruct (m conn) as [[a|e] conn1]; simpl in *; [apply Hf|].
  intros [= ->]. by apply Hm.
Qed.

Lemma raises_none_execute sql params : raises_none (execute sql params).
Proof.
  intros conn msg.
  destruct (execute sql params conn) as [[cur|e] conn1] eqn:Hexec; simpl; [done|].
  intros [= ->]. by apply execute_raises in Hexec.
Qed.

Lemma raises_none_executemany sql rows : raises_none (executemany sql rows).
Proof.
  induction rows as [|params rows IH]; simpl.
  - apply raises_none_ret.
  - apply raises_none_bind; [apply raises_none_execute|done].
Qed.

Lemma raises_none_read_sql_query tbl : raises_none (read_sql_query tbl).
Proof.
  intros conn msg. unfold read_sql_query.
  destruct (execute (SelectAll tbl) [] conn) as [[cur|e] conn1]; simpl; [|done].
  by destruct (results cur).
Qed.

Lemma dict_getitem_raises (data : dict) col msg :
  dict_getitem data col ≠ Raise (DatabaseError msg).
Proof. unfold dict_getitem. by destruct (find _ data). Qed.

Lemma row_getitem_raises (row : list (string * cell)) col msg :
  row_getitem row col ≠ Raise (DatabaseError msg).
Proof. unfold row_getitem. by destruct ((filter _ row).*2) as [|c [|c' rest]]. Qed.

Lemma map_result_raises_none {A B} (f : A → result B) xs :
  (∀ x msg, f x ≠ Raise (DatabaseError msg)) →
  ∀ msg, map_result f xs ≠ Raise (DatabaseError msg).
Proof.
  intros Hf msg Hraise.
  assert (Hstep : ∀ x e, f x = Raise e → ∀ m, e ≠ DatabaseError m).
  { intros x e Hx m ->. by apply (Hf x m). }
  exact (map_result_raises (fun e => ∀ m, e ≠ DatabaseError m) f xs _ Hstep Hraise
           msg eq_refl).
Qed.

Lemma get_connection_one_prefix {A} prefix (body : Conn A) :
  raises_none body → one_prefix (except_sqlite3 prefix (get_connection self body)).
Proof.
  intros Hbody st msg. unfold except_sqlite3, get_connection.
  specialize (Hbody (connect self st)).
  destruct (body (connect self st)) as [[a|e] conn1]; simpl in *; [done|].
  destruct e as [m|m|m|m|m|m|m|m|m|m|m|m|m]; simpl; try done.
  - intros _. by destruct (Hbody m).
  - intros [= <-]. by eexists.
Qed.

(** X18: whatever [DatabaseError] an operation of the adapter raises, its
    message is [Database operation failed: ] followed by the message of
    the engine: the handler of the context manager is the only one that
    ever fires, and the texts of the operations' own handlers
    ([Failed to create table: ...] and the like) never reach a caller. *)
Theorem database_errors_have_one_prefix :
  (∀ schema, one_prefix (create_table self schema))
  ∧ (∀ df schema, one_prefix (insert_data self df schema))
  ∧ (∀ data, one_prefix (create_record self data))
  ∧ one_prefix (read_all self)
  ∧ (∀ record_id data, one_prefix (update_record self record_id data))
  ∧ (∀ record_id, one_prefix (delete_record self record_id)).
Proof.
  split_and!.
  - intros schema. apply get_connection_one_prefix.
    apply raises_none_bind; [apply raises_none_execute|]. intros _. apply raises_none_ret.
  - intros df schema. apply get_connection_one_prefix.
    apply raises_none_bind; [|intros rows; apply raises_none_executemany].
    apply raises_none_lift, map_result_raises_none. intros row.
    apply map_result_raises_none. intros col msg.
    destruct (row_getitem row col) as [val|e] eqn:Hget; simpl; [done|].
    intros [= ->]. by eapply row_getitem_raises.
  - intros data. apply get_connection_one_prefix.
    apply raises_none_bind.
    + apply raises_none_lift, map_result_raises_none. intros col msg.
      apply dict_getitem_raises.
    + intros values. apply raises_none_bind; [apply raises_none_execute|].
      intros cur. apply raises_none_ret.
  - apply get_connection_one_prefix, raises_none_read_sql_query.
  - intros record_id data st msg. unfold update_record.
    destruct (update_primary_key data) as [pk|e] eqn:Hpk.
    + destruct (filter (fun col => col ≠ pk) (keys data)) as [|c cs] eqn:Hset; [done|].
      apply get_connection_one_prefix.
      apply raises_none_bind.
      * apply raises_none_lift, map_result_raises_none. intros col msg'.
        apply dict_getitem_raises.
      * intros values. apply raises_none_bind; [apply raises_none_execute|].
        intros cur. apply raises_none_ret.
    + simpl. intros [= ->]. unfold update_primary_key in Hpk.
      destruct (bool_decide _); [done|]. by destruct (keys data).
  - intros record_id. apply get_connection_one_prefix.
    apply raises_none_bind; [apply raises_none_execute|].
    intros cur. destruct (rowcount cur =? 0)%Z; [|apply raises_none_ret].
    apply raises_none_bind; [apply raises_none_execute|].
    intros cur'. destruct (results cur') as [| |[|first rest]]; try apply raises_none_ret.
    apply raises_none_bind; [apply raises_none_execute|].
    intros _. apply raises_none_ret.
Qed.
End ErrorFacts.

Section UseFacts.
Context `{Coercions}.
Variable self : DatabaseManager.

Lemma execute_no_such_table sql params conn :
  working conn !! statement_table sql = None →
  (∀ tbl defs, sql ≠ CreateTableIfNotExists tbl defs) →
  (∀ tbl, sql ≠ PragmaTableInfo tbl) →
  execute sql params conn
  = (Raise (Sqlite3Error ("no such table: " +:+ statement_table sql)), record sql params conn).
Proof.
  intros Hnone Hcreate Hpragma. unfold execute, compile_bind_run. cbn [working record].
  destruct sql as [tbl defs|tbl cols|tbl|tbl set_cols where_col|tbl where_col|tbl];
    simpl in *; try rewrite Hnone; try done.
  - by destruct (Hcreate tbl defs).
  - by destruct (Hpragma tbl).
Qed.

Lemma get_connection_engine_failure {A} prefix (body : Conn A) (st : store) msg conn' :
  body (connect self st) = (Raise (Sqlite3Error msg), conn') →
  committed conn' = committed (connect self st) →
  (except_sqlite3 prefix (get_connection self body) st).1
  = Raise (DatabaseError ("Database operation failed: " +:+ msg))
  ∧ tables (except_sqlite3 prefix (get_connection self body) st).2 = tables st.
Proof.
  intros Hbody Hc. unfold except_sqlite3, get_connection. rewrite Hbody. cbn [fst snd].
  split; [done|]. unfold close, rollback. cbn [tables committed]. rewrite Hc.
  unfold connect. by destruct (transient (db_path self)).
Qed.


Lemma get_connection_transient {A} prefix (body : Conn A) (st : store) :
  transient (db_path self) = true →
  tables (except_sqlite3 prefix (get_connection self body) st).2 = tables st.
Proof.
  intros Htr. unfold except_sqlite3, get_connection.
  destruct (body (connect self st)) as [[a|e] conn1]; [|destruct e];
    unfold close; by rewrite Htr.
Qed.

(** X20: with the path [:memory:] (or the empty path) nothing is ever
    stored: every call works on a database of its own that is gone when
    the call ends, so each operation leaves the tables as they were, and a
    [create_table] that returned has not created the relation for the
    call that follows. *)
Theorem transient_path_stores_nothing :
  transient (db_path self) = true →
  (∀ schema st, tables (create_table self schema st).2 = tables st)
  ∧ (∀ df schema st, tables (insert_data self df schema st).2 = tables st)
  ∧ (∀ data st, tables (create_record self data st).2 = tables st)
  ∧ (∀ record_id data st, tables (update_record self record_id data st).2 = tables st)
  ∧ (∀ record_id st, tables (delete_record self record_id st).2 = tables st)
  ∧ (∀ schema st st1,
       create_table self schema st = (Ok (), st1) →
       (read_all self st1).1
       = Raise (PandasDatabaseError
                  ("Execution failed on sql 'SELECT * FROM " +:+ table_name self
                   +:+ "': no such table: " +:+ table_name self))).
Proof.
  intros Htr. split_and!.
  - intros schema st. by apply get_connection_transient.
  - intros df schema st. by apply get_connection_transient.
  - intros data st. by apply get_connection_transient.
  - intros record_id data st. unfold update_record.
    destruct (update_primary_key data) as [pk|e]; [|done].
    destruct (filter (fun col => col ≠ pk) (keys data)); [done|].
    by apply get_connection_transient.
  - intros record_id st. by apply get_connection_transient.
  - intros schema st st1 _.
    unfold read_all, except_sqlite3, get_connection, read_sql_query.
    rewrite (execute_no_such_table (SelectAll _))
      by (try done; rewrite connect_working, Htr; apply lookup_empty).
    done.
Qed.

Lemma map_result_ext {A B} (f g : A → result B) xs :
  (∀ x, x ∈ xs → f x = g x) → map_result f xs = map_result g xs.
Proof.
  induction xs as [|x xs IH]; intros Hext; simpl; [done|].
  rewrite (Hext x) by apply list_elem_of_here.
  rewrite IH; [done|]. intros y Hy. apply Hext. by apply list_elem_of_further.
Qed.

(** X21: [update_record] never reads the value that the record holds
    under the field it takes for the key: two records with the same keys
    that agree on every other field have the same effect, whatever the
    key field holds; the row is addressed by [record_id] alone. *)
Theorem update_record_ignores_key_value (record_id : cell) (data data' : dict)
        (st : store) primary_key :
  keys data' = keys data →
  update_primary_key data = Ok primary_key →
  (∀ col, col ≠ primary_key → dict_getitem data' col = dict_getitem data col) →
  update_record self record_id data' st = update_record self record_id data st.
Proof.
  intros Hkeys Hpk Hsame. unfold update_record.
  assert (Hpk' : update_primary_key data' = Ok primary_key)
    by (unfold update_primary_key in *; by rewrite Hkeys).
  rewrite Hpk, Hpk', Hkeys.
  destruct (filter (fun col => col ≠ primary_key) (keys data)) as [|c cs] eqn:Hset; [done|].
  rewrite (map_result_ext (dict_getitem data') (dict_getitem data) (c :: cs)); [done|].
  intros col Hcol. apply Hsame. rewrite <- Hset in Hcol.
  by apply list_elem_of_filter in Hcol as [Hne _].
Qed.
End UseFacts.


Lemma transient_path_stores_nothing_witness :
  let self := {| db_path := ":memory:"; table_name := "data" |} in
  let schema := {| columns := ["name"]; types := {[ "name" := "str" ]};
                   primary_key := "name" |} in
  let st := {| tables := ∅; statements := [] |} in
  let outcome := @create_table decimal_engine self schema st in
  outcome.1 = Ok ()
  ∧ tables outcome.2 = ∅
  ∧ (@read_all decimal_engine self outcome.2).1
    = Raise (PandasDatabaseError
               "Execution failed on sql 'SELECT * FROM data': no such table: data").
Proof.
  intros self schema st outcome.
  destruct (@transient_path_stores_nothing decimal_engine self) as (Hc & _ & _ & _ & _ & Hr);
    [reflexivity|].
  split; [by vm_compute|]. split; [apply (Hc schema st)|].
  apply (Hr schema st outcome.2). by vm_compute.
Defined.

Lemma update_record_ignores_key_value_witness :
  let self := {| db_path := "data.db"; table_name := "data" |} in
  let t := {| t_columns := [ {| cd_name := "id"; cd_type := INTEGER; cd_pk := true;
                                cd_autoincrement := true |};
                             {| cd_name := "name"; cd_type := TEXT; cd_pk := false;
                                cd_autoincrement := false |} ];
              t_rows := [(1%Z, [SInt 1; SText "Alice"]); (2%Z, [SInt 2; SText "Bob"])];
              t_sequence := 2 |} in
  let st := {| tables := {[ "data" := t ]}; statements := [] |} in
  @update_record decimal_engine self (PInt 1) [("id", PInt 2); ("name", PStr "Alicia")] st
  = @update_record decimal_engine self (PInt 1) [("id", PInt 1); ("name", PStr "Alicia")] st.
Proof.
  intros self t st.
  apply (@update_record_ignores_key_value decimal_engine self (PInt 1)
           [("id", PInt 1); ("name", PStr "Alicia")]
           [("id", PInt 2); ("name", PStr "Alicia")] st "id"); [reflexivity|reflexivity|].
  intros col Hcol. unfold dict_getitem. cbn [find fst].
  destruct (String.eqb_spec "id" col) as [<-|_]; [done|reflexivity].
Defined.

Section DeleteFacts.
Context `{Coercions}.
Variable self : DatabaseManager.

Lemma ident_eqb_trans a b c :
  ident_eqb a b = true → ident_eqb b c = ident_eqb a c.
Proof. unfold ident_eqb. by intros ->%String.eqb_eq. Qed.

Lemma find_column_own_name (defs : list column_def) name i d :
  find_column defs name = Some (i, d) → find_column defs (cd_name d) = Some (i, d).
Proof.
  revert i. induction defs as [|d0 defs IH]; intros i; simpl; [done|].
  destruct (ident_eqb (cd_name d0) name) eqn:Hname.
  - intros [= <- <-]. by rewrite ident_eqb_refl.
  - destruct (find_column defs name) as [[i' d']|] eqn:Hfind; simpl; [|done].
    intros [= <- <-]. specialize (IH i' eq_refl).
    assert (Hd : ident_eqb (cd_name d') name = true).
    { clear IH. revert i' Hfind. induction defs as [|d1 defs IH']; intros i'; simpl; [done|].
      destruct (ident_eqb (cd_name d1) name) eqn:H1; [by intros [= <- <-]|].
      destruct (find_column defs name) as [[i2 d2]|]; simpl; [|done].
      intros [= <- <-]. by eapply IH'. }
    rewrite ident_eqb_sym in Hd.
    rewrite (ident_eqb_sym (cd_name d0)), (ident_eqb_trans _ _ _ Hd), ident_eqb_sym, Hname.
    by rewrite IH.
Qed.

Lemma find_column_nonempty (defs : list column_def) name found :
  find_column defs name = Some found → table_info defs 0 0 ≠ [].
Proof. by destruct defs. Qed.

(** The row of [PRAGMA table_info] that has [pk = 1] is the first column
    declared PRIMARY KEY. *)
Lemma table_info_first_key (defs : list column_def) cid d rest :
  filter (fun d => cd_pk d = true) defs = d :: rest →
  ∃ row, find (fun row => (ti_pk row =? 1)%Z) (table_info defs cid 0) = Some row
         ∧ ti_name row = cd_name d.
Proof.
  revert cid. induction defs as [|d0 defs IH]; intros cid; [done|].
  rewrite filter_cons. simpl.
  destruct (decide (cd_pk d0 = true)) as [Hpk|Hpk].
  - intros [= -> _]. rewrite Hpk. simpl. by eexists.
  - apply not_true_is_false in Hpk. rewrite Hpk. simpl. apply IH.
Qed.

Lemma filter_twice {A} (P : A → Prop) `{∀ x, Decision (P x)} (l : list A) :
  filter P (filter P l) = filter P l.
Proof.
  induction l as [|x l IH]; [done|]. rewrite filter_cons.
  destruct (decide (P x)); [|done]. rewrite filter_cons_True by done. by rewrite IH.
Qed.

Lemma execute_delete tbl where_col record_id key conn (t : table) wi wd :
  working conn !! tbl = Some t →
  find_column (t_columns t) where_col = Some (wi, wd) →
  bind_param record_id = Ok key →
  let kept := filter (fun r => row_matches wi wd key r = false) (t_rows t) in
  execute (DeleteWhere tbl where_col) [record_id] conn
  = (Ok {| rowcount := Z.of_nat (length (t_rows t)) - Z.of_nat (length kept);
           lastrowid := 0; results := NoRows |},
     {| committed := committed conn;
        working := <[tbl := {| t_columns := t_columns t; t_rows := kept;
                               t_sequence := t_sequence t |}]> (working conn);
        journal := journal conn ++ [(DeleteWhere tbl where_col, [record_id])] |}).
Proof.
  intros Ht Hfind Hkey kept.
  unfold execute, compile_bind_run, bind_params, run, prepare, resolve.
  cbn [working record placeholders length map_result].
  rewrite Ht, Hfind, Hkey. done.
Qed.

(** X22: on a relation whose only PRIMARY KEY column is called [id],
    [delete_record] returns, removes exactly the rows whose [id] equals
    [record_id] (compared as the engine compares a value with that
    column), and leaves every other row, the columns and the sequence as
    they were. *)
Theorem delete_record_by_id (record_id : cell) (key : sqlval) (st : store)
        (t : table) i d :
  transient (db_path self) = false →
  tables st !! table_name self = Some t →
  find_column (t_columns t) "id" = Some (i, d) →
  filter (fun d => cd_pk d = true) (t_columns t) = [d] →
  bind_param record_id = Ok key →
  ∃ st',
    delete_record self record_id st = (Ok (), st')
    ∧ tables st'
      = <[table_name self :=
            {| t_columns := t_columns t;
               t_rows := filter (fun r => row_matches i d key r = false) (t_rows t);
               t_sequence := t_sequence t |}]> (tables st).
Proof.
  intros Htr Ht Hfind Hpk Hkey.
  set (kept := filter (fun r => row_matches i d key r = false) (t_rows t)).
  set (t1 := {| t_columns := t_columns t; t_rows := kept; t_sequence := t_sequence t |}).
  unfold delete_record, except_sqlite3, get_connection.
  rewrite Conn_bind_eq.
  rewrite (execute_delete _ "id" record_id key _ t i d)
    by (try done; by rewrite connect_working, Htr).
  fold kept. fold t1. rewrite connect_working, Htr. cbn [rowcount committed].
  destruct (Z.of_nat (length (t_rows t)) - Z.of_nat (length kept) =? 0)%Z eqn:Hcount.
  - rewrite Conn_bind_eq, execute_pragma. cbn [working results].
    rewrite lookup_insert_eq. cbn [t_columns t1].
    destruct (table_info_first_key (t_columns t) 0 d [] Hpk) as (row & Hrow & Hname).
    destruct (table_info (t_columns t) 0 0) as [|first rest] eqn:Hinfo.
    { by destruct (find_column_nonempty _ _ _ Hfind). }
    unfold pk_column. rewrite Hrow, Hname. rewrite Conn_bind_eq.
    rewrite (execute_delete _ (cd_name d) record_id key _ t1 i d);
      [|cbn [working]; apply lookup_insert_eq
       |by apply (find_column_own_name _ "id")|done].
    cbn [t1 t_rows t_columns t_sequence working committed].
    replace (filter (fun r => row_matches i d key r = false) kept) with kept
      by (unfold kept; by rewrite filter_twice).
    eexists. split; [reflexivity|].
    unfold close, commit. rewrite Htr. cbn [tables working].
    by rewrite insert_insert_eq.
  - eexists. split; [reflexivity|].
    unfold close, commit. by rewrite Htr.
Qed.
End DeleteFacts.

Lemma delete_record_by_id_witness :
  let self := {| db_path := "data.db"; table_name := "data" |} in
  let id := {| cd_name := "id"; cd_type := INTEGER; cd_pk := true; cd_autoincrement := true |} in
  let name := {| cd_name := "name"; cd_type := TEXT; cd_pk := false;
                 cd_autoincrement := false |} in
  let t := {| t_columns := [id; name];
              t_rows := [(1%Z, [SInt 1; SText "Alice"]); (2%Z, [SInt 2; SText "Bob"])];
              t_sequence := 2 |} in
  let st := {| tables := {[ "data" := t ]}; statements := [] |} in
  ∃ st', @delete_record decimal_engine self (PInt 1) st = (Ok (), st')
         ∧ tables st' = {[ "data" := {| t_columns := [id; name];
                                        t_rows := [(2%Z, [SInt 2; SText "Bob"])];
                                        t_sequence := 2 |} ]}.
Proof.
  intros self id name t st.
  destruct (@delete_record_by_id decimal_engine self (PInt 1) (SInt 1) st t 0%nat id)
    as (st' & Hrun & Htables); [reflexivity..|].
  exists st'. split; [exact Hrun|]. rewrite Htables. by vm_compute.
Defined.

Section StoredFacts.
Context `{Coercions}.
Variable self : DatabaseManager.

(** What one INSERT stores, column by column. *)
Lemma insert_row_stores tbl (t : table) cols params cur t' :
  insert_row tbl t cols params = Ok (cur, t') →
  ∃ vals,
    t_rows t' = insert_by_rowid (lastrowid cur, vals) (t_rows t)
    ∧ t_columns t' = t_columns t
    ∧ t_sequence t' = (if uses_autoincrement t
                       then Z.max (t_sequence t) (lastrowid cur) else t_sequence t)
    ∧ (∀ i d, rowid_alias (t_columns t) = Some (i, d) → vals !! i = Some (SInt (lastrowid cur)))
    ∧ (∀ j d, t_columns t !! j = Some d →
              (∀ d', rowid_alias (t_columns t) ≠ Some (j, d')) →
              vals !! j = Some (apply_affinity (cd_type d) (supplied cols params d)))
    ∧ (∀ i d, rowid_alias (t_columns t) = Some (i, d) →
              supplied cols params d = SNull → lastrowid cur = next_rowid t).
Proof.
  unfold insert_row.
  set (vals0 := map (fun d => apply_affinity (cd_type d) (supplied cols params d))
                    (t_columns t)).
  assert (Hvals0 : ∀ j d, t_columns t !! j = Some d →
                          vals0 !! j = Some (apply_affinity (cd_type d) (supplied cols params d))).
  { intros j d Hd. unfold vals0. by rewrite list_lookup_fmap, Hd. }
  assert (Htail : ∀ rid vals,
             (if negb (in_int64 rid) then sql_error "database or disk is full"
              else match pk_conflict (t_columns t) 0 vals (t_rows t).*2 with
                   | Some col => Raise (unique_failed tbl col)
                   | None =>
                       Ok ({| rowcount := 1; lastrowid := rid; results := NoRows |},
                           {| t_columns := t_columns t;
                              t_rows := insert_by_rowid (rid, vals) (t_rows t);
                              t_sequence := if uses_autoincrement t
                                            then Z.max (t_sequence t) rid
                                            else t_sequence t |})
                   end) = Ok (cur, t') →
             lastrowid cur = rid
             ∧ t_rows t' = insert_by_rowid (rid, vals) (t_rows t)
             ∧ t_columns t' = t_columns t
             ∧ t_sequence t' = (if uses_autoincrement t
                                then Z.max (t_sequence t) rid else t_sequence t)).
  { intros rid vals. destruct (negb (in_int64 rid)); [done|].
    destruct (pk_conflict _ _ _ _); [done|]. by intros [= <- <-]. }
  destruct (rowid_alias (t_columns t)) as [[i d]|] eqn:Halias.
  - destruct (rowid_alias_lookup _ _ _ Halias) as [Hd _].
    pose proof (Hvals0 i d Hd) as Hi.
    assert (Hnth : nth i vals0 SNull = apply_affinity (cd_type d) (supplied cols params d))
      by by apply nth_lookup_Some with (d := SNull) in Hi.
    destruct (nth i vals0 SNull) as [|z|q|s] eqn:Hcase; simpl; try done.
    + intros (Hrid & Hrows & Hcols & Hseq)%Htail.
      exists (<[i := SInt (next_rowid t)]> vals0). rewrite Hrid.
      split_and!; try done.
      * intros i' d' [= <- <-]. apply list_lookup_insert_eq. by eapply lookup_lt_Some.
      * intros j d' Hd' Hnot. rewrite list_lookup_insert_ne; [by apply Hvals0|].
        intros <-. apply (Hnot d). congruence.
    + destruct (existsb _ (t_rows t)); simpl; [done|].
      intros (Hrid & Hrows & Hcols & Hseq)%Htail.
      exists vals0. rewrite Hrid. split_and!; try done.
      * intros i' d' [= <- <-]. rewrite Hi, <- Hnth. done.
      * intros j d' Hd' _. by apply Hvals0.
      * intros i' d' [= <- <-] Hnull. rewrite Hnull in Hnth.
        assert (Haff : apply_affinity (cd_type d) SNull = SNull) by by destruct (cd_type d).
        congruence.
  - simpl. intros (Hrid & Hrows & Hcols & Hseq)%Htail.
    exists vals0. rewrite Hrid. split_and!; try done. intros j d Hd _. by apply Hvals0.
Qed.

Lemma execute_insert_stores tbl cols params conn cur conn' :
  execute (InsertInto tbl cols) params conn = (Ok cur, conn') →
  ∃ t t' bound vals,
    working conn !! tbl = Some t
    ∧ working conn' = <[tbl := t']> (working conn)
    ∧ map_result bind_param params = Ok bound
    ∧ t_rows t' = insert_by_rowid (lastrowid cur, vals) (t_rows t)
    ∧ t_columns t' = t_columns t
    ∧ t_sequence t' = (if uses_autoincrement t
                       then Z.max (t_sequence t) (lastrowid cur) else t_sequence t)
    ∧ (∀ i d, rowid_alias (t_columns t) = Some (i, d) → vals !! i = Some (SInt (lastrowid cur)))
    ∧ (∀ j d, t_columns t !! j = Some d →
              (∀ d', rowid_alias (t_columns t) ≠ Some (j, d')) →
              vals !! j = Some (apply_affinity (cd_type d) (supplied cols bound d)))
    ∧ (∀ i d, rowid_alias (t_columns t) = Some (i, d) →
              supplied cols bound d = SNull → lastrowid cur = next_rowid t).
Proof.
  unfold execute, compile_bind_run. cbn [working record].
  destruct (prepare _ _) as [[]|e]; simpl; [|done].
  unfold bind_params. destruct (_ =? _)%nat; [|done].
  destruct (map_result bind_param params) as [bound|e] eqn:Hbind; simpl; [|done].
  unfold run. destruct (prepare _ _) as [[]|e]; simpl; [|done].
  destruct (working conn !! tbl) as [t|] eqn:Ht; [|done].
  destruct (insert_row tbl t cols bound) as [[cur' t']|e] eqn:Hrow; simpl; [|done].
  intros [= <- <-]. simpl.
  destruct (insert_row_stores _ _ _ _ _ _ Hrow) as (vals & Hrest).
  by exists t, t', bound, vals.
Qed.

(** X23: what [create_record] stores. When it returns [record_id], the
    relation has a new row that [read_all] returns; the row holds
    [record_id] in the INTEGER PRIMARY KEY column, if there is one, and in
    every other column the value that the record gives under the name of
    the column (names compared as SQL identifiers), converted as the
    column's affinity asks, or NULL when the record has no such key. *)
Theorem create_record_stores_the_record (data : dict) (st st' : store) (record_id : Z)
        (t : table) (values : list cell) (params : list sqlval) :
  create_record self data st = (Ok record_id, st') →
  tables st !! table_name self = Some t →
  map_result (dict_getitem data) (keys data) = Ok values →
  map_result bind_param values = Ok params →
  ∃ vals frame,
    (read_all self st').1 = Ok frame
    ∧ vals ∈ qf_rows frame
    ∧ (∀ i d, rowid_alias (t_columns t) = Some (i, d) → vals !! i = Some (SInt record_id))
    ∧ (∀ j d, t_columns t !! j = Some d →
              (∀ d', rowid_alias (t_columns t) ≠ Some (j, d')) →
              vals !! j = Some (apply_affinity (cd_type d) (supplied (keys data) params d))).
Proof.
  intros Hrun Ht Hvalues Hparams.
  apply get_connection_returns in Hrun as (conn' & Hbody & Htables).
  rewrite Conn_bind_eq in Hbody. unfold lift in Hbody. rewrite Hvalues in Hbody.
  rewrite Conn_bind_eq in Hbody.
  destruct (execute _ values (connect self st)) as [[cur|e] conn1] eqn:Hexec; [|done].
  apply mret_inv in Hbody as [<- <-].
  destruct (execute_insert_stores _ _ _ _ _ _ Hexec)
    as (t0 & t' & bound & vals & Ht0 & Hw & Hbound & Hrows & Hcols & _ & Halias & Hother & _).
  rewrite connect_working in Ht0, Hw.
  destruct (transient (db_path self)) eqn:Htr; [by rewrite lookup_empty in Ht0|].
  rewrite Ht in Ht0. injection Ht0 as <-.
  rewrite Hparams in Hbound. injection Hbound as <-.
  assert (Ht' : tables st' !! table_name self = Some t').
  { rewrite Htables, Hw. apply lookup_insert_eq. }
  exists vals. eexists. split; [by rewrite (read_all_existing self st' t' Htr Ht')|].
  split; [|done]. cbn [qf_rows]. rewrite Hrows.
  apply (list_elem_of_fmap_2 snd _ (lastrowid cur, vals)).
  rewrite insert_by_rowid_perm. apply list_elem_of_here.
Qed.

Lemma supplied_none (cols : list string) (params : list sqlval) d :
  find (fun k => ident_eqb k (cd_name d)) cols = None → supplied cols params d = SNull.
Proof.
  intros Hnone. unfold supplied.
  assert (Hzip : find (fun p : string * sqlval => ident_eqb p.1 (cd_name d)) (zip cols params)
                 = None).
  { revert params. induction cols as [|c cols IH]; intros [|p params]; simpl in *; try done.
    destruct (ident_eqb c (cd_name d)); [done|]. by apply IH. }
  by rewrite Hzip.
Qed.

Lemma create_record_sequence (data : dict) (st st' : store) (record_id : Z) (t : table) :
  create_record self data st = (Ok record_id, st') →
  tables st !! table_name self = Some t →
  ∃ t' bound,
    tables st' !! table_name self = Some t'
    ∧ t_columns t' = t_columns t
    ∧ t_sequence t' = (if uses_autoincrement t
                       then Z.max (t_sequence t) record_id else t_sequence t)
    ∧ (∀ i d, rowid_alias (t_columns t) = Some (i, d) →
              supplied (keys data) bound d = SNull → record_id = next_rowid t).
Proof.
  intros Hrun Ht.
  apply get_connection_returns in Hrun as (conn' & Hbody & Htables).
  rewrite Conn_bind_eq in Hbody. unfold lift in Hbody.
  destruct (map_result (dict_getitem data) (keys data)) as [values|e]; [|done].
  rewrite Conn_bind_eq in Hbody.
  destruct (execute _ values (connect self st)) as [[cur|e] conn1] eqn:Hexec; [|done].
  apply mret_inv in Hbody as [<- <-].
  destruct (execute_insert_stores _ _ _ _ _ _ Hexec)
    as (t0 & t' & bound & vals & Ht0 & Hw & _ & _ & Hcols & Hseq & _ & _ & Hnext).
  rewrite connect_working in Ht0, Hw.
  destruct (transient (db_path self)); [by rewrite lookup_empty in Ht0|].
  rewrite Ht in Ht0. injection Ht0 as <-.
  exists t', bound. split; [|done]. rewrite Htables, Hw. apply lookup_insert_eq.
Qed.

(** X24: identifiers are not reused. On a relation whose key is the
    generated [id] (INTEGER PRIMARY KEY AUTOINCREMENT), once
    [create_record] has returned an identifier, a [create_record] that
    follows a [delete_record] and whose record gives no value for the key
    returns a larger one, also when the row of the first has been
    deleted. *)
Theorem create_record_never_reuses_an_id (data data' : dict) (record_id : cell)
        (st st1 st2 st3 : store) (first second : Z) (t : table) i d :
  tables st !! table_name self = Some t →
  rowid_alias (t_columns t) = Some (i, d) →
  cd_autoincrement d = true →
  find (fun k => ident_eqb k (cd_name d)) (keys data') = None →
  create_record self data st = (Ok first, st1) →
  delete_record self record_id st1 = (Ok (), st2) →
  create_record self data' st2 = (Ok second, st3) →
  (first < second)%Z.
Proof.
  intros Ht Halias Hauto Hnokey Hfirst Hdelete Hsecond.
  assert (Huses : uses_autoincrement t = true).
  { unfold uses_autoincrement. apply existsb_exists. exists d. split; [|done].
    apply list_elem_of_In. destruct (rowid_alias_lookup _ _ _ Halias) as [Hd _].
    by eapply list_elem_of_lookup_2. }
  destruct (create_record_sequence data st st1 first t Hfirst Ht)
    as (t1 & _ & Ht1 & Hcols1 & Hseq1 & _).
  rewrite Huses in Hseq1.
  destruct (delete_record_leaves self record_id st1 st2 Hdelete)
    as (t1' & t2 & Ht1' & Ht2 & Hcols2 & Hseq2 & _).
  rewrite Ht1 in Ht1'. injection Ht1' as <-.
  destruct (create_record_sequence data' st2 st3 second t2 Hsecond Ht2)
    as (t3 & bound & _ & _ & _ & Hnext).
  rewrite (Hnext i d).
  - unfold next_rowid, uses_autoincrement. rewrite Hcols2, Hcols1.
    fold (uses_autoincrement t). rewrite Huses, Hseq2, Hseq1. lia.
  - by rewrite Hcols2, Hcols1.
  - by apply supplied_none.
Qed.
End StoredFacts.

Lemma create_record_stores_the_record_witness :
  let self := {| db_path := "data.db"; table_name := "data" |} in
  let id := {| cd_name := "id"; cd_type := INTEGER; cd_pk := true; cd_autoincrement := true |} in
  let name := {| cd_name := "name"; cd_type := TEXT; cd_pk := false;
                 cd_autoincrement := false |} in
  let age := {| cd_name := "age"; cd_type := INTEGER; cd_pk := false;
                cd_autoincrement := false |} in
  let t := {| t_columns := [id; name; age];
              t_rows := [(1%Z, [SInt 1; SText "Alice"; SInt 25])]; t_sequence := 1 |} in
  let st := {| tables := {[ "data" := t ]}; statements := [] |} in
  let outcome := @create_record decimal_engine self [("Name", PStr "Bob")] st in
  outcome.1 = Ok 2%Z
  ∧ ∃ vals frame,
      (@read_all decimal_engine self outcome.2).1 = Ok frame
      ∧ vals ∈ qf_rows frame
      ∧ vals !! 0%nat = Some (SInt 2)
      ∧ vals !! 1%nat = Some (SText "Bob")
      ∧ vals !! 2%nat = Some SNull.
Proof.
  intros self id name age t st outcome. split; [by vm_compute|].
  destruct (@create_record_stores_the_record decimal_engine self [("Name", PStr "Bob")] st
              outcome.2 2%Z t [PStr "Bob"] [SText "Bob"])
    as (vals & frame & Hread & Hin & Hkey & Hother); [by vm_compute|reflexivity..|].
  exists vals, frame. split; [exact Hread|]. split; [exact Hin|]. split_and!.
  - by apply (Hkey 0%nat id).
  - by rewrite (Hother 1%nat name).
  - by rewrite (Hother 2%nat age).
Defined.

Lemma create_record_never_reuses_an_id_witness :
  let self := {| db_path := "data.db"; table_name := "data" |} in
  let id := {| cd_name := "id"; cd_type := INTEGER; cd_pk := true; cd_autoincrement := true |} in
  let t := {| t_columns := [ id; {| cd_name := "name"; cd_type := TEXT; cd_pk := false;
                                    cd_autoincrement := false |} ];
              t_rows := [(1%Z, [SInt 1; SText "Alice"])]; t_sequence := 1 |} in
  let st := {| tables := {[ "data" := t ]}; statements := [] |} in
  let st1 := (@create_record decimal_engine self [("name", PStr "Bob")] st).2 in
  let st2 := (@delete_record decimal_engine self (PInt 2) st1).2 in
  let outcome := @create_record decimal_engine self [("name", PStr "Carol")] st2 in
  (@create_record decimal_engine self [("name", PStr "Bob")] st).1 = Ok 2%Z
  ∧ rows_of "data" (tables st2) = [(1%Z, [SInt 1; SText "Alice"])]
  ∧ ∃ second, outcome.1 = Ok second ∧ (2 < second)%Z.
Proof.
  intros self id t st st1 st2 outcome. split; [by vm_compute|]. split; [by vm_compute|].
  exists 3%Z. split; [by vm_compute|].
  apply (@create_record_never_reuses_an_id decimal_engine self [("name", PStr "Bob")]
           [("name", PStr "Carol")] (PInt 2) st st1 st2 outcome.2 2%Z 3%Z t 0%nat id);
    by vm_compute.
Defined.

Section UpdateFacts.
Context `{Coercions}.
Variable self : DatabaseManager.

Lemma find_column_lookup (defs : list column_def) name j d :
  find_column defs name = Some (j, d) →
  defs !! j = Some d ∧ ident_eqb (cd_name d) name = true.
Proof.
  revert j. induction defs as [|d0 defs IH]; intros j; simpl; [done|].
  destruct (ident_eqb (cd_name d0) name) eqn:Hname.
  - by intros [= <- <-].
  - destruct (find_column defs name) as [[j' d']|]; simpl; [|done].
    intros [= <- <-]. by apply IH.
Qed.

Lemma foldl_assign_plain (sets : list (nat * column_def * sqlval)) rid vals :
  (∀ cv, cv ∈ sets → is_rowid_alias cv.1.2 = false) →
  foldl assign (Ok (rid, vals)) sets = Ok (rid, foldl assign_value vals sets).
Proof.
  revert vals. induction sets as [|[[i d] v] sets IH]; intros vals Hplain; [done|].
  pose proof (Hplain (i, d, v) (list_elem_of_here _ _)) as Hd. simpl in Hd.
  simpl. rewrite Hd. apply IH. intros cv Hcv. apply Hplain. by apply list_elem_of_further.
Qed.

Lemma foldl_assign_value_length sets vals :
  length (foldl assign_value vals sets) = length vals.
Proof.
  revert vals. induction sets as [|cv sets IH]; intros vals; [done|].
  simpl. rewrite IH. unfold assign_value. by rewrite length_insert.
Qed.

Lemma foldl_assign_value_other sets vals j :
  (∀ cv, cv ∈ sets → cv.1.1 ≠ j) → foldl assign_value vals sets !! j = vals !! j.
Proof.
  revert vals. induction sets as [|cv sets IH]; intros vals Hother; [done|].
  simpl. rewrite IH by (intros cv' Hcv'; apply Hother; by apply list_elem_of_further).
  unfold assign_value. apply list_lookup_insert_ne.
  apply (Hother cv), list_elem_of_here.
Qed.

Lemma foldl_assign_value_at sets vals cv :
  NoDup (map (fun cv => cv.1.1) sets) → cv ∈ sets → (cv.1.1 < length vals)%nat →
  foldl assign_value vals sets !! cv.1.1 = Some (apply_affinity (cd_type cv.1.2) cv.2).
Proof.
  revert vals. induction sets as [|cv0 sets IH]; intros vals Hnd Hin Hlt.
  - by apply elem_of_nil in Hin.
  - simpl in Hnd. apply NoDup_cons in Hnd as [Hfresh Hnd]. simpl.
    apply elem_of_cons in Hin as [->|Hin].
    + rewrite foldl_assign_value_other.
      * unfold assign_value. by apply list_lookup_insert_eq.
      * intros cv' Hcv' Heq. apply Hfresh. rewrite <- Heq.
        by apply (list_elem_of_fmap_2 (fun cv => cv.1.1)).
    + apply IH; [done|done|]. unfold assign_value. by rewrite length_insert.
Qed.

(** What one UPDATE does to a row that matches. *)
Lemma update_rows_matched tbl (t : table) sets wi wd key cur t' r :
  update_rows tbl t sets wi wd key = Ok (cur, t') →
  (∀ cv, cv ∈ sets → is_rowid_alias cv.1.2 = false) →
  r ∈ t_rows t → row_matches wi wd key r = true →
  (r.1, foldl assign_value r.2 sets) ∈ t_rows t'.
Proof.
  unfold update_rows. intros Hrun Hplain Hr Hmatch.
  destruct (map_result _ (t_rows t)) as [rows|e] eqn:Hrows; simpl in Hrun; [|done].
  destruct (rowid_conflict rows); [done|].
  destruct (rows_pk_conflict _ _); [done|].
  injection Hrun as _ <-. simpl. rewrite sort_by_rowid_perm.
  apply map_result_inv in Hrows.
  apply list_elem_of_lookup in Hr as [k Hk].
  destruct (Forall2_lookup_l _ _ _ _ _ Hrows Hk) as (r' & Hk' & Himage).
  rewrite Hmatch in Himage. destruct r as [rid vals].
  rewrite foldl_assign_plain in Himage by done. injection Himage as <-.
  by eapply list_elem_of_lookup_2.
Qed.

Lemma targets_positions (t : table) set_cols targets :
  map_result (resolve t) set_cols = Ok targets →
  Forall2 (fun col target => find_column (t_columns t) col = Some target) set_cols targets.
Proof.
  intros Htargets%map_result_inv. eapply Forall2_impl; [exact Htargets|].
  intros col target. unfold resolve.
  destruct (find_column (t_columns t) col); [by intros [= ->]|done].
Qed.

Lemma targets_distinct (t : table) set_cols targets :
  sql_distinct set_cols →
  Forall2 (fun col target => find_column (t_columns t) col = Some target) set_cols targets →
  NoDup (map fst targets).
Proof.
  intros Hdistinct Hall. apply NoDup_alt. intros a b j Ha Hb.
  rewrite list_lookup_fmap in Ha, Hb.
  destruct (targets !! a) as [[ja da]|] eqn:Hta; [|done].
  destruct (targets !! b) as [[jb db]|] eqn:Htb; [|done].
  simpl in Ha, Hb. injection Ha as ->. injection Hb as ->.
  destruct (Forall2_lookup_r _ _ _ _ _ Hall Hta) as (ca & Hca & Hfa).
  destruct (Forall2_lookup_r _ _ _ _ _ Hall Htb) as (cb & Hcb & Hfb).
  destruct (find_column_lookup _ _ _ _ Hfa) as [Hda Hna].
  destruct (find_column_lookup _ _ _ _ Hfb) as [Hdb Hnb].
  rewrite Hda in Hdb. injection Hdb as <-.
  apply (ident_eqb_distinct set_cols a b ca cb Hdistinct Hca Hcb).
  rewrite ident_eqb_sym in Hna. by rewrite <- (ident_eqb_trans ca (cd_name da) cb Hna).
Qed.

(** X25: what [update_record] writes. When it returns, every row whose
    value in the column taken for the key equals [record_id] is still in
    the relation under its rowid; in it, every field of the record other
    than the key field holds the value the record gives, converted as the
    column's affinity asks, and every column that the record does not
    name is as it was.  (The fields are taken to name distinct columns,
    none of them the INTEGER PRIMARY KEY.) *)
Theorem update_record_writes_the_fields (record_id : cell) (data : dict) (st st' : store)
        primary_key (t : table) wi wd key r :
  update_record self record_id data st = (Ok (), st') →
  update_primary_key data = Ok primary_key →
  filter (fun col => col ≠ primary_key) (keys data) ≠ [] →
  sql_distinct (filter (fun col => col ≠ primary_key) (keys data)) →
  tables st !! table_name self = Some t →
  (∀ col j d, col ∈ keys data → col ≠ primary_key →
              find_column (t_columns t) col = Some (j, d) → is_rowid_alias d = false) →
  find_column (t_columns t) primary_key = Some (wi, wd) →
  bind_param record_id = Ok key →
  r ∈ t_rows t → row_matches wi wd key r = true →
  length r.2 = length (t_columns t) →
  ∃ vals,
    (r.1, vals) ∈ rows_of (table_name self) (tables st')
    ∧ (∀ col value bound j d,
         col ≠ primary_key → dict_getitem data col = Ok value → col ∈ keys data →
         bind_param value = Ok bound →
         find_column (t_columns t) col = Some (j, d) →
         vals !! j = Some (apply_affinity (cd_type d) bound))
    ∧ (∀ j, (∀ col d, col ∈ keys data → col ≠ primary_key →
                      find_column (t_columns t) col ≠ Some (j, d)) →
            vals !! j = r.2 !! j).
Proof.
  intros Hrun Hpk Hset Hdistinct Ht Hplain Hwhere Hkey Hr Hmatch Hwidth.
  unfold update_record in Hrun. rewrite Hpk in Hrun.
  set (set_cols := filter (fun col => col ≠ primary_key) (keys data)) in *.
  destruct set_cols as [|c cs] eqn:Hcols; [done|]. rewrite <- Hcols in *.
  apply get_connection_returns in Hrun as (conn' & Hbody & Htables).
  rewrite Conn_bind_eq in Hbody. unfold lift in Hbody.
  destruct (map_result (dict_getitem data) set_cols) as [values|e] eqn:Hvalues; [|done].
  rewrite Conn_bind_eq in Hbody.
  destruct (execute _ (values ++ [record_id]) (connect self st))
    as [[cur|e] conn1] eqn:Hexec; [|done].
  apply mret_inv in Hbody as [_ <-].
  revert Hexec. unfold execute, compile_bind_run. cbn [working record].
  destruct (prepare _ _) as [[]|e]; simpl; [|done].
  unfold bind_params. destruct (_ =? _)%nat; [|done].
  destruct (map_result bind_param (values ++ [record_id])) as [params|e] eqn:Hbind;
    simpl; [|done].
  unfold run. destruct (prepare _ _) as [[]|e]; simpl; [|done].
  rewrite ?connect_working.
  destruct (transient (db_path self)) eqn:Htr; [by rewrite lookup_empty|].
  rewrite Ht.
  destruct (map_result (resolve t) set_cols) as [targets|e] eqn:Htargets; simpl; [|done].
  unfold resolve at 1. rewrite Hwhere. simpl.
  destruct (update_rows _ _ _ _ _ _) as [[cur' t']|e] eqn:Hup; simpl; [|done].
  intros [= <- <-]. cbn [working] in Htables.
  (* the parameters: the bound values, then the key *)
  apply map_result_inv in Hbind.
  apply Forall2_app_inv_l in Hbind as (bounds & last & Hbounds & Hlast & ->).
  apply Forall2_cons_inv_l in Hlast as (key' & rest & Hkey' & Hnil & ->).
  apply Forall2_nil_inv_l in Hnil as ->.
  rewrite Hkey in Hkey'. injection Hkey' as <-.
  apply map_result_inv in Hvalues.
  assert (Hlen : length set_cols = length bounds).
  { rewrite (Forall2_length _ _ _ Hvalues). by eapply Forall2_length. }
  rewrite Hlen, take_app_length in Hup.
  rewrite nth_middle in Hup.
  pose proof (targets_positions t set_cols targets Htargets) as Hpos.
  set (sets := zip targets bounds) in *.
  assert (Hsets : ∀ cv, cv ∈ sets →
            ∃ k col value, set_cols !! k = Some col ∧ values !! k = Some value
                           ∧ find_column (t_columns t) col = Some cv.1
                           ∧ bind_param value = Ok cv.2).
  { intros [target bound] Hcv. apply list_elem_of_lookup in Hcv as [k Hk].
    apply lookup_zip_with_Some in Hk as (tg & b & [= <- <-] & Htg & Hb).
    destruct (Forall2_lookup_r _ _ _ _ _ Hpos Htg) as (col & Hcol & Hfind).
    destruct (Forall2_lookup_r _ _ _ _ _ Hbounds Hb) as (value & Hvalue & Hbound).
    by exists k, col, value. }
  assert (Hin_cols : ∀ col, col ∈ set_cols → col ∈ keys data ∧ col ≠ primary_key).
  { intros col Hcol. unfold set_cols in Hcol. by apply list_elem_of_filter in Hcol as [? ?]. }
  assert (Hplain' : ∀ cv, cv ∈ sets → is_rowid_alias cv.1.2 = false).
  { intros [[j d] b] Hcv. destruct (Hsets _ Hcv) as (k & col & value & Hcol & _ & Hfind & _).
    destruct (Hin_cols col) as [Hkeys Hne]; [by eapply list_elem_of_lookup_2|].
    by apply (Hplain col j d). }
  pose proof (update_rows_matched _ _ _ _ _ _ _ _ r Hup Hplain' Hr Hmatch) as Hrow.
  exists (foldl assign_value r.2 sets). split; [|split].
  - rewrite Htables. by rewrite rows_of_insert.
  - intros col value bound j d Hne Hget Hkeys Hbound Hfind.
    assert (Hcol : col ∈ set_cols) by (unfold set_cols; by apply list_elem_of_filter).
    apply list_elem_of_lookup in Hcol as [k Hk].
    destruct (Forall2_lookup_l _ _ _ _ _ Hvalues Hk) as (value' & Hvalue' & Hget').
    rewrite Hget in Hget'. injection Hget' as <-.
    destruct (Forall2_lookup_l _ _ _ _ _ Hbounds Hvalue') as (bound' & Hb & Hbound').
    rewrite Hbound in Hbound'. injection Hbound' as <-.
    destruct (Forall2_lookup_l _ _ _ _ _ Hpos Hk) as (target & Htarget & Hfind').
    rewrite Hfind in Hfind'. injection Hfind' as <-.
    assert (Hcv : (j, d, bound) ∈ sets).
    { apply list_elem_of_lookup. exists k. unfold sets.
      apply lookup_zip_with_Some. by exists (j, d), bound. }
    apply (foldl_assign_value_at sets r.2 (j, d, bound)); [|done|].
    + unfold sets. replace (map (fun cv : nat * column_def * sqlval => cv.1.1) (zip targets bounds))
        with (map fst targets).
      * by eapply targets_distinct.
      * assert (Hsame : length targets = length bounds).
        { rewrite <- (Forall2_length _ _ _ Hpos). done. }
        clear -Hsame. revert bounds Hsame.
        induction targets as [|tg targets IH]; intros [|b bounds] Hsame; try done.
        simpl in *. f_equal. apply IH. lia.
    + simpl. rewrite Hwidth. destruct (find_column_lookup _ _ _ _ Hfind) as [Hd _].
      by eapply lookup_lt_Some.
  - intros j Hfree. apply foldl_assign_value_other.
    intros [[j' d] b] Hcv. simpl. intros ->.
    destruct (Hsets _ Hcv) as (k & col & value & Hcol & _ & Hfind & _).
    destruct (Hin_cols col) as [Hkeys Hne]; [by eapply list_elem_of_lookup_2|].
    by apply (Hfree col d).
Qed.
End UpdateFacts.

Lemma update_record_writes_the_fields_witness :
  let self := {| db_path := "data.db"; table_name := "data" |} in
  let id := {| cd_name := "id"; cd_type := INTEGER; cd_pk := true; cd_autoincrement := true |} in
  let name := {| cd_name := "name"; cd_type := TEXT; cd_pk := false;
                 cd_autoincrement := false |} in
  let age := {| cd_name := "age"; cd_type := INTEGER; cd_pk := false;
                cd_autoincrement := false |} in
  let t := {| t_columns := [id; name; age];
              t_rows := [(1%Z, [SInt 1; SText "Alice"; SInt 25]);
                         (2%Z, [SInt 2; SText "Bob"; SInt 30])];
              t_sequence := 2 |} in
  let st := {| tables := {[ "data" := t ]}; statements := [] |} in
  let data := [("id", PInt 1); ("name", PStr "Alicia")] in
  let outcome := @update_record decimal_engine self (PInt 1) data st in
  outcome.1 = Ok ()
  ∧ ∃ vals, (1%Z, vals) ∈ rows_of "data" (tables outcome.2)
            ∧ vals !! 1%nat = Some (SText "Alicia")
            ∧ vals !! 2%nat = Some (SInt 25).
Proof.
  intros self id name age t st data outcome. split; [by vm_compute|].
  destruct (@update_record_writes_the_fields decimal_engine self (PInt 1) data st outcome.2
              "id" t 0%nat id (SInt 1) (1%Z, [SInt 1; SText "Alice"; SInt 25]))
    as (vals & Hin & Hset & Hkeep).
  - by vm_compute.
  - reflexivity.
  - by vm_compute.
  - apply (bool_decide_unpack _). vm_compute. exact I.
  - reflexivity.
  - intros col j d Hcol Hne Hfind.
    apply elem_of_cons in Hcol as [->|Hcol]; [done|].
    apply elem_of_cons in Hcol as [->|Hcol]; [|by apply elem_of_nil in Hcol].
    vm_compute in Hfind. by injection Hfind as <- <-.
  - reflexivity.
  - reflexivity.
  - apply list_elem_of_here.
  - reflexivity.
  - reflexivity.
  - exists vals. split; [exact Hin|]. split.
    + apply (Hset "name" (PStr "Alicia") (SText "Alicia") 1%nat name); try reflexivity; try done.
      apply list_elem_of_further, list_elem_of_here.
    + rewrite (Hkeep 2%nat); [reflexivity|].
      intros col d Hcol Hne Hfind.
      apply elem_of_cons in Hcol as [->|Hcol]; [done|].
      apply elem_of_cons in Hcol as [->|Hcol]; [|by apply elem_of_nil in Hcol].
      vm_compute in Hfind. discriminate.
Defined.

Section UploadFacts.
Context `{Coercions}.
Variable to_datetime : Series → result unit.
Variable read_excel : string → result (DataFrame label).

Lemma unexpected_report (e : exn) (st : store) :
  unexpected e →
  App.process_excel_file to_datetime read_excel (Raise e) st
  = ((None, Some ("Unexpected error processing file: " +:+ exn_str e)), st).
Proof. by destruct e. Qed.

(** What [insert_data] can raise. *)
Lemma insert_data_raises self (df : DataFrame string) (schema : Schema) (st st' : store) e :
  insert_data self df schema st = (Raise e, st') → unexpected e ∧ tables st' = tables st.
Proof.
  intros Hrun. split.
  - revert Hrun. unfold insert_data, except_sqlite3, get_connection.
    rewrite Conn_bind_eq. unfold lift.
    destruct (map_result _ (iterrows df)) as [rows|e0] eqn:Hrows.
    + destruct (executemany _ rows (connect self st)) as [[[]|e0] conn1] eqn:Hmany; [done|].
      apply executemany_raises in Hmany.
      destruct e0; try done; by intros [= <- _].
    + assert (Hkind : (∃ m, e0 = KeyError m) ∨ (∃ m, e0 = ValueError m)).
      { eapply (map_result_raises
                  (fun e => (∃ m, e = KeyError m) ∨ (∃ m, e = ValueError m))); [|exact Hrows].
        intros row e1 Hrow.
        eapply (map_result_raises
                  (fun e => (∃ m, e = KeyError m) ∨ (∃ m, e = ValueError m))); [|exact Hrow].
        intros col e2. unfold row_getitem.
        destruct ((filter _ row).*2) as [|c [|c' cs]]; simpl; intros [= <-];
          [left|right]; by eexists. }
      destruct Hkind as [[m ->]|[m ->]]; by intros [= <- _].
  - eapply (get_connection_fails_cleanly self "Failed to insert data: "); [|exact Hrun].
    apply keeps_committed_bind; [apply keeps_committed_lift|].
    intros rows. apply keeps_committed_executemany.
Qed.

(** A dataset with rows does not go into a relation that lacks its first
    label. *)
Lemma insert_data_unknown_label self (df : DataFrame string) (schema : Schema) (st : store)
      (t : table) l rest :
  transient (db_path self) = false →
  tables st !! table_name self = Some t →
  df_columns df = l :: rest → has_column t l = false → df_len df ≠ 0%nat →
  ∃ e, (insert_data self df schema st).1 = Raise e.
Proof.
  intros Htr Ht Hcols Hmissing Hrows.
  unfold insert_data, except_sqlite3, get_connection.
  rewrite Conn_bind_eq. unfold lift. rewrite insert_columns_all.
  destruct (map_result _ (iterrows df)) as [rows|e0] eqn:Hmap.
  - assert (Hlen : length rows = df_len df).
    { apply map_result_inv, Forall2_length in Hmap. by rewrite <- Hmap, iterrows_length. }
    destruct rows as [|row rows]; [simpl in Hlen; lia|].
    cbn [executemany]. rewrite Conn_bind_eq.
    unfold execute, compile_bind_run, prepare. cbn [working record].
    rewrite connect_working, Htr, Ht. unfold insert_checks.
    rewrite Hcols. cbn [length Nat.eqb find]. rewrite Hmissing. cbn. by eexists.
  - destruct e0; cbn; by eexists.
Qed.

Lemma starts_with_U first :
  String.prefix "Unnamed" first = true → ∃ r, first = String "U" r.
Proof.
  destruct first as [|c r]; [done|]. cbn [String.prefix].
  destruct (ascii_dec "U" c) as [<-|]; [by eexists|done].
Qed.

Lemma lower_digits d :
  map_chars lower (NilEmpty.string_of_uint d) = NilEmpty.string_of_uint d.
Proof. induction d; simpl; [done|by rewrite IHd..]. Qed.

Lemma map_chars_app f s t : map_chars f (s +:+ t) = map_chars f s +:+ map_chars f t.
Proof. induction s as [|c s IH]; simpl; [done|]. by rewrite IH. Qed.

Lemma lower_generated n :
  map_chars lower ("Column" +:+ str_of_nat n) = "column" +:+ str_of_nat n.
Proof. unfold str_of_nat. by rewrite map_chars_app, lower_digits. Qed.

Lemma generated_names_sql_distinct n :
  sql_distinct (map (fun i => "Column" +:+ str_of_nat (i + 1)) (seq 0 n)).
Proof.
  unfold sql_distinct. rewrite map_map.
  apply (NoDup_fmap_2_strong (fun i => map_chars lower ("Column" +:+ str_of_nat (i + 1)))).
  - intros i j _ _. rewrite !lower_generated. intros Heq. injection Heq as Heq.
    apply str_of_nat_inj in Heq. lia.
  - apply NoDup_ListNoDup, seq_NoDup.
Qed.

Lemma generated_not_unnamed (schema : Schema) (l : list nat) r :
  existsb (fun d => ident_eqb (cd_name d) (String "U" r))
          (map (col_def schema) (map (fun i => "Column" +:+ str_of_nat (i + 1)) l)) = false.
Proof.
  induction l as [|i l IH]; [done|].
  cbn [map existsb]. rewrite IH, col_def_name_of. unfold ident_eqb.
  rewrite lower_generated. generalize (str_of_nat (i + 1)). intros digits. done.
Qed.

Lemma process_report tmp_path (st st' : store) e :
  App.process_excel_file_body to_datetime read_excel tmp_path st = (Raise e, st') →
  unexpected e →
  App.process_excel_file to_datetime read_excel (Ok tmp_path) st
  = ((None, Some ("Unexpected error processing file: " +:+ exn_str e)), st').
Proof. intros Hbody He. unfold App.process_excel_file. rewrite Hbody. by destruct e. Qed.

Lemma detect_schema_raises tmp_path e :
  detect_schema to_datetime read_excel tmp_path = Raise e →
  ∃ msg, e = SchemaDetectionError msg.
Proof.
  unfold detect_schema.
  destruct (detect_schema_body to_datetime read_excel tmp_path) as [schema|e0]; [done|].
  destruct e0; intros [= <-]; by eexists.
Qed.

(** X26: a file that the detector refuses is turned down with the
    detector's own message, and a sheet of more than 10000 rows with the
    row-limit message, which is looked at only once the detection has gone
    through; in both cases nothing is sent to the database. *)
Theorem process_excel_file_refusals tmp_path (st : store) :
  (∀ e, detect_schema to_datetime read_excel tmp_path = Raise e →
        App.process_excel_file to_datetime read_excel (Ok tmp_path) st
        = ((None, Some (exn_str e)), st))
  ∧ (∀ schema df,
       detect_schema to_datetime read_excel tmp_path = Ok schema →
       read_excel tmp_path = Ok df →
       (App.MAX_ROWS < Z.of_nat (df_len df))%Z →
       App.process_excel_file to_datetime read_excel (Ok tmp_path) st
       = ((None, Some "Sheet exceeds 10000 row limit. Please use a smaller dataset for MVP."),
          st)).
Proof.
  split.
  - intros e Hdetect. destruct (detect_schema_raises tmp_path e Hdetect) as [msg ->].
    unfold App.process_excel_file, App.process_excel_file_body. by rewrite Hdetect.
  - intros schema df Hdetect Hread Hrows.
    unfold App.process_excel_file, App.process_excel_file_body.
    rewrite Hdetect, Hread. apply Z.ltb_lt in Hrows. by rewrite Hrows.
Qed.

Lemma str_labels_raises labels e : App.str_labels labels = Raise e → unexpected e.
Proof.
  unfold App.str_labels. apply map_result_raises. intros l e0.
  destruct l; [done|]. by intros [= <-].
Qed.

Lemma create_table_fresh (schema : Schema) (st : store) :
  tables st !! "data" = None →
  create_checks "data" (map (col_def schema) (columns schema)) = Ok () →
  create_table upload_manager schema st
  = (Ok (), {| tables := <["data" := {| t_columns := map (col_def schema) (columns schema);
                                        t_rows := []; t_sequence := 0 |}]> (tables st);
               statements := statements st
                             ++ [(CreateTableIfNotExists "data"
                                    (map (col_def schema) (columns schema)), [])] |}).
Proof.
  intros Hfresh Hchecks.
  unfold create_table, except_sqlite3, get_connection. rewrite Conn_bind_eq.
  rewrite execute_create_fresh by done. cbn [table_name upload_manager].
  rewrite Hchecks. done.
Qed.

(** X27: a sheet whose first header cell is empty cannot be uploaded. The
    descriptor names the columns [Column1], ..., [ColumnN] and the relation
    is created with them, but the rows are inserted under the labels of
    the sheet as it was read; the INSERT fails, the error is reported as
    unexpected, and the relation created on the way stays behind, empty. *)
Theorem process_excel_file_headerless tmp_path (df : DataFrame label) first rest
        (st : store) :
  read_excel tmp_path = Ok df →
  frame_wf df →
  empty df = false →
  df_columns df = LStr first :: rest →
  String.prefix "Unnamed" first = true →
  parser_raises_value_or_type to_datetime →
  (Z.of_nat (df_len df) ≤ App.MAX_ROWS)%Z →
  tables st !! "data" = None →
  ∃ msg st' t,
    App.process_excel_file to_datetime read_excel (Ok tmp_path) st
    = ((None, Some ("Unexpected error processing file: " +:+ msg)), st')
    ∧ tables st' !! "data" = Some t
    ∧ map cd_name (t_columns t)
      = map (fun i => "Column" +:+ str_of_nat (i + 1)) (seq 0 (length (df_columns df)))
    ∧ t_rows t = [].
Proof.
  intros Hread [Hlen _] Hne Hcols Hprefix Hparser Hrows Hfresh.
  pose proof (headerless_labels df first rest Hcols Hprefix) as Hlabels.
  set (names := map (fun i => "Column" +:+ str_of_nat (i + 1))
                    (seq 0 (length (df_columns df)))) in *.
  destruct (detect_schema_returns to_datetime read_excel tmp_path df first rest
              Hread Hlen Hne Hcols) as [schema Hschema]; [|done|].
  { rewrite Hlabels. apply generated_names_NoDup. }
  destruct (detect_schema_ok_inv to_datetime read_excel tmp_path df schema Hread Hschema)
    as (_ & types & key & Htypes & Hkey & Hrecord).
  rewrite Hlabels in Htypes, Hkey, Hrecord.
  set (df' := {| df_columns := names; df_data := df_data df; df_len := df_len df |}) in *.
  assert (Hcolumns : columns schema = names) by by rewrite Hrecord.
  assert (Hnames : names ≠ []).
  { unfold names. rewrite Hcols. done. }
  assert (Hchecks : create_checks "data" (map (col_def schema) (columns schema)) = Ok ()).
  { rewrite Hcolumns. apply (create_checks_ok df' schema); try done.
    - by rewrite Hrecord.
    - simpl. unfold names. by rewrite length_map, length_seq.
    - apply generated_names_sql_distinct. }
  set (t0 := {| t_columns := map (col_def schema) (columns schema);
                t_rows := []; t_sequence := 0 |}).
  set (st1 := {| tables := <["data" := t0]> (tables st);
                 statements := statements st
                               ++ [(CreateTableIfNotExists "data"
                                      (map (col_def schema) (columns schema)), [])] |}).
  assert (Hcreate : create_table upload_manager schema st = (Ok (), st1))
    by by apply create_table_fresh.
  assert (Hinsert : ∃ e st2,
             App.insert_data_as_read upload_manager df schema st1 = (Raise e, st2)
             ∧ unexpected e ∧ tables st2 = tables st1).
  { unfold App.insert_data_as_read.
    destruct (App.str_labels (df_columns df)) as [labels|e] eqn:Hstr.
    - destruct (starts_with_U first Hprefix) as [r ->].
      assert (Hfirst : ∃ more, labels = String "U" r :: more).
      { revert Hstr. unfold App.str_labels. rewrite Hcols. simpl.
        destruct (map_result _ rest) as [more|]; simpl; [|done].
        intros [= <-]. by eexists. }
      destruct Hfirst as [more ->].
      set (frame := {| df_columns := String "U" r :: more; df_data := df_data df;
                       df_len := df_len df |}).
      destruct (insert_data_unknown_label upload_manager frame schema st1 t0
                  (String "U" r) more) as [e He]; try done.
      + apply lookup_insert_eq.
      + unfold has_column, t0. cbn [t_columns]. rewrite Hcolumns.
        apply generated_not_unnamed.
      + unfold empty in Hne. apply orb_false_elim in Hne as [Hn _].
        by apply Nat.eqb_neq in Hn.
      + destruct (insert_data upload_manager frame schema st1) as [r0 st2] eqn:Hrun.
        simpl in He. subst r0. exists e, st2. split; [done|].
        by apply (insert_data_raises upload_manager frame schema st1 st2 e).
    - exists e, st1. split; [done|]. split; [|done]. by eapply str_labels_raises. }
  destruct Hinsert as (e & st2 & Hinsert & He & Htables).
  exists (exn_str e), st2, t0.
  split; [|split; [|split]].
  - apply process_report; [|done].
    unfold App.process_excel_file_body. rewrite Hschema, Hread.
    apply Z.leb_le in Hrows. rewrite Z.ltb_antisym, Hrows. cbn [negb].
    fold upload_manager. rewrite Hcreate, Hinsert. done.
  - rewrite Htables. apply lookup_insert_eq.
  - unfold t0. cbn [t_columns]. by rewrite col_defs_names.
  - done.
Qed.

Lemma clean_labels_names (labels : list label) :
  Forall clean_label labels →
  map clean_column_name labels = map py_str labels
  ∧ App.str_labels labels = Ok (map py_str labels).
Proof.
  unfold App.str_labels.
  induction 1 as [|l labels Hl _ [IH1 IH2]]; [done|].
  destruct l as [s|]; [|done]. simpl in *.
  rewrite IH2. cbn. split; [|done]. f_equal; [|done].
  by apply clean_column_name_fixes_clean.
Qed.

End UploadFacts.

Lemma process_excel_file_headerless_witness :
  let df := {| df_columns := [LStr "Unnamed: 0"; LStr "name"];
               df_data := [ {| dtype := Int64; values := [PInt 1; PInt 2] |};
                            {| dtype := Object; values := [PStr "Alice"; PStr "Bob"] |} ];
               df_len := 2 |} in
  let to_datetime : Series → result () :=
    fun _ => Raise (ValueError "Unknown datetime string format") in
  let read_excel : string → result (DataFrame label) := fun _ => Ok df in
  let st := {| tables := ∅; statements := [] |} in
  ∃ msg st' t,
    @App.process_excel_file decimal_engine to_datetime read_excel (Ok "/tmp/tmpabc.xlsx") st
    = ((None, Some ("Unexpected error processing file: " +:+ msg)), st')
    ∧ tables st' !! "data" = Some t
    ∧ map cd_name (t_columns t) = ["Column1"; "Column2"]
    ∧ t_rows t = [].
Proof.
  intros df to_datetime read_excel st.
  apply (@process_excel_file_headerless decimal_engine to_datetime read_excel
           "/tmp/tmpabc.xlsx" df "Unnamed: 0" [LStr "name"] st).
  - reflexivity.
  - split; [reflexivity|repeat constructor].
  - reflexivity.
  - reflexivity.
  - reflexivity.
  - intros s e [= <-]. left. by eexists.
  - by vm_compute.
  - reflexivity.
Defined.


Lemma rfind_dot_no_dot stem ext :
  App.rfind_dot ext = None →
  App.rfind_dot (stem +:+ String "." ext) = Some (String.length stem).
Proof.
  intros Hext. induction stem as [|c stem IH]; simpl.
  - by rewrite Hext.
  - by rewrite IH.
Qed.

Lemma rfind_dot_split s i :
  App.rfind_dot s = Some i →
  ∃ stem ext, s = stem +:+ String "." ext ∧ String.length stem = i ∧ App.rfind_dot ext = None.
Proof.
  revert i. induction s as [|c s IH]; intros i; simpl; [done|].
  destruct (App.rfind_dot s) as [j|] eqn:Hs.
  - intros [= <-]. destruct (IH j eq_refl) as (stem & ext & -> & <- & Hext).
    by exists (String c stem), ext.
  - destruct (Ascii.eqb_spec c ".") as [->|]; [|done].
    intros [= <-]. by exists EmptyString, s.
Qed.

Lemma substring_all t : substring 0 (String.length t) t = t.
Proof. induction t as [|c t IH]; simpl; [done|]. by rewrite IH. Qed.

Lemma substring_tail stem t :
  substring (String.length stem) (String.length (stem +:+ t) - String.length stem) (stem +:+ t)
  = t.
Proof.
  induction stem as [|c stem IH]; simpl.
  - rewrite Nat.sub_0_r. apply substring_all.
  - exact IH.
Qed.

Lemma length_append s t : String.length (s +:+ t) = (String.length s + String.length t)%nat.
Proof. induction s as [|c s IH]; simpl; [done|]. by rewrite IH. Qed.

Lemma lower_char_dot c : App.lower_char c = "."%char ↔ c = "."%char.
Proof.
  split; [|by intros ->].
  destruct c as [[] [] [] [] [] [] [] []]; vm_compute; congruence.
Qed.

Lemma str_lower_no_dot s : App.rfind_dot (App.str_lower s) = None → App.rfind_dot s = None.
Proof.
  unfold App.str_lower. induction s as [|c s IH]; simpl; [done|].
  destruct (App.rfind_dot (map_chars App.lower_char s)); [done|].
  rewrite IH by done.
  destruct (Ascii.eqb_spec (App.lower_char c) ".") as [Hdot|Hne]; [done|].
  intros _. destruct (Ascii.eqb_spec c ".") as [->|]; [|done].
  by destruct Hne.
Qed.

Lemma str_lower_length s : String.length (App.str_lower s) = String.length s.
Proof. unfold App.str_lower. induction s as [|c s IH]; simpl; [done|]. by rewrite IH. Qed.

(** The suffix of a name that ends in a dot and an extension without
    dots, behind a stem that is not empty. *)
Lemma suffix_of_name p stem ext :
  App.path_name p = stem +:+ String "." ext →
  stem ≠ EmptyString → ext ≠ EmptyString → App.rfind_dot ext = None →
  App.suffix p = String "." ext.
Proof.
  intros Hname Hstem Hext Hdot. unfold App.suffix. rewrite Hname.
  rewrite (rfind_dot_no_dot stem ext Hdot).
  assert (H1 : (0 <? String.length stem)%nat = true).
  { apply Nat.ltb_lt. destruct stem; [done|simpl; lia]. }
  assert (H2 : (String.length stem <? String.length (stem +:+ String "." ext) - 1)%nat = true).
  { apply Nat.ltb_lt. rewrite length_append. simpl. destruct ext; [done|simpl; lia]. }
  rewrite H1, H2. simpl andb. cbv iota. apply substring_tail.
Qed.

Lemma suffix_inv p e :
  App.suffix p = e → e ≠ EmptyString →
  ∃ stem ext, App.path_name p = stem +:+ String "." ext ∧ stem ≠ EmptyString
              ∧ e = String "." ext.
Proof.
  unfold App.suffix. intros Hsuffix Hne.
  destruct (App.rfind_dot (App.path_name p)) as [i|] eqn:Hfind; [|congruence].
  destruct (rfind_dot_split _ _ Hfind) as (stem & ext & Hname & Hlen & Hext).
  destruct (0 <? i)%nat eqn:Hpos; simpl in Hsuffix; [|congruence].
  destruct (i <? String.length (App.path_name p) - 1)%nat; [|congruence].
  exists stem, ext. split; [done|]. split.
  - intros ->. simpl in Hlen. subst i. done.
  - rewrite <- Hsuffix, Hname, <- Hlen. by rewrite substring_tail.
Qed.

(** X29: [validate_file] accepts a file exactly when it is at most 50 MB
    large and the last component of its name is a stem that is not empty,
    a dot, and [xlsx] or [xls] in any mix of upper and lower case; a name
    such as [.xlsx], [report.xlsx.bak] or [report.xlsm] is refused. *)
Theorem validate_file_accepts (uploaded_file : App.UploadedFile) :
  App.validate_file (Some uploaded_file) = (true, None)
  ↔ (App.size uploaded_file ≤ App.MAX_FILE_SIZE)%Z
    ∧ ∃ stem ext,
        App.path_name (App.name uploaded_file) = stem +:+ "." +:+ ext
        ∧ stem ≠ EmptyString
        ∧ (App.str_lower ext = "xlsx" ∨ App.str_lower ext = "xls").
Proof.
  unfold App.validate_file. cbv zeta.
  set (e := App.suffix (App.name uploaded_file)).
  split.
  - destruct (bool_decide (App.str_lower e ∈ App.SUPPORTED_EXTENSIONS)) eqn:Hext;
      [|done]. simpl negb. cbv iota.
    destruct (App.MAX_FILE_SIZE <? App.size uploaded_file)%Z eqn:Hsize; [done|].
    intros _. split; [by apply Z.ltb_ge|].
    apply bool_decide_eq_true in Hext.
    assert (Hne : e ≠ EmptyString).
    { intros He. rewrite He in Hext. vm_compute in Hext.
      apply elem_of_cons in Hext as [?|Hext]; [done|].
      apply elem_of_cons in Hext as [?|Hext]; [done|]. by apply elem_of_nil in Hext. }
    destruct (suffix_inv _ e eq_refl Hne) as (stem & ext & Hname & Hstem & He).
    exists stem, ext. split; [done|]. split; [done|].
    rewrite He in Hext. unfold App.SUPPORTED_EXTENSIONS in Hext.
    apply elem_of_cons in Hext as [Hx|Hext]; [left; by injection Hx|].
    apply elem_of_cons in Hext as [Hx|Hext]; [right; by injection Hx|].
    by apply elem_of_nil in Hext.
  - intros (Hsize & stem & ext & Hname & Hstem & Hext).
    assert (Hdot : App.rfind_dot ext = None).
    { apply str_lower_no_dot. by destruct Hext as [->| ->]. }
    assert (Hne : ext ≠ EmptyString).
    { intros ->. by destruct Hext. }
    assert (He : e = String "." ext) by by apply (suffix_of_name _ stem).
    assert (Hin : App.str_lower e ∈ App.SUPPORTED_EXTENSIONS).
    { rewrite He. change (App.str_lower (String "." ext)) with (String "." (App.str_lower ext)).
      unfold App.SUPPORTED_EXTENSIONS.
      destruct Hext as [->| ->]; [apply list_elem_of_here|].
      apply list_elem_of_further, list_elem_of_here. }
    rewrite (bool_decide_eq_true_2 _ Hin). simpl negb. cbv iota.
    apply Z.ltb_ge in Hsize. by rewrite Hsize.
Qed.

